(** * Veriff KYC server: the upstream API client and the session aggregator

    A shallow embedding of [services/VeriffAPI.ts] (the credential pool,
    the signed request path with rotate-on-failure, the ten public
    operations and webhook signature verification) and of
    [utils/veriff-utils.ts] (the session aggregator), followed by the
    properties of the specification that concern them.

    Conventions of the embedding
    - A JavaScript string is a Rocq [string] holding its UTF-8 encoding
      (well-formed strings only, so no lone surrogates); [Buffer.from(s,
      'utf8')] is then the list of its bytes.
    - A JavaScript number is modelled by the integer it denotes; only
      integer-valued numbers are represented.
    - An [async] function returns [completion]: [Normal v] is a fulfilled
      promise, [Throw e] a rejected one.
    - The upstream service is an oracle from the request (and the moment
      it is sent) to the outcome of [axios.request].
    - A call of [performRequest] is cut at its [await]: [loop_head] runs
      from the loop test to the [await], [resume] from the answer to the
      next [await] or to the return. [run_alone] drives one call to its
      end, [run_schedule] several calls whose answers interleave. *)

From Stdlib Require Import ZArith List String Ascii Bool Lia.
From Stdlib.Strings Require Import Byte.
From Stdlib Require Import DecimalString.
Import ListNotations.

Open Scope string_scope.
Open Scope list_scope.
Open Scope Z_scope.

(* ===================================================================== *)
(** ** SHA-256 and HMAC (FIPS 180-4, RFC 2104)

    [crypto.createHmac('sha256', key).update(msg).digest('hex')] of the
    Node runtime. Words are 32-bit integers kept in [Z] with the wrap-around
    written out. *)

Module SHA256.

Definition w32 (x : Z) : Z := Z.land x 4294967295.

Definition add32 (x y : Z) : Z := w32 (x + y).

Definition rotr (n x : Z) : Z :=
  Z.lor (Z.shiftr x n) (w32 (Z.shiftl x (32 - n))).

Definition Ch (x y z : Z) : Z :=
  Z.lxor (Z.land x y) (Z.land (Z.lxor x 4294967295) z).

Definition Maj (x y z : Z) : Z :=
  Z.lxor (Z.lxor (Z.land x y) (Z.land x z)) (Z.land y z).

Definition Sigma0 (x : Z) : Z :=
  Z.lxor (Z.lxor (rotr 2 x) (rotr 13 x)) (rotr 22 x).

Definition Sigma1 (x : Z) : Z :=
  Z.lxor (Z.lxor (rotr 6 x) (rotr 11 x)) (rotr 25 x).

Definition sigma0 (x : Z) : Z :=
  Z.lxor (Z.lxor (rotr 7 x) (rotr 18 x)) (Z.shiftr x 3).

Definition sigma1 (x : Z) : Z :=
  Z.lxor (Z.lxor (rotr 17 x) (rotr 19 x)) (Z.shiftr x 10).

(** The round constants are the first 32 bits of the fractional parts of
    the cube roots of the first 64 primes, the initial hash value those of
    the square roots of the first 8 primes. *)
Definition is_prime (n : nat) : bool :=
  forallb (fun d => negb (Nat.eqb (Nat.modulo n d) 0)) (seq 2 (n - 2)).

Definition primes : list Z := map Z.of_nat (filter is_prime (seq 2 310)).

(** Integer cube root, one bit at a time. *)
Definition icbrt (n : Z) : Z :=
  fold_left (fun r b => let r' := r + 2 ^ b in if r' * r' * r' <=? n then r' else r)
    (map Z.of_nat (rev (seq 0 36))) 0.

Definition K : list Z :=
  Eval vm_compute in map (fun p => w32 (icbrt (p * 2 ^ 96))) primes.

Definition H0 : list Z :=
  Eval vm_compute in map (fun p => w32 (Z.sqrt (p * 2 ^ 64))) (firstn 8 primes).

(** Big-endian bytes of a word, and back. *)
Definition be_bytes (n : nat) (x : Z) : list Z :=
  map (fun i => Z.land (Z.shiftr x (8 * Z.of_nat (n - 1 - i)%nat)) 255) (seq 0 n).

Definition be_word (bs : list Z) : Z :=
  fold_left (fun acc b => Z.lor (Z.shiftl acc 8) b) bs 0.

(** Padding: a 1 bit, zeros up to 56 mod 64 bytes, the bit length on 64 bits. *)
Definition pad (msg : list Z) : list Z :=
  let len := Z.of_nat (List.length msg) in
  let zeros := Z.to_nat ((55 - len) mod 64) in
  msg ++ [128] ++ repeat 0 zeros ++ be_bytes 8 (8 * len).

Fixpoint chunks (fuel : nat) (k : nat) (l : list Z) : list (list Z) :=
  match fuel with
  | O => []
  | S fuel' =>
      match l with
      | [] => []
      | _ => firstn k l :: chunks fuel' k (skipn k l)
      end
  end.

(** The message schedule, kept newest word first. *)
Fixpoint extend (n : nat) (w : list Z) : list Z :=
  match n with
  | O => w
  | S n' =>
      let x :=
        add32 (add32 (sigma1 (nth 1 w 0)) (nth 6 w 0))
              (add32 (sigma0 (nth 14 w 0)) (nth 15 w 0)) in
      extend n' (x :: w)
  end.

Definition schedule (block : list Z) : list Z :=
  rev (extend 48 (rev (map be_word (chunks 16 4 block)))).

Definition round (s : list Z) (kw : Z * Z) : list Z :=
  match s with
  | [a; b; c; d; e; f; g; h] =>
      let t1 := add32 (add32 (add32 h (Sigma1 e)) (add32 (Ch e f g) (fst kw))) (snd kw) in
      let t2 := add32 (Sigma0 a) (Maj a b c) in
      [add32 t1 t2; a; b; c; add32 d t1; e; f; g]
  | _ => s
  end.

Definition compress (h : list Z) (block : list Z) : list Z :=
  let s := fold_left round (combine K (schedule block)) h in
  map (fun p => add32 (fst p) (snd p)) (combine h s).

Definition digest (msg : list Z) : list Z :=
  let p := pad msg in
  flat_map (be_bytes 4) (fold_left compress (chunks (List.length p) 64 p) H0).

(** HMAC with the 64-byte block of SHA-256. *)
Definition hmac (key msg : list Z) : list Z :=
  let k0 := if (64 <? Z.of_nat (List.length key)) then digest key else key in
  let k := k0 ++ repeat 0 (64 - List.length k0)%nat in
  let ipad := map (fun b => Z.lxor b 0x36) k in
  let opad := map (fun b => Z.lxor b 0x5c) k in
  digest (opad ++ digest (ipad ++ msg)).

End SHA256.

(* ===================================================================== *)
(** ** Bytes, strings and hexadecimal *)

Definition byte_to_Z (b : byte) : Z := Z.of_N (Byte.to_N b).

Definition bytes_of_string (s : string) : list byte := list_byte_of_string s.

Definition hex_digit (d : Z) : ascii :=
  ascii_of_N (Z.to_N (if d <? 10 then 48 + d else 87 + d)).

(** Two lower-case hexadecimal digits of a byte value. *)
Definition hex_byte (b : Z) : string :=
  String (hex_digit (Z.shiftr b 4)) (String (hex_digit (Z.land b 15)) "").

Definition hex_of_bytes (bs : list Z) : string :=
  fold_right (fun b acc => (hex_byte b ++ acc)%string) "" bs.

(** [crypto.createHmac('sha256', key).update(msg).digest('hex')]: the key
    is a string (taken as its UTF-8 bytes), the message a Buffer. *)
Definition createHmac_sha256_hex (key : string) (msg : list byte) : string :=
  hex_of_bytes (SHA256.hmac (map byte_to_Z (bytes_of_string key)) (map byte_to_Z msg)).

(* ===================================================================== *)
(** ** JavaScript values *)

Set Warnings "-register-all".

(** The values the client handles: JSON data, and Buffers. The properties
    of an object are listed in the order the object enumerates them. A
    number is an integer that a double holds exactly and that prints digit
    by digit (below 2^53 in absolute value), as the statuses, codes and
    byte values are that the program handles; fractions and larger numbers
    are not among the values. The body of the answer to a request made
    with [responseType: 'stream'] is a stream, which is no value of this
    type: [data] then holds what the stream carries, and the two places
    where the client looks at the stream itself (the [catch] block of
    [performRequest]) are written out for that response type. *)
Inductive value : Type :=
| VUndefined
| VNull
| VBool (b : bool)
| VNumber (n : Z)
| VString (s : string)
| VArray (elems : list value)
| VObject (props : list (string * value))
| VBuffer (bytes : list byte).

Record AxiosResponse : Type := {
  status : Z;
  data : value;
  headers : list (string * value)
}.

(** Errors that the modelled code can raise or receive. An [AxiosError]
    carries the HTTP response when the upstream answered with an error
    status, and none for a transport-level fault. *)
Inductive JSError : Type :=
| TypeError (msg : string)
| AxiosError (response : option AxiosResponse)
| OtherError (msg : string).

Inductive completion (A : Type) : Type :=
| Normal (a : A)
| Throw (e : JSError).

Arguments Normal {A} a.
Arguments Throw {A} e.

Definition bind {A B : Type} (c : completion A) (k : A -> completion B) : completion B :=
  match c with
  | Normal a => k a
  | Throw e => Throw e
  end.

Notation "x <- c ;; k" := (bind c (fun x => k))
  (at level 61, c at next level, right associativity).

(** Truthiness, as tested by [if], [&&] and [!]. *)
Definition truthy (v : value) : bool :=
  match v with
  | VUndefined | VNull => false
  | VBool b => b
  | VNumber n => negb (n =? 0)
  | VString s => negb (String.eqb s "")
  | VArray _ | VObject _ | VBuffer _ => true
  end.

Definition typeof (v : value) : string :=
  match v with
  | VUndefined => "undefined"
  | VBool _ => "boolean"
  | VNumber _ => "number"
  | VString _ => "string"
  | VNull | VArray _ | VObject _ | VBuffer _ => "object"
  end.

Fixpoint lookup {A : Type} (k : string) (ps : list (string * A)) : option A :=
  match ps with
  | [] => None
  | (k', v) :: rest => if String.eqb k k' then Some v else lookup k rest
  end.

(** Property read [v.k] or [v[k]] for the names the code reads
    ([verifications], [person], [data], [headers], [content-type]): a
    TypeError on [null] and [undefined], the own property of an object,
    [undefined] elsewhere. *)
Definition get_prop (v : value) (k : string) : completion value :=
  match v with
  | VUndefined => Throw (TypeError ("Cannot read properties of undefined (reading '" ++ k ++ "')"))
  | VNull => Throw (TypeError ("Cannot read properties of null (reading '" ++ k ++ "')"))
  | VObject ps => Normal (match lookup k ps with Some x => x | None => VUndefined end)
  | _ => Normal VUndefined
  end.

(** *** JSON.stringify *)

Definition string_of_Z (n : Z) : string := NilZero.string_of_int (Z.to_int n).

Definition dquote : string := String "034"%char "".

Definition backslash : string := String "092"%char "".

(** QuoteJSONString, one character at a time: the two-character escapes,
    [\u00xx] for the other control characters, everything else as it is. *)
Definition quote_char (c : ascii) : string :=
  let n := Z.of_N (N_of_ascii c) in
  if n =? 8 then backslash ++ "b"
  else if n =? 9 then backslash ++ "t"
  else if n =? 10 then backslash ++ "n"
  else if n =? 12 then backslash ++ "f"
  else if n =? 13 then backslash ++ "r"
  else if n =? 34 then backslash ++ dquote
  else if n =? 92 then backslash ++ backslash
  else if n <? 32 then backslash ++ "u00" ++ hex_byte n
  else String c "".

Fixpoint quote_chars (s : string) : string :=
  match s with
  | EmptyString => ""
  | String c s' => quote_char c ++ quote_chars s'
  end.

Definition quote (s : string) : string := dquote ++ quote_chars s ++ dquote.

Fixpoint join (sep : string) (l : list string) : string :=
  match l with
  | [] => ""
  | [x] => x
  | x :: rest => x ++ sep ++ join sep rest
  end.

(** [Buffer.prototype.toJSON]. *)
Definition Buffer_toJSON (bs : list byte) : value :=
  VObject [("type", VString "Buffer");
           ("data", VArray (map (fun b => VNumber (byte_to_Z b)) bs))].

(** [JSON.stringify(v)] without indentation; [None] is [undefined]. An
    [undefined] element of an array prints as [null], an [undefined]
    property of an object is left out; properties print in the order the
    object enumerates them; a Buffer prints through its [toJSON]; a number
    prints with all its digits, which is how JavaScript prints the
    integers that are values here (below 2^53 in absolute value). *)
Fixpoint JSON_stringify (v : value) : option string :=
  match v with
  | VUndefined => None
  | VNull => Some "null"
  | VBool true => Some "true"
  | VBool false => Some "false"
  | VNumber n => Some (string_of_Z n)
  | VString s => Some (quote s)
  | VArray l =>
      Some ("[" ++ join ","
              (map (fun e => match JSON_stringify e with
                             | Some s => s
                             | None => "null"
                             end) l) ++ "]")
  | VObject ps =>
      Some ("{" ++ join ","
              (flat_map (fun p => match JSON_stringify (snd p) with
                                  | Some s => [quote (fst p) ++ ":" ++ s]
                                  | None => []
                                  end) ps) ++ "}")
  | VBuffer bs =>
      Some ("{" ++ join ","
              [ quote "type" ++ ":" ++ quote "Buffer";
                quote "data" ++ ":"
                ++ ("[" ++ join "," (map (fun b => string_of_Z (byte_to_Z b)) bs) ++ "]") ]
              ++ "}")
  end%string.

(** The same as a JavaScript value. *)
Definition JSON_stringify_value (v : value) : value :=
  match JSON_stringify v with
  | Some s => VString s
  | None => VUndefined
  end.

(** *** Buffer *)

Definition isBuffer (v : value) : bool :=
  match v with
  | VBuffer _ => true
  | _ => false
  end.

Definition byte_of_Z (n : Z) : byte :=
  match Byte.of_N (Z.to_N (n mod 256)) with
  | Some b => b
  | None => x00
  end.

(** [Buffer.from(v, 'utf8')]: the UTF-8 bytes of a string, a copy of a
    Buffer, the low bytes of the numbers of an array; a TypeError on the
    other values. *)
Definition Buffer_from (v : value) : completion (list byte) :=
  match v with
  | VString s => Normal (bytes_of_string s)
  | VBuffer bs => Normal bs
  | VArray l => Normal (map (fun e => match e with
                                      | VNumber n => byte_of_Z n
                                      | _ => x00
                                      end) l)
  | _ => Throw (TypeError "The first argument must be of type string or an instance of Buffer, ArrayBuffer, or Array or an Array-like Object.")
  end.

(** *** encodeURIComponent *)

Definition upper_hex_digit (d : Z) : ascii :=
  ascii_of_N (Z.to_N (if d <? 10 then 48 + d else 55 + d)).

Definition uri_unreserved (n : Z) : bool :=
  ((65 <=? n) && (n <=? 90)) || ((97 <=? n) && (n <=? 122)) || ((48 <=? n) && (n <=? 57))
  || (n =? 45) || (n =? 95) || (n =? 46) || (n =? 33) || (n =? 126)
  || (n =? 42) || (n =? 39) || (n =? 40) || (n =? 41).

Fixpoint encodeURIComponent (s : string) : string :=
  match s with
  | EmptyString => ""
  | String c s' =>
      let n := Z.of_N (N_of_ascii c) in
      (if uri_unreserved n then String c ""
       else String "%"%char (String (upper_hex_digit (Z.shiftr n 4))
                              (String (upper_hex_digit (Z.land n 15)) "")))
      ++ encodeURIComponent s'
  end%string.

(* ===================================================================== *)
(** ** The client: [services/VeriffAPI.ts] *)

(** [types/index.ts]: a credential pair. *)
Record KeyPair : Type := {
  apiKey : string;
  sharedSecretKey : string
}.

(** The part of an axios instance the client sets: [axios.create({ baseURL,
    headers })]. Its request interceptor is [interceptor] below; it reads
    the credential pool when the request is made, not when the instance is
    created. *)
Record AxiosInstance : Type := {
  baseURL : string;
  default_headers : list (string * string)
}.

(** A request as it leaves the client. *)
Record AxiosRequest : Type := {
  req_baseURL : string;
  req_url : string;
  req_responseType : string;
  req_method : string;
  req_headers : list (string * string)
}.

(** The object state of [class VeriffAPI]. [veriffAPI] is [None] until
    [init] has assigned it. *)
Record VeriffAPI : Type := {
  apiKeyPairs : list KeyPair;
  baseUrl : string;
  currentIndex : Z;
  veriffAPI : option AxiosInstance
}.

Definition set_currentIndex (this : VeriffAPI) (i : Z) : VeriffAPI :=
  {| apiKeyPairs := apiKeyPairs this; baseUrl := baseUrl this;
     currentIndex := i; veriffAPI := veriffAPI this |}.

Definition set_veriffAPI (this : VeriffAPI) (inst : AxiosInstance) : VeriffAPI :=
  {| apiKeyPairs := apiKeyPairs this; baseUrl := baseUrl this;
     currentIndex := currentIndex this; veriffAPI := Some inst |}.

(** What the outside can observe of a run: each request sent, with the
    pool index that was active when it was signed, and each rotation. *)
Inductive Event : Type :=
| Requested (index : Z) (req : AxiosRequest)
| Rotated (index : Z).

Record World : Type := {
  api : VeriffAPI;
  log : list Event
}.

Definition set_api (w : World) (a : VeriffAPI) : World :=
  {| api := a; log := log w |}.

Definition emit (w : World) (e : Event) : World :=
  {| api := api w; log := log w ++ [e] |}.

(** How [await this.veriffAPI.request(...)] ends. *)
Inductive outcome : Type :=
| Resolved (response : AxiosResponse)
| Rejected (error : JSError).

(** The upstream service: the answer to a request, which may depend on the
    moment it is sent (the number of events logged before it). *)
Definition Upstream : Type := nat -> AxiosRequest -> outcome.

(** [this.apiKeyPairs[this.currentIndex]]; [None] is [undefined]. *)
Definition getCurrentKeyPair (this : VeriffAPI) : option KeyPair :=
  if currentIndex this <? 0 then None
  else nth_error (apiKeyPairs this) (Z.to_nat (currentIndex this)).

(** [init]: destructures the current pair (a TypeError when there is none)
    and replaces the axios instance. The assignment made before a throw
    stays: the state is returned in both cases. *)
Definition init (this : VeriffAPI) : completion unit * VeriffAPI :=
  match getCurrentKeyPair this with
  | None =>
      (Throw (TypeError "Cannot destructure property 'apiKey' of 'this.getCurrentKeyPair(...)' as it is undefined."),
       this)
  | Some kp =>
      (Normal tt,
       set_veriffAPI this
         {| baseURL := baseUrl this;
            default_headers := [("Content-Type", "application/json");
                                ("X-AUTH-CLIENT", apiKey kp)] |})
  end.

Definition constructor (apiKeyPairs : list KeyPair) (baseUrl : string)
  : completion unit * VeriffAPI :=
  init {| apiKeyPairs := apiKeyPairs; baseUrl := baseUrl;
          currentIndex := 0; veriffAPI := None |}.

(** [switchToNextKeyPair]. The remainder is that of JavaScript's [%]
    (truncated, [Z.rem]); with an empty pool JavaScript yields NaN and the
    model [currentIndex + 1], and both then find no pair in [init]. *)
Definition switchToNextKeyPair (this : VeriffAPI) : completion unit * VeriffAPI :=
  init (set_currentIndex this
          (Z.rem (currentIndex this + 1) (Z.of_nat (List.length (apiKeyPairs this))))).

(** *** Request signing *)

Fixpoint strip_prefix (p s : string) : option string :=
  match p, s with
  | EmptyString, _ => Some s
  | String a p', String b s' => if Ascii.eqb a b then strip_prefix p' s' else None
  | String _ _, EmptyString => None
  end.

(** The longest prefix without a slash: the capture [([^/]+)]. *)
Fixpoint segment (s : string) : string :=
  match s with
  | EmptyString => ""
  | String c s' => if Ascii.eqb c "/"%char then "" else String c (segment s')
  end.

Definition resource_prefixes : list string :=
  ["sessions"; "attempts"; "media"; "address"; "address-media"; "transportation-registry"].

(** The regular expression tried at the start of [s]: the alternatives in
    their order, each followed by a slash and a non-empty segment. *)
Fixpoint match_here (alts : list string) (s : string) : option string :=
  match alts with
  | [] => None
  | alt :: rest =>
      match strip_prefix ("/" ++ alt ++ "/")%string s with
      | Some tail =>
          if String.eqb (segment tail) "" then match_here rest s
          else Some (segment tail)
      | None => match_here rest s
      end
  end.

(** [url.match(regex)]: the leftmost match. *)
Fixpoint regex_match (s : string) : option string :=
  match match_here resource_prefixes s with
  | Some id => Some id
  | None =>
      match s with
      | EmptyString => None
      | String _ s' => regex_match s'
      end
  end.

Definition extractIdFromUrl (url : string) : string :=
  match regex_match url with
  | Some id => id
  | None => ""
  end.

Definition generateSignature (this : VeriffAPI) (id : string) : completion string :=
  match getCurrentKeyPair this with
  | None => Throw (TypeError "Cannot destructure property 'sharedSecretKey' of 'this.getCurrentKeyPair(...)' as it is undefined.")
  | Some kp => Normal (createHmac_sha256_hex (sharedSecretKey kp) (bytes_of_string id))
  end.

(** The request interceptor installed by [init]. *)
Definition interceptor (this : VeriffAPI) (config : AxiosRequest) : completion AxiosRequest :=
  let url := if truthy (VString (req_url config)) then req_url config else "" in
  let id := extractIdFromUrl url in
  signature <- generateSignature this id ;;
  Normal {| req_baseURL := req_baseURL config; req_url := req_url config;
            req_responseType := req_responseType config; req_method := req_method config;
            req_headers := req_headers config ++ [("X-HMAC-SIGNATURE", signature)] |}.

(** [this.veriffAPI.request({ url, responseType, method })] up to the
    moment the request leaves: the instance defaults, then the interceptor.
    A throw here rejects the promise that [performRequest] awaits. *)
Definition prepare_request (this : VeriffAPI) (url responseType method : string)
  : completion AxiosRequest :=
  match veriffAPI this with
  | None => Throw (TypeError "Cannot read properties of undefined (reading 'request')")
  | Some inst =>
      interceptor this
        {| req_baseURL := baseURL inst; req_url := url;
           req_responseType := responseType; req_method := method;
           req_headers := default_headers inst |}
  end.

(** *** performRequest *)

(** An HTTP error response: an axios error that carries a response with a
    status and a body. *)
Definition isHttpErrorResponse (error : JSError) : bool :=
  match error with
  | AxiosError (Some response) =>
      truthy (VNumber (status response)) && truthy (data response)
  | _ => false
  end.

(** The condition of the [catch] block:
    [isAxiosError(error) && error.response && error.response.status &&
    error.response.data]. With [responseType: 'stream'] axios hands the
    body of an answer over as a stream, that of an error response too: an
    object, which is truthy whatever it carries. *)
Definition caught_http_error (responseType : string) (error : JSError) : bool :=
  match error with
  | AxiosError (Some response) =>
      truthy (VNumber (status response))
      && (String.eqb responseType "stream" || truthy (data response))
  | _ => false
  end.

(** [JSON.stringify(error.response.data)], in the message that is logged
    after the rotation. A stream refers to itself (through its socket), so
    [JSON.stringify] throws a TypeError on it; any other body is data that
    was parsed from the answer and prints. *)
Definition stringify_error_body (responseType : string) (error : JSError)
  : completion value :=
  if String.eqb responseType "stream"
  then Throw (TypeError "Converting circular structure to JSON")
  else
    match error with
    | AxiosError (Some response) => Normal (JSON_stringify_value (data response))
    | _ => Normal VUndefined
    end.

(** The response object as a JavaScript value, with the properties the
    callers read. *)
Definition value_of_response (r : AxiosResponse) : value :=
  VObject [("data", data r); ("status", VNumber (status r)); ("headers", VObject (headers r))].

(** What a call of [performRequest] waits for at its [await]: a request in
    flight (with the moment it was sent), or a promise that was rejected
    before anything was sent. *)
Inductive Awaited : Type :=
| InFlight (sent_at : nat) (req : AxiosRequest)
| FailedLocally (e : JSError).

(** A call of [performRequest] suspended at its [await]. *)
Record Call : Type := {
  call_url : string;
  call_responseType : string;
  call_method : string;
  attemptsLeft : Z;
  awaited : Awaited
}.

Inductive Progress : Type :=
| Awaiting (c : Call)
| Returned (r : completion value).

(** From the loop test to the [await]: [while (attemptsLeft > 0)], then the
    request is made. Falling out of the loop returns [undefined]. *)
Definition loop_head (url responseType method : string) (attemptsLeft : Z) (w : World)
  : Progress * World :=
  if attemptsLeft >? 0 then
    match prepare_request (api w) url responseType method with
    | Normal req =>
        (Awaiting {| call_url := url; call_responseType := responseType;
                     call_method := method; attemptsLeft := attemptsLeft;
                     awaited := InFlight (List.length (log w)) req |},
         emit w (Requested (currentIndex (api w)) req))
    | Throw e =>
        (Awaiting {| call_url := url; call_responseType := responseType;
                     call_method := method; attemptsLeft := attemptsLeft;
                     awaited := FailedLocally e |},
         w)
    end
  else (Returned (Normal VUndefined), w).

(** From the [await] to the next one or to the return: the rest of the
    [try] block on a response, the [catch] block on an error. In the
    [catch] block the message of the first [console.error] is built after
    the rotation and the decrement, and before the test of [attemptsLeft]:
    what it throws ends the call there, the pool rotated. *)
Definition resume (c : Call) (o : outcome) (w : World) : Progress * World :=
  match o with
  | Resolved response =>
      if String.eqb (call_responseType c) "stream"
      then (Returned (Normal (value_of_response response)), w)
      else (Returned (Normal (data response)), w)
  | Rejected error =>
      if caught_http_error (call_responseType c) error then
        match switchToNextKeyPair (api w) with
        | (Throw e, a) => (Returned (Throw e), set_api w a)
        | (Normal _, a) =>
            let w1 := emit (set_api w a) (Rotated (currentIndex a)) in
            let attemptsLeft := attemptsLeft c - 1 in
            match stringify_error_body (call_responseType c) error with
            | Throw e => (Returned (Throw e), w1)
            | Normal _ =>
                if attemptsLeft =? 0 then (Returned (Normal VNull), w1)
                else loop_head (call_url c) (call_responseType c) (call_method c)
                       attemptsLeft w1
            end
        end
      else
        loop_head (call_url c) (call_responseType c) (call_method c) (attemptsLeft c) w
  end.

(** The answer to what a call awaits. *)
Definition answer (up : Upstream) (c : Call) : outcome :=
  match awaited c with
  | InFlight n req => up n req
  | FailedLocally e => Rejected e
  end.

(** One call running alone, no other call of the client in flight: each
    unit of fuel lets it receive one answer. [None]: still awaiting when
    the fuel is spent. *)
Fixpoint run_alone (fuel : nat) (up : Upstream) (p : Progress) (w : World)
  : option (completion value * World) :=
  match p with
  | Returned r => Some (r, w)
  | Awaiting c =>
      match fuel with
      | O => None
      | S fuel' =>
          let (p', w') := resume c (answer up c) w in
          run_alone fuel' up p' w'
      end
  end.

Definition performRequest (fuel : nat) (up : Upstream)
  (url responseType method : string) (w : World) : option (completion value * World) :=
  let attemptsLeft := Z.of_nat (List.length (apiKeyPairs (api w))) in
  let (p, w') := loop_head url responseType method attemptsLeft w in
  run_alone fuel up p w'.

(** *** The public operations

    Each one builds its URL, awaits [performRequest] and then computes its
    result from the answer; [op_after] is the code after the [await]. *)
Record Operation : Type := {
  op_url : string;
  op_responseType : string;
  op_after : value -> completion value
}.

Definition getAttemptsForSession (sessionId : string) : Operation :=
  {| op_url := "/sessions/" ++ sessionId ++ "/attempts";
     op_responseType := "json";
     op_after := fun response => get_prop response "verifications" |}%string.

Definition getSessionDecision (sessionId : string) : Operation :=
  {| op_url := "/sessions/" ++ sessionId ++ "/decision";
     op_responseType := "json";
     op_after := fun response => Normal response |}%string.

Definition getPersonForSession (sessionId : string) : Operation :=
  {| op_url := "/sessions/" ++ sessionId ++ "/person";
     op_responseType := "json";
     op_after := fun response => get_prop response "person" |}%string.

Definition getMediaForSession (sessionId : string) : Operation :=
  {| op_url := "/sessions/" ++ sessionId ++ "/media";
     op_responseType := "json";
     op_after := fun response => Normal response |}%string.

Definition getWatchlistScreeningForSession (sessionId : string) : Operation :=
  {| op_url := "/sessions/" ++ sessionId ++ "/watchlist-screening";
     op_responseType := "json";
     op_after := fun response => Normal response |}%string.

Definition getMediaForAttempt (attemptId : string) : Operation :=
  {| op_url := "/attempts/" ++ attemptId ++ "/media";
     op_responseType := "json";
     op_after := fun response => Normal response |}%string.

(** The code after the [await] of the two media downloads. *)
Definition media_with_contentType (response : value) : completion value :=
  if truthy response then
    media <- get_prop response "data" ;;
    hs <- get_prop response "headers" ;;
    contentType <- get_prop hs "content-type" ;;
    Normal (VObject [("media", media); ("contentType", contentType)])
  else Normal VUndefined.

Definition getMediaById (mediaId : string) : Operation :=
  {| op_url := "/media/" ++ mediaId;
     op_responseType := "stream";
     op_after := media_with_contentType |}%string.

Definition getINEDataForSession (sessionId version : string) : Operation :=
  let encodedVersion := encodeURIComponent version in
  {| op_url := "/sessions/" ++ sessionId ++ "/decision/ine-registry?version=" ++ encodedVersion;
     op_responseType := "json";
     op_after := fun response => Normal response |}%string.

Definition getCurpRegistryData (sessionId version : string) : Operation :=
  let encodedVersion := encodeURIComponent version in
  {| op_url := "/sessions/" ++ sessionId ++ "/decision/curp-registry?version=" ++ encodedVersion;
     op_responseType := "json";
     op_after := fun response => Normal response |}%string.

Definition getAddressMedia (addressId : string) : Operation :=
  {| op_url := "/address/" ++ addressId ++ "/media";
     op_responseType := "json";
     op_after := fun response => Normal response |}%string.

Definition getAddressMediaById (mediaId : string) : Operation :=
  {| op_url := "/address-media/" ++ mediaId;
     op_responseType := "stream";
     op_after := media_with_contentType |}%string.

(** An operation called on its own and run to its end. *)
Definition call (fuel : nat) (up : Upstream) (op : Operation) (w : World)
  : option (completion value * World) :=
  match performRequest fuel up (op_url op) (op_responseType op) "get" w with
  | None => None
  | Some (r, w') => Some (response <- r ;; op_after op response, w')
  end.

(** *** isSignatureValid *)

(** The [for ... of] loop over the pool, with its early [return true]. *)
Fixpoint any_digest_matches (pairs : list KeyPair) (payload : list byte) (signature : string)
  : bool :=
  match pairs with
  | [] => false
  | apiKeyPair :: rest =>
      let digest := createHmac_sha256_hex (sharedSecretKey apiKeyPair) payload in
      if String.eqb digest signature then true
      else any_digest_matches rest payload signature
  end.

(** The object test comes first and [typeof] of a Buffer is ["object"], so
    a Buffer is stringified like any other object; the second test,
    [if (!Buffer.isBuffer(payload)) payload = Buffer.from(payload, 'utf8')],
    then always sees a string or a primitive. *)
Definition isSignatureValid (this : VeriffAPI) (signature : string) (payload : value)
  : completion bool :=
  let payload :=
    if String.eqb (typeof payload) "object" then JSON_stringify_value payload else payload in
  payload <- (match payload with
              | VBuffer bs => Normal bs
              | _ => Buffer_from payload
              end) ;;
  Normal (any_digest_matches (apiKeyPairs this) payload signature).

(* ===================================================================== *)
(** ** The aggregator: [utils/veriff-utils.ts] *)

Inductive PromiseSettledResult : Type :=
| Fulfilled (v : value)
| RejectedWith (reason : JSError).

Definition extractValue (result : PromiseSettledResult) : value :=
  match result with
  | Fulfilled v => v
  | RejectedWith _ => VNull
  end.

Record SessionData : Type := {
  sessionDecision : value;
  personInfo : value;
  mediaList : value;
  watchlistScreening : value;
  ineData : value;
  curpData : value;
  attempts : value
}.

(** A call of a public operation in flight: where its [performRequest] is,
    and the code that follows it. *)
Record Task : Type := {
  progress : Progress;
  after : value -> completion value
}.

(** Calling an operation runs it up to its first [await]. *)
Definition start (op : Operation) (w : World) : Task * World :=
  let attemptsLeft := Z.of_nat (List.length (apiKeyPairs (api w))) in
  let (p, w') := loop_head (op_url op) (op_responseType op) "get" attemptsLeft w in
  ({| progress := p; after := op_after op |}, w').

Fixpoint start_all (ops : list Operation) (w : World) : list Task * World :=
  match ops with
  | [] => ([], w)
  | op :: rest =>
      let (t, w1) := start op w in
      let (ts, w2) := start_all rest w1 in
      (t :: ts, w2)
  end.

Fixpoint replace_nth {A : Type} (i : nat) (x : A) (l : list A) : list A :=
  match l, i with
  | [], _ => []
  | _ :: rest, O => x :: rest
  | y :: rest, S i' => y :: replace_nth i' x rest
  end.

(** The answer for task [i] arrives: the task runs to its next [await] or
    to its end, and nothing else runs in between (one thread, scheduled
    cooperatively). All tasks share the client, so a rotation made here is
    seen by the others. *)
Definition deliver (up : Upstream) (i : nat) (ts : list Task) (w : World)
  : list Task * World :=
  match nth_error ts i with
  | Some t =>
      match progress t with
      | Awaiting c =>
          let (p', w') := resume c (answer up c) w in
          (replace_nth i {| progress := p'; after := after t |} ts, w')
      | Returned _ => (ts, w)
      end
  | None => (ts, w)
  end.

(** The event loop: the answers arrive in the order of the schedule. *)
Fixpoint run_schedule (up : Upstream) (sched : list nat) (ts : list Task) (w : World)
  : list Task * World :=
  match sched with
  | [] => (ts, w)
  | i :: rest =>
      let (ts', w') := deliver up i ts w in
      run_schedule up rest ts' w'
  end.

(** The promise of a task once its operation has returned or thrown. *)
Definition settle (t : Task) : option PromiseSettledResult :=
  match progress t with
  | Awaiting _ => None
  | Returned r =>
      Some (match (response <- r ;; after t response) with
            | Normal v => Fulfilled v
            | Throw e => RejectedWith e
            end)
  end.

(** [Promise.allSettled]: the results in the order of the promises, once
    every one of them has settled. *)
Fixpoint Promise_allSettled (ts : list Task) : option (list PromiseSettledResult) :=
  match ts with
  | [] => Some []
  | t :: rest =>
      match settle t, Promise_allSettled rest with
      | Some r, Some rs => Some (r :: rs)
      | _, _ => None
      end
  end.

(** The seven calls, in the order they are made. *)
Definition session_calls (sessionId version : string) : list Operation :=
  [ getSessionDecision sessionId;
    getPersonForSession sessionId;
    getMediaForSession sessionId;
    getWatchlistScreeningForSession sessionId;
    getINEDataForSession sessionId version;
    getCurpRegistryData sessionId version;
    getAttemptsForSession sessionId ].

(** The code after [await Promise.allSettled(...)]: [data.map(extractValue)]
    destructured into seven names (a missing element would be
    [undefined]). *)
Definition collect (data : list PromiseSettledResult) : completion SessionData :=
  let values := map extractValue data in
  let at_ (i : nat) := nth i values VUndefined in
  Normal {| sessionDecision := at_ 0%nat;
            personInfo := at_ 1%nat;
            mediaList := at_ 2%nat;
            watchlistScreening := at_ 3%nat;
            ineData := at_ 4%nat;
            curpData := at_ 5%nat;
            attempts := at_ 6%nat |}.

(** [getRelavantSessionData]: the seven calls are started one after the
    other, the answers arrive as [sched] says, and the record is built when
    all have settled. [None]: some call is still awaiting at the end of the
    schedule. *)
Definition getRelavantSessionData (sched : list nat) (up : Upstream)
  (w : World) (sessionId version : string) : option (completion SessionData * World) :=
  let (ts, w1) := start_all (session_calls sessionId version) w in
  let (ts', w2) := run_schedule up sched ts w1 in
  match Promise_allSettled ts' with
  | Some data => Some (collect data, w2)
  | None => None
  end.

(* ===================================================================== *)

(** ** Vocabulary of the properties

    Well-formed and reachable client states, what is observed of a run,
    the assumptions on the upstream, and the scenarios the properties are
    tried on. *)

(** *** The credential pool *)

(** The cursor denotes a pair of the pool. *)
Definition in_range (this : VeriffAPI) : Prop :=
  0 <= currentIndex this < Z.of_nat (List.length (apiKeyPairs this)).

(** The axios instance [init] builds for a pair. *)
Definition instance_for (this : VeriffAPI) (kp : KeyPair) : AxiosInstance :=
  {| baseURL := baseUrl this;
     default_headers := [("Content-Type", "application/json"); ("X-AUTH-CLIENT", apiKey kp)] |}.

(** A client as [init] leaves it: the cursor in range and the instance
    built for the pair under the cursor. *)
Definition wf (this : VeriffAPI) : Prop :=
  in_range this /\
  exists kp, getCurrentKeyPair this = Some kp /\ veriffAPI this = Some (instance_for this kp).

(** [n] rotations in a row. *)
Definition rotate (n : nat) (this : VeriffAPI) : VeriffAPI :=
  Nat.iter n (fun a => snd (switchToNextKeyPair a)) this.

(** The states a client goes through: built by the constructor, then any
    sequence of rotations and of steps of calls to [performRequest] (with
    whatever the upstream answers), alone or interleaved. *)
Inductive reachable : World -> Prop :=
| reach_new : forall pairs url a,
    constructor pairs url = (Normal tt, a) ->
    reachable {| api := a; log := [] |}
| reach_rotate : forall w r a,
    reachable w ->
    switchToNextKeyPair (api w) = (r, a) ->
    reachable (set_api w a)
| reach_request : forall w url responseType method n p w',
    reachable w ->
    loop_head url responseType method n w = (p, w') ->
    reachable w'
| reach_answer : forall w c o p w',
    reachable w ->
    resume c o w = (p, w') ->
    reachable w'.

(** *** Observations on a run *)

(** The pool indices of the requests in a log, and its number of
    rotations. *)
Fixpoint attempted (l : list Event) : list Z :=
  match l with
  | [] => []
  | Requested i _ :: rest => i :: attempted rest
  | Rotated _ :: rest => attempted rest
  end.

Fixpoint rotations (l : list Event) : nat :=
  match l with
  | [] => O
  | Requested _ _ :: rest => rotations rest
  | Rotated _ :: rest => S (rotations rest)
  end.

(** The log of a run of failed attempts: the [k]-th request (counting from
    [k0]) goes out under index [(i + k) mod N] and is followed by the
    rotation to [(i + k + 1) mod N]. *)
Fixpoint attempt_events (i N : Z) (k0 : nat) (reqs : list AxiosRequest) : list Event :=
  match reqs with
  | [] => []
  | req :: rest =>
      Requested ((i + Z.of_nat k0) mod N) req
      :: Rotated ((i + Z.of_nat (S k0)) mod N)
      :: attempt_events i N (S k0) rest
  end.

Definition requests_for (url : string) (l : list Event) : list Z :=
  attempted (filter (fun e => match e with
                              | Requested _ req => String.eqb (req_url req) url
                              | Rotated _ => false
                              end) l).

(** A task that has not returned is waiting for a request that was sent,
    with attempts left. *)
Definition in_flight (t : Task) : Prop :=
  match progress t with
  | Returned _ => True
  | Awaiting c => 1 <= attemptsLeft c /\ exists n req, awaited c = InFlight n req
  end.

(** The answers a task can still need. *)
Definition remaining (t : Task) : nat :=
  match progress t with
  | Returned _ => O
  | Awaiting c => Z.to_nat (attemptsLeft c)
  end.

(** A task whose call is waiting for the answer to a request for [url]. *)
Definition waits_for (url : string) (t : Task) : Prop :=
  exists c n req,
    progress t = Awaiting c /\ call_url c = url /\ 1 <= attemptsLeft c /\
    awaited c = InFlight n req /\ req_url req = url.

(** The seven tasks when the schedule is over. *)
Definition tasks_after (sched : list nat) (up : Upstream) (w : World)
  (sessionId version : string) : list Task :=
  let (ts, w1) := start_all (session_calls sessionId version) w in
  fst (run_schedule up sched ts w1).

(** *** Assumptions on the upstream *)

(** The upstream answers every request with an HTTP error response (a
    status and a body). *)
Definition answers_http_error (up : Upstream) : Prop :=
  forall n req, exists e, up n req = Rejected e /\ isHttpErrorResponse e = true.

(** The upstream never answers: every request ends in a failure that no
    call takes for an HTTP error response. *)
Definition answers_no_response (up : Upstream) : Prop :=
  forall n req,
    exists e, up n req = Rejected e /\
              forall responseType, caught_http_error responseType e = false.

(** Every request gets an HTTP answer: a response, or an HTTP error
    response. *)
Definition answers_every_request (up : Upstream) : Prop :=
  forall n req,
    match up n req with
    | Resolved _ => True
    | Rejected e => isHttpErrorResponse e = true
    end.

(** *** The verification as the specification words it *)

(** The bytes the digest is taken over, as the specification describes
    them: the UTF-8 bytes of the compact stringification of a structured
    payload, the UTF-8 bytes of a string, the bytes themselves of raw
    bytes. *)
Definition canonical_bytes (payload : value) : option (list byte) :=
  match payload with
  | VBuffer bs => Some bs
  | VString s => Some (bytes_of_string s)
  | VNull | VArray _ | VObject _ =>
      match JSON_stringify payload with
      | Some s => Some (bytes_of_string s)
      | None => None
      end
  | VUndefined | VBool _ | VNumber _ => None
  end.

(** The verification as the specification describes it. *)
Definition signature_matches_some_pair (pairs : list KeyPair) (signature : string)
  (payload : value) : Prop :=
  exists kp bs,
    In kp pairs /\ canonical_bytes payload = Some bs /\
    createHmac_sha256_hex (sharedSecretKey kp) bs = signature.

(** *** Scenarios *)

Definition kp1 : KeyPair := {| apiKey := "k1"; sharedSecretKey := "s1" |}.
Definition kp2 : KeyPair := {| apiKey := "k2"; sharedSecretKey := "s2" |}.
Definition kp3 : KeyPair := {| apiKey := "k3"; sharedSecretKey := "s3" |}.

(** A client as the process builds it at start-up, and the world around it. *)
Definition client (pairs : list KeyPair) : VeriffAPI :=
  snd (constructor pairs "https://stationapi.veriff.com/v1").

Definition world (pairs : list KeyPair) : World :=
  {| api := client pairs; log := [] |}.

(** An upstream that refuses every credential. *)
Definition error_body : value := VObject [("status", VString "fail")].

Definition http_error (code : Z) : outcome :=
  Rejected (AxiosError (Some {| status := code; data := error_body; headers := [] |})).

Definition always_http_error (code : Z) : Upstream := fun _ _ => http_error code.

(** The upstream of the scenario: it accepts the key [k2] only. *)
Definition decision : value :=
  VObject [("status", VString "success");
           ("verification", VObject [("id", VString "abc"); ("code", VNumber 9001)])].


(** A transport-level fault: an axios error without a response. *)
Definition transport_fault : outcome := Rejected (AxiosError None).

Definition never_responds : Upstream := fun _ _ => transport_fault.

(** One transport-level fault, then the upstream answers. *)
Definition fault_then_decision : Upstream :=
  fun n _ =>
    match n with
    | O => transport_fault
    | S _ => Resolved {| status := 200; data := decision; headers := [] |}
    end.

(** The webhook of the scenario. *)
Definition address_event : value := VObject [("id", VString "addr-123")].

Definition address_event_json : string :=
  match JSON_stringify address_event with
  | Some s => s
  | None => ""
  end.

(** The person call is refused with an HTTP error response under every
    credential; the six others are answered. *)
Definition person_unavailable : Upstream :=
  fun _ req =>
    if String.eqb (req_url req) "/sessions/abc/person" then http_error 500
    else Resolved {| status := 200;
                     data := VObject [("resource", VString (req_url req));
                                      ("verifications", VArray [VObject [("id", VString "att-1")]])];
                     headers := [] |}.

(** The person call meets a transport-level fault each time it is tried;
    the six others are answered. *)
Definition person_unreachable : Upstream :=
  fun _ req =>
    if String.eqb (req_url req) "/sessions/abc/person" then transport_fault
    else Resolved {| status := 200;
                     data := VObject [("resource", VString (req_url req));
                                      ("verifications", VArray [VObject [("id", VString "att-1")]])];
                     headers := [] |}.

(** Whether a completion is a throw of a TypeError. *)
Definition throws_TypeError {A : Type} (r : completion A) : bool :=
  match r with
  | Throw (TypeError _) => true
  | _ => false
  end.

Definition round_robin : list nat := [0; 1; 2; 3; 4; 5; 6; 0; 1; 2; 3; 4; 5; 6]%nat.

(* ===================================================================== *)

(** ** Further vocabulary

    What the further properties of the client, of the aggregator and of
    their callers are stated with. *)

(** The request [prepare_request] builds on a client whose instance was
    made for the pair [kp]. *)
Definition signed_request (this : VeriffAPI) (kp : KeyPair) (url responseType method : string)
  : AxiosRequest :=
  {| req_baseURL := baseUrl this;
     req_url := url;
     req_responseType := responseType;
     req_method := method;
     req_headers :=
       [("Content-Type", "application/json");
        ("X-AUTH-CLIENT", apiKey kp);
        ("X-HMAC-SIGNATURE",
         createHmac_sha256_hex (sharedSecretKey kp) (bytes_of_string (extractIdFromUrl url)))] |}.

(** An identifier that can stand in a path: not empty and without a
    slash. *)
Definition path_segment (id : string) : Prop :=
  id <> "" /\ ~ In "/"%char (list_ascii_of_string id).

(** The eleven public operations on one identifier. *)
Definition all_operations (id version : string) : list Operation :=
  [ getAttemptsForSession id; getSessionDecision id; getPersonForSession id;
    getMediaForSession id; getWatchlistScreeningForSession id; getMediaForAttempt id;
    getMediaById id; getINEDataForSession id version; getCurpRegistryData id version;
    getAddressMedia id; getAddressMediaById id ].

(** The operations that can be rejected: the two that read a property of
    the answer without testing it, and the two that expect a stream. *)
Definition fallible_operations (id : string) : list Operation :=
  [ getAttemptsForSession id; getPersonForSession id; getMediaById id;
    getAddressMediaById id ].

(** What [performRequest] can return for a response type: the body of a
    response (the whole response for a stream), [null] or [undefined]. *)
Definition performRequest_value (responseType : string) (v : value) : Prop :=
  v = VNull \/ v = VUndefined \/
  exists response,
    v = if String.eqb responseType "stream" then value_of_response response
        else data response.

(** What a step of a call can produce on a well-formed client: only
    values [performRequest] can return, and no throw but a TypeError in a
    call that expects a stream. *)
Definition sound_progress (responseType : string) (p : Progress) : Prop :=
  match p with
  | Awaiting c => call_responseType c = responseType
  | Returned (Normal v) => performRequest_value responseType v
  | Returned (Throw e) => responseType = "stream" /\ exists msg, e = TypeError msg
  end.

(** The text whose UTF-8 bytes [isSignatureValid] digests: the string
    itself, the compact JSON text of anything whose [typeof] is
    ["object"] (a Buffer included); none for the other values, on which
    [Buffer.from] throws. *)
Definition digested_text (payload : value) : option string :=
  match payload with
  | VString s => Some s
  | VNull | VArray _ | VObject _ | VBuffer _ => JSON_stringify payload
  | VUndefined | VBool _ | VNumber _ => None
  end.

(** The characters of a lower-case hexadecimal numeral. *)
Definition lower_hex_digit (c : ascii) : bool :=
  let n := Z.of_N (N_of_ascii c) in
  ((48 <=? n) && (n <=? 57)) || ((97 <=? n) && (n <=? 102)).

Fixpoint all_chars (f : ascii -> bool) (s : string) : bool :=
  match s with
  | EmptyString => true
  | String c s' => f c && all_chars f s'
  end.

(** The answers the tasks of a batch can still need, and the tasks that
    have not returned. *)
Definition total_remaining (ts : list Task) : nat :=
  fold_right (fun t n => (remaining t + n)%nat) O ts.

Definition pending (ts : list Task) : nat :=
  fold_right (fun t n => (match progress t with Awaiting _ => 1 | Returned _ => 0 end + n)%nat)
    O ts.

(** The record of an aggregation in which nothing was obtained. *)
Definition no_data : SessionData :=
  {| sessionDecision := VNull; personInfo := VNull; mediaList := VNull;
     watchlistScreening := VNull; ineData := VNull; curpData := VNull; attempts := VNull |}.

(** A task of a batch of calls that expect data, in which every request is
    refused: in flight with attempts left, or returned with [null]; and
    what its operation makes of [null] shows as [null] in the record. *)
Definition refused_task (t : Task) : Prop :=
  in_flight t /\
  (forall c, progress t = Awaiting c -> String.eqb (call_responseType c) "stream" = false) /\
  (forall r, progress t = Returned r -> r = Normal VNull) /\
  (after t VNull = Normal VNull \/ exists e, after t VNull = Throw e).

(* ===================================================================== *)

(** ** The SharePoint client: [utils/sharepoint-utils.ts]

    The functions of the upload side up to the transport. SharePoint and
    the token service are an oracle from a request (and the moment it is
    sent) to the outcome of the axios call; the state that is threaded is
    the list of the requests sent so far. *)

(** ToString, as a template literal applies it: the elements of an array
    joined by commas ([null] and [undefined] as nothing), ["[object
    Object]"] for an object, the text of a Buffer (taken to hold UTF-8). *)
Fixpoint ToString (v : value) : string :=
  match v with
  | VUndefined => "undefined"
  | VNull => "null"
  | VBool true => "true"
  | VBool false => "false"
  | VNumber n => string_of_Z n
  | VString s => s
  | VArray l =>
      join "," (map (fun e => match e with
                              | VUndefined | VNull => ""
                              | _ => ToString e
                              end) l)
  | VObject _ => "[object Object]"
  | VBuffer bs => string_of_list_byte bs
  end.

(** [process.env]: the six variables the module reads; [None] is a
    variable that is not set, which a template literal prints as
    ["undefined"]. *)
Record Env : Type := {
  TENANT_ID : option string;
  CLIENT_ID : option string;
  CLIENT_SECRET : option string;
  RESOURCE : option string;
  SITE_DOMAIN : option string;
  SUBSITE : option string
}.

Definition interpolate (v : option string) : string :=
  match v with
  | Some s => s
  | None => "undefined"
  end.

(** [querystring.stringify] on an object whose values are strings or
    [undefined]: [key=value] pairs joined by [&], both sides escaped (the
    characters left alone are those [encodeURIComponent] leaves alone), an
    [undefined] value printed as nothing. *)
Definition querystring_stringify (fields : list (string * option string)) : string :=
  join "&" (map (fun kv => (encodeURIComponent (fst kv) ++ "=" ++
                            encodeURIComponent (match snd kv with Some s => s | None => "" end))%string)
                fields).

(** [s.split(sep)[0]]: what stands before the first separator. *)
Fixpoint before (sep : ascii) (s : string) : string :=
  match s with
  | EmptyString => ""
  | String c s' => if Ascii.eqb c sep then "" else String c (before sep s')
  end.

(** A request to SharePoint or to the token service; [http_body] is
    [undefined] when none is given. *)
Record HttpRequest : Type := {
  http_method : string;
  http_url : string;
  http_body : value;
  http_headers : list (string * string)
}.

Definition SharePoint : Type := nat -> HttpRequest -> outcome.

(** [await axios.post(...)] or [await axios.get(...)]: the request is
    recorded and the oracle answers. *)
Definition axios_send (sp : SharePoint) (req : HttpRequest) (sent : list HttpRequest)
  : outcome * list HttpRequest :=
  (sp (List.length sent) req, sent ++ [req]).

(** [handleAxiosError]: an axios error whose response body has an [error]
    is turned into an [Error] with the message of that body; anything else
    is thrown again as it is. Reading the message can itself throw. *)
Definition handleAxiosError (error : JSError) (operation : string) : completion unit :=
  match error with
  | AxiosError (Some response) =>
      if truthy (data response) then
        err <- get_prop (data response) "error" ;;
        if truthy err then
          message <- get_prop err "message" ;;
          errorMessage <- get_prop message "value" ;;
          Throw (OtherError ("SharePoint API error while " ++ operation ++ ": "
                             ++ ToString errorMessage))
        else Throw error
      else Throw error
  | _ => Throw error
  end%string.

(** The [catch] block the functions below share: [handleAxiosError], and
    were it to return, the function would end with [undefined]. *)
Definition caught (error : JSError) (operation : string) : completion value :=
  _ <- handleAxiosError error operation ;; Normal VUndefined.

(** The request of [getAccessToken]. *)
Definition token_request (env : Env) : HttpRequest :=
  {| http_method := "post";
     http_url := "https://accounts.accesscontrol.windows.net/" ++ interpolate (TENANT_ID env)
                 ++ "/tokens/OAuth/2";
     http_body :=
       VString
         (querystring_stringify
            [ ("grant_type", Some "client_credentials");
              ("client_id", Some (interpolate (CLIENT_ID env) ++ "@"
                                  ++ interpolate (TENANT_ID env)));
              ("client_secret", CLIENT_SECRET env);
              ("resource", Some (interpolate (RESOURCE env) ++ "/"
                                 ++ interpolate (SITE_DOMAIN env) ++ "@"
                                 ++ interpolate (TENANT_ID env))) ]);
     http_headers := [("Content-Type", "application/x-www-form-urlencoded")] |}%string.

Definition getAccessToken (env : Env) (sp : SharePoint) (sent : list HttpRequest)
  : completion value * list HttpRequest :=
  let (o, sent') := axios_send sp (token_request env) sent in
  let tried :=
    match o with
    | Resolved response =>
        if (status response =? 200) && truthy (data response) then
          access_token <- get_prop (data response) "access_token" ;;
          if truthy access_token then Normal access_token
          else Throw (OtherError "Failed to fetch access token from SharePoint.")
        else Throw (OtherError "Failed to fetch access token from SharePoint.")
    | Rejected error => Throw error
    end in
  match tried with
  | Normal v => (Normal v, sent')
  | Throw error => (caught error "fetching access token", sent')
  end.

(** [FormDigestValue.split(',')[0]]: on a string; anything else that is
    truthy has no [split] to call. *)
Definition first_of_split (v : value) : completion value :=
  match v with
  | VString s => Normal (VString (before ","%char s))
  | _ => Throw (TypeError "response.data.FormDigestValue.split is not a function")
  end.

(** The request of [getFormDigestValue]. *)
Definition digest_request (env : Env) (accessToken : string) : HttpRequest :=
  {| http_method := "post";
     http_url := "https://" ++ interpolate (SITE_DOMAIN env) ++ "/sites/"
                 ++ interpolate (SUBSITE env) ++ "/_api/contextinfo";
     http_body := VUndefined;
     http_headers := [("Authorization", "Bearer " ++ accessToken);
                      ("Accept", "application/json")] |}%string.

Definition getFormDigestValue (env : Env) (sp : SharePoint) (accessToken : string)
  (sent : list HttpRequest) : completion value * list HttpRequest :=
  let (o, sent') := axios_send sp (digest_request env accessToken) sent in
  let tried :=
    match o with
    | Resolved response =>
        if (status response =? 200) && truthy (data response) then
          digest <- get_prop (data response) "FormDigestValue" ;;
          if truthy digest then first_of_split digest
          else Throw (OtherError "Failed to fetch Form Digest Value from SharePoint.")
        else Throw (OtherError "Failed to fetch Form Digest Value from SharePoint.")
    | Rejected error => Throw error
    end in
  match tried with
  | Normal v => (Normal v, sent')
  | Throw error => (caught error "fetching form digest value", sent')
  end.

(** The requests of [checkFolderExistsInSharepoint] and of
    [createFolderInSharepoint]. *)
Definition exists_request (env : Env) (path accessToken formDigestValue : string)
  : HttpRequest :=
  {| http_method := "get";
     http_url := "https://" ++ interpolate (SITE_DOMAIN env) ++ "/sites/"
                 ++ interpolate (SUBSITE env)
                 ++ "/_api/web/GetFolderByServerRelativeUrl('" ++ path ++ "')/Exists";
     http_body := VUndefined;
     http_headers := [("Authorization", "Bearer " ++ accessToken);
                      ("Accept", "application/json");
                      ("X-RequestDigest", formDigestValue)] |}%string.

Definition add_folder_request (env : Env) (path accessToken formDigestValue : string)
  : HttpRequest :=
  {| http_method := "post";
     http_url := "https://" ++ interpolate (SITE_DOMAIN env) ++ "/sites/"
                 ++ interpolate (SUBSITE env) ++ "/_api/web/Folders/add('"
                 ++ interpolate (SUBSITE env) ++ "/" ++ path ++ "')";
     http_body := VUndefined;
     http_headers := [("Authorization", "Bearer " ++ accessToken);
                      ("Accept", "application/json;odata=verbose");
                      ("Content-Type", "application/json;odata=verbose");
                      ("X-RequestDigest", formDigestValue)] |}%string.

Definition checkFolderExistsInSharepoint (env : Env) (sp : SharePoint)
  (path accessToken formDigestValue : string) (sent : list HttpRequest)
  : completion value * list HttpRequest :=
  let (o, sent') := axios_send sp (exists_request env path accessToken formDigestValue) sent in
  let tried :=
    match o with
    | Resolved response => get_prop (data response) "value"
    | Rejected error => Throw error
    end in
  match tried with
  | Normal v => (Normal v, sent')
  | Throw error => (caught error "checking folder existence", sent')
  end.

Definition createFolderInSharepoint (env : Env) (sp : SharePoint)
  (path accessToken formDigestValue : string) (sent : list HttpRequest)
  : completion value * list HttpRequest :=
  let (o, sent') := axios_send sp (add_folder_request env path accessToken formDigestValue) sent in
  match o with
  | Resolved _ => (Normal VUndefined, sent')
  | Rejected error => (caught error "creating folder", sent')
  end.

Definition createFolderIfNotExistInSharepoint (env : Env) (sp : SharePoint)
  (path accessToken formDigestValue : string) (sent : list HttpRequest)
  : completion value * list HttpRequest :=
  match checkFolderExistsInSharepoint env sp path accessToken formDigestValue sent with
  | (Throw e, sent') => (Throw e, sent')
  | (Normal found, sent') =>
      if negb (truthy found)
      then createFolderInSharepoint env sp path accessToken formDigestValue sent'
      else (Normal VUndefined, sent')
  end.

(** The request of [uploadObjectAsJSON]: the body is the compact JSON
    text of the data. *)
Definition add_file_request (env : Env)
  (accessToken formDigestValue fileName : string) (data : value) (folderPath : string)
  : HttpRequest :=
  {| http_method := "post";
     http_url := "https://" ++ interpolate (SITE_DOMAIN env) ++ "/sites/"
                 ++ interpolate (SUBSITE env)
                 ++ "/_api/web/GetFolderByServerRelativeUrl('" ++ interpolate (SUBSITE env)
                 ++ "/" ++ folderPath ++ "')/files/add(url='" ++ fileName
                 ++ "', overwrite=true)";
     http_body := JSON_stringify_value data;
     http_headers := [("Authorization", "Bearer " ++ accessToken);
                      ("X-RequestDigest", formDigestValue);
                      ("Accept", "application/json;odata=verbose");
                      ("Content-Type", "application/json")] |}%string.

Definition uploadObjectAsJSON (env : Env) (sp : SharePoint)
  (accessToken formDigestValue fileName : string) (data : value) (folderPath : string)
  (sent : list HttpRequest) : completion value * list HttpRequest :=
  if negb (truthy data) then (Normal VUndefined, sent)
  else
    let (o, sent') :=
      axios_send sp (add_file_request env accessToken formDigestValue fileName data folderPath)
                 sent in
    match o with
    | Resolved _ => (Normal VUndefined, sent')
    | Rejected error => (caught error "uploading JSON file", sent')
    end.

(** *** [services/BaseWebhookHandler.ts] *)

(** The fields of a handler. *)
Record Handler : Type := {
  accessToken : value;
  formDigestValue : value
}.

(** [BaseWebhookHandler.new()]: an object is made and its [init] awaited,
    which asks for the token and then, with the token, for the form
    digest. *)
Definition BaseWebhookHandler_new (env : Env) (sp : SharePoint) (sent : list HttpRequest)
  : completion Handler * list HttpRequest :=
  match getAccessToken env sp sent with
  | (Throw e, sent1) => (Throw e, sent1)
  | (Normal token, sent1) =>
      match getFormDigestValue env sp (ToString token) sent1 with
      | (Throw e, sent2) => (Throw e, sent2)
      | (Normal digest, sent2) =>
          (Normal {| accessToken := token; formDigestValue := digest |}, sent2)
      end
  end.

(* ===================================================================== *)

(** ** The webhook handlers and the routes: [services/DecisionEvents.ts],
    [services/VerificationEvents.ts], [services/ProofOfAddress.ts], [app.ts]

    Each handler is followed from its entry to its first call of
    SharePoint: what it reads of the event and of the session data, and
    whether it answers, ends, or goes on to upload. *)

(** What has been told to [res]: [res.status(code).json(body)]. *)
Record Reply : Type := {
  reply_status : Z;
  reply_json : value
}.

Definition nullish (v : value) : bool :=
  match v with
  | VUndefined | VNull => true
  | _ => false
  end.

(** [v?.k] *)
Definition optional_prop (v : value) (k : string) : completion value :=
  if nullish v then Normal VUndefined else get_prop v k.

(** [n === k] for a number [k]. *)
Definition is_number (k : Z) (v : value) : bool :=
  match v with
  | VNumber n => n =? k
  | _ => false
  end.

(** [Object.values(result)]: the fields in the order the record is
    built. *)
Definition Object_values (result : SessionData) : list value :=
  [ sessionDecision result; personInfo result; mediaList result;
    watchlistScreening result; ineData result; curpData result; attempts result ].

(** [fields.every(data => data.value === undefined || data.value === null)]:
    the fields are tried in order, up to the first that has a value;
    reading [value] of [null] throws. *)
Fixpoint every_without_value (fields : list value) : completion bool :=
  match fields with
  | [] => Normal true
  | data :: rest =>
      v <- get_prop data "value" ;;
      if nullish v then every_without_value rest else Normal false
  end.

(** Where a handler stands when it is done with the session data. *)
Inductive Prelude : Type :=
| Replied (r : Reply)
| Ended
| Uploading (personName : string) (folders : list string).

Definition internal_server_error : Reply :=
  {| reply_status := 500; reply_json := VObject [("error", VString "Internal server error")] |}.

(** The [catch] block of the handlers. *)
Definition or_internal_server_error (body : completion Prelude) : Prelude :=
  match body with
  | Normal p => p
  | Throw _ => Replied internal_server_error
  end.

(** [`${personInfo.value.firstName} ${personInfo.value.lastName}`] *)
Definition person_name (personInfo : value) : completion string :=
  person <- get_prop personInfo "value" ;;
  firstName <- get_prop person "firstName" ;;
  person <- get_prop personInfo "value" ;;
  lastName <- get_prop person "lastName" ;;
  Normal (ToString firstName ++ " " ++ ToString lastName)%string.

(** [personInfo?.value?.firstName] *)
Definition first_name (personInfo : value) : completion value :=
  person <- optional_prop personInfo "value" ;;
  optional_prop person "firstName".

(** [DecisionEvents.handleWebhook] up to the folders it asks for first.
    [fetch id] is what [await getRelavantSessionData(veriffAPI, id,
    version)] gives. *)
Definition DecisionEvents_handleWebhook (fetch : string -> SessionData) (payload : value)
  : Prelude :=
  or_internal_server_error
    (verification <- get_prop payload "verification" ;;
     sessionId <- get_prop verification "id" ;;
     let result := fetch (ToString sessionId) in
     nothing <- every_without_value (Object_values result) ;;
     if nothing then
       Normal (Replied {| reply_status := 404;
                          reply_json := VObject [("error", VString "Data not found")] |})
     else
       firstName <- first_name (personInfo result) ;;
       if truthy firstName then
         personName <- person_name (personInfo result) ;;
         v <- optional_prop (sessionDecision result) "value" ;;
         verification <- optional_prop v "verification" ;;
         code <- optional_prop verification "code" ;;
         let decision := if is_number 9001 code then "Successful" else "Unsuccessful" in
         let personFolderPath := ("KYC Details/" ++ decision)%string in
         let objectFilesPath :=
           (personFolderPath ++ "/" ++ personName ++ "_" ++ ToString sessionId)%string in
         Normal (Uploading personName [personFolderPath; objectFilesPath])
       else
         Normal (Replied {| reply_status := 404;
                            reply_json := VObject [("error",
                                                    VString "Sufficient data not found")] |})).

(** [VerificationEvents.handleWebhook], likewise. *)
Definition VerificationEvents_handleWebhook (fetch : string -> SessionData) (payload : value)
  : Prelude :=
  or_internal_server_error
    (verification <- get_prop payload "verification" ;;
     sessionId <- get_prop verification "id" ;;
     code <- get_prop verification "code" ;;
     let event :=
       if is_number 7001 code then "Started"
       else if is_number 7002 code then "Submitted" else "VerificationEvent" in
     let result := fetch (ToString sessionId) in
     firstName <- first_name (personInfo result) ;;
     if truthy firstName then
       personName <- person_name (personInfo result) ;;
       let personFolderPath := ("KYC Details/" ++ event)%string in
       let objectFilesPath :=
         (personFolderPath ++ "/" ++ personName ++ "_" ++ ToString sessionId)%string in
       Normal (Uploading personName [personFolderPath; objectFilesPath])
     else Normal Ended).

(** [ProofOfAddress.handleWebhook], likewise; the name of the person is
    read without a test. *)
Definition ProofOfAddress_handleWebhook (fetch : string -> SessionData) (payload : value)
  : Prelude :=
  or_internal_server_error
    (sessionId <- get_prop payload "id" ;;
     addressId <- get_prop payload "addressId" ;;
     let result := fetch (ToString sessionId) in
     personName <- person_name (personInfo result) ;;
     let objectFilesPath := ("KYC Details/" ++ personName ++ "_" ++ ToString sessionId)%string in
     Normal (Uploading personName [objectFilesPath])).

(** The three routes of [app.ts]. *)
Inductive Route : Type :=
| decision_route
| verification_event_route
| proof_of_address_route.

(** The answer to a signature that does not match. *)
Definition refusal (route : Route) : Reply :=
  {| reply_status := 401;
     reply_json :=
       VObject [("error", VString match route with
                                  | decision_route => "Unauthorized"
                                  | _ => "Invalid signature"
                                  end)] |}.

Definition unauthorized : Reply :=
  {| reply_status := 401; reply_json := VObject [("error", VString "Unauthorized")] |}.

(** A route up to [await Handler.new()]: [signature] is
    [req.get('x-hmac-signature')], [None] when the header is missing;
    [Normal None] is a request let through to the handler. *)
Definition route (r : Route) (veriffAPI : VeriffAPI) (signature : option string)
  (payload : value) : completion (option Reply) :=
  match signature with
  | None => Normal (Some unauthorized)
  | Some signature =>
      if negb (truthy (VString signature)) then Normal (Some unauthorized)
      else
        isValid <- isSignatureValid veriffAPI signature payload ;;
        if negb isValid then Normal (Some (refusal r)) else Normal None
  end.

(** What the upstream sends for a person with its name held under a
    [value] property, and the data a handler gets then. *)
Definition wrapped_person : value :=
  VObject [("value", VObject [("firstName", VString "Ada"); ("lastName", VString "Lovelace")])].

Definition session_event : value :=
  VObject [("verification", VObject [("id", VString "abc"); ("code", VNumber 7002)])].

Definition with_person (person : value) : SessionData :=
  {| sessionDecision := VObject [("status", VString "success")];
     personInfo := person; mediaList := VNull;
     watchlistScreening := VNull; ineData := VNull; curpData := VNull; attempts := VNull |}.

(** The person of the session data holds its name under a [value]
    property, and [name] is that name as the handlers print it. *)
Definition named_under_value (personInfo : value) (name : string) : Prop :=
  exists person firstName lastName,
    get_prop personInfo "value" = Normal person /\
    get_prop person "firstName" = Normal firstName /\
    get_prop person "lastName" = Normal lastName /\
    name = (ToString firstName ++ " " ++ ToString lastName)%string.

(** Session data as the operations of the client deliver them: the bodies
    of the answers, none of which has a [value] property. *)
Definition delivered_data : SessionData :=
  {| sessionDecision := decision;
     personInfo := VObject [("firstName", VString "Ada"); ("lastName", VString "Lovelace")];
     mediaList := VObject [("status", VString "success"); ("images", VArray []);
                           ("videos", VArray [])];
     watchlistScreening := VObject [("status", VString "success")];
     ineData := VObject [("status", VString "success")];
     curpData := VObject [("status", VString "success")];
     attempts := VArray [VObject [("id", VString "att-1")]] |}.

(* ===================================================================== *)

(** * Properties *)

Arguments createHmac_sha256_hex : simpl never.

(** ** Checks of the embedding *)

(** RFC 4231, test case 2. *)
Example hmac_rfc4231_case2 :
  createHmac_sha256_hex "Jefe" (bytes_of_string "what do ya want for nothing?")
  = "5bdcc146bf60754e6a042426089575c75a003f089d2739839dec58b964ec3843".
Proof. vm_compute. reflexivity. Qed.

(** SHA-256 of the empty message and of "abc" (FIPS 180-4 examples). *)
Example sha256_empty :
  hex_of_bytes (SHA256.digest [])
  = "e3b0c44298fc1c149afbf4c8996fb92427ae41e4649b934ca495991b7852b855".
Proof. vm_compute. reflexivity. Qed.

Example sha256_abc :
  hex_of_bytes (SHA256.digest [97; 98; 99])
  = "ba7816bf8f01cfea414140de5dae2223b00361a396177a9cb410ff61f20015ad".
Proof. vm_compute. reflexivity. Qed.

Example stringify_object :
  JSON_stringify (VObject [("id", VString "addr-123"); ("n", VNumber (-7));
                           ("skip", VUndefined); ("l", VArray [VNull; VUndefined; VBool true])])
  = Some (String "{"%char (dquote ++ "id" ++ dquote ++ ":" ++ dquote ++ "addr-123" ++ dquote ++ ","
          ++ dquote ++ "n" ++ dquote ++ ":-7," ++ dquote ++ "l" ++ dquote ++ ":[null,null,true]}"))%string.
Proof. vm_compute. reflexivity. Qed.

Example stringify_buffer_is_toJSON :
  JSON_stringify (VBuffer [x68; x69]) = JSON_stringify (Buffer_toJSON [x68; x69]).
Proof. vm_compute. reflexivity. Qed.

Example encodeURIComponent_version :
  encodeURIComponent "1.0.0 beta/2" = "1.0.0%20beta%2F2".
Proof. vm_compute. reflexivity. Qed.

Example extractIdFromUrl_session :
  extractIdFromUrl "/sessions/abc-1/decision/ine-registry?version=1.0.0" = "abc-1".
Proof. reflexivity. Qed.

Example extractIdFromUrl_address_media :
  extractIdFromUrl "/address-media/m42" = "m42".
Proof. reflexivity. Qed.

Example extractIdFromUrl_none :
  extractIdFromUrl "/sessions//x" = "".
Proof. reflexivity. Qed.

(** ** The credential pool *)

Lemma getCurrentKeyPair_in_range (this : VeriffAPI) :
  in_range this -> exists kp, getCurrentKeyPair this = Some kp.
Proof.
  unfold in_range, getCurrentKeyPair. intros [Hlo Hhi].
  destruct (currentIndex this <? 0) eqn:E; [apply Z.ltb_lt in E; lia|].
  destruct (nth_error (apiKeyPairs this) (Z.to_nat (currentIndex this))) as [kp|] eqn:Hn.
  - now exists kp.
  - apply nth_error_None in Hn. lia.
Qed.

Lemma getCurrentKeyPair_Some_in_range (this : VeriffAPI) (kp : KeyPair) :
  getCurrentKeyPair this = Some kp -> in_range this.
Proof.
  unfold in_range, getCurrentKeyPair.
  destruct (currentIndex this <? 0) eqn:E; [discriminate|].
  apply Z.ltb_ge in E. intros Hn.
  assert (Z.to_nat (currentIndex this) < List.length (apiKeyPairs this))%nat
    by (apply nth_error_Some; congruence).
  lia.
Qed.

(** [init] either throws and changes nothing, or leaves a well-formed
    client with the same pool, base URL and cursor. *)
Lemma init_spec (this : VeriffAPI) :
  (in_range this ->
     exists kp, getCurrentKeyPair this = Some kp /\
                init this = (Normal tt, set_veriffAPI this (instance_for this kp))) /\
  (forall r a, init this = (r, a) ->
     apiKeyPairs a = apiKeyPairs this /\ baseUrl a = baseUrl this /\
     currentIndex a = currentIndex this /\
     (r = Normal tt -> wf a) /\ (wf this -> a = this)).
Proof.
  split.
  - intros Hr. destruct (getCurrentKeyPair_in_range this Hr) as [kp Hkp].
    exists kp. split; [assumption|]. unfold init. now rewrite Hkp.
  - intros r a. unfold init.
    destruct (getCurrentKeyPair this) as [kp|] eqn:Hkp; intros H; inversion H; subst; clear H.
    + split; [reflexivity|]. split; [reflexivity|]. split; [reflexivity|]. split.
      * intros _. split.
        -- now apply (getCurrentKeyPair_Some_in_range this kp).
        -- exists kp. split; [exact Hkp | reflexivity].
      * intros [_ [kp' [Hkp' Hinst]]]. rewrite Hkp in Hkp'. inversion Hkp'; subst.
        destruct this; unfold set_veriffAPI; simpl in *. now rewrite Hinst.
    + split; [reflexivity|]. split; [reflexivity|]. split; [reflexivity|].
      split; [discriminate | reflexivity].
Qed.

Lemma constructor_nonempty (kp : KeyPair) (pairs : list KeyPair) (url : string) :
  exists a, constructor (kp :: pairs) url = (Normal tt, a) /\ wf a /\ currentIndex a = 0 /\
            apiKeyPairs a = kp :: pairs /\ getCurrentKeyPair a = Some kp.
Proof.
  eexists. split; [reflexivity|]. split; [|repeat split].
  split.
  - unfold in_range. simpl. lia.
  - exists kp. split; reflexivity.
Qed.

Lemma constructor_empty (url : string) :
  exists e a, constructor [] url = (Throw e, a).
Proof. eexists. eexists. reflexivity. Qed.

(** One rotation from a cursor in range. *)
Lemma switchToNextKeyPair_spec (this : VeriffAPI) :
  in_range this ->
  exists a, switchToNextKeyPair this = (Normal tt, a) /\ wf a /\
            apiKeyPairs a = apiKeyPairs this /\ baseUrl a = baseUrl this /\
            currentIndex a
            = (currentIndex this + 1) mod Z.of_nat (List.length (apiKeyPairs this)).
Proof.
  intros Hr. unfold switchToNextKeyPair.
  set (N := Z.of_nat (List.length (apiKeyPairs this))).
  set (this' := set_currentIndex this (Z.rem (currentIndex this + 1) N)).
  assert (HN : 0 < N) by (unfold in_range in Hr; fold N in Hr; lia).
  assert (Hrem : Z.rem (currentIndex this + 1) N = (currentIndex this + 1) mod N).
  { apply Z.rem_mod_nonneg; unfold in_range in Hr; lia. }
  assert (Hr' : in_range this').
  { unfold in_range, this'. simpl. fold N. rewrite Hrem. apply Z.mod_pos_bound. exact HN. }
  destruct (init_spec this') as [Hinit Hpres].
  destruct (Hinit Hr') as [kp [Hkp Heq]].
  eexists. split; [exact Heq|].
  destruct (Hpres _ _ Heq) as [Hp [Hb [Hi [Hwf _]]]].
  split; [now apply Hwf|].
  rewrite Hp, Hb, Hi. unfold this'. simpl. now rewrite Hrem.
Qed.

Lemma rotate_S (n : nat) (this : VeriffAPI) :
  rotate (S n) this = rotate n (snd (switchToNextKeyPair this)).
Proof.
  unfold rotate. induction n as [|n IH]; [reflexivity|].
  simpl in *. now rewrite IH.
Qed.

(** [n] rotations from a cursor in range move it [n] positions, modulo
    the size of the pool, and leave the pool itself alone. *)
Lemma rotate_spec (n : nat) :
  forall this, in_range this ->
    apiKeyPairs (rotate n this) = apiKeyPairs this /\
    baseUrl (rotate n this) = baseUrl this /\
    in_range (rotate n this) /\
    currentIndex (rotate n this)
    = (currentIndex this + Z.of_nat n) mod Z.of_nat (List.length (apiKeyPairs this)).
Proof.
  induction n as [|n IH]; intros this Hr.
  - simpl. split; [reflexivity|]. split; [reflexivity|]. split; [exact Hr|].
    rewrite Z.add_0_r, Z.mod_small; [reflexivity | exact Hr].
  - rewrite rotate_S.
    destruct (switchToNextKeyPair_spec this Hr) as [a [Ha [Hwf [Hp [Hb Hi]]]]].
    rewrite Ha. simpl.
    destruct (IH a (proj1 Hwf)) as [Hp' [Hb' [Hr' Hi']]].
    rewrite Hp', Hb', Hp, Hb. split; [reflexivity|]. split; [reflexivity|]. split.
    + exact Hr'.
    + rewrite Hi', Hp, Hi.
      rewrite Zplus_mod_idemp_l. f_equal. lia.
Qed.

Lemma loop_head_api (url responseType method : string) (n : Z) (w w' : World) (p : Progress) :
  loop_head url responseType method n w = (p, w') -> api w' = api w.
Proof.
  unfold loop_head. destruct (n >? 0).
  - destruct (prepare_request (api w) url responseType method);
      intros H; inversion H; reflexivity.
  - intros H; inversion H; reflexivity.
Qed.

(** A step of a call keeps the client well-formed, whatever the answer. *)
Lemma resume_wf (c : Call) (o : outcome) (w w' : World) (p : Progress) :
  wf (api w) -> resume c o w = (p, w') -> wf (api w').
Proof.
  intros Hwf. unfold resume. destruct o as [response | error].
  - destruct (String.eqb (call_responseType c) "stream");
      intros H; inversion H; subst; exact Hwf.
  - destruct (caught_http_error (call_responseType c) error).
    + destruct (switchToNextKeyPair_spec (api w) (proj1 Hwf)) as [a [Ha [Hwfa _]]].
      rewrite Ha.
      destruct (stringify_error_body (call_responseType c) error) as [text | e];
        [|intros H; inversion H; subst; exact Hwfa].
      destruct (attemptsLeft c - 1 =? 0).
      * intros H; inversion H; subst. exact Hwfa.
      * intros H. apply loop_head_api in H. rewrite H. exact Hwfa.
    + intros H. apply loop_head_api in H. rewrite H. exact Hwf.
Qed.

Lemma reachable_wf (w : World) : reachable w -> wf (api w).
Proof.
  induction 1 as [pairs url a Hc | w r a Hw IH Hs | w url rt m n p w' Hw IH Hl
                 | w c o p w' Hw IH Hr].
  - simpl. unfold constructor in Hc.
    destruct (init_spec {| apiKeyPairs := pairs; baseUrl := url;
                           currentIndex := 0; veriffAPI := None |}) as [_ Hpres].
    destruct (Hpres _ _ Hc) as [_ [_ [_ [Hwf _]]]]. now apply Hwf.
  - simpl. destruct (switchToNextKeyPair_spec (api w) (proj1 IH)) as [a' [Ha [Hwf _]]].
    rewrite Ha in Hs. inversion Hs; subst. exact Hwf.
  - apply loop_head_api in Hl. rewrite Hl. exact IH.
  - exact (resume_wf c o w w' p IH Hr).
Qed.

(** Whole calls stay within the reachable states. *)
Lemma run_alone_reachable (fuel : nat) (up : Upstream) :
  forall p w r w', reachable w -> run_alone fuel up p w = Some (r, w') -> reachable w'.
Proof.
  induction fuel as [|fuel IH]; intros p w r w' Hw; destruct p as [c | r0]; simpl;
    try discriminate; try (intros H; inversion H; subst; exact Hw).
  destruct (resume c (answer up c) w) as [p' w1] eqn:Hres.
  apply IH. exact (reach_answer w c _ p' w1 Hw Hres).
Qed.

Lemma performRequest_reachable (fuel : nat) (up : Upstream) (url responseType method : string)
  (w w' : World) (r : completion value) :
  reachable w -> performRequest fuel up url responseType method w = Some (r, w') -> reachable w'.
Proof.
  intros Hw. unfold performRequest.
  destruct (loop_head url responseType method _ w) as [p w1] eqn:Hl.
  apply run_alone_reachable. exact (reach_request w _ _ _ _ p w1 Hw Hl).
Qed.

Lemma call_reachable (fuel : nat) (up : Upstream) (op : Operation)
  (w w' : World) (r : completion value) :
  reachable w -> call fuel up op w = Some (r, w') -> reachable w'.
Proof.
  intros Hw. unfold call.
  destruct (performRequest fuel up (op_url op) (op_responseType op) "get" w)
    as [[r0 w0]|] eqn:Hp; [|discriminate].
  intros H; inversion H; subst. exact (performRequest_reachable _ _ _ _ _ _ _ _ Hw Hp).
Qed.

Lemma start_all_reachable (ops : list Operation) :
  forall w ts w', reachable w -> start_all ops w = (ts, w') -> reachable w'.
Proof.
  induction ops as [|op ops IH]; intros w ts w' Hw; simpl.
  - intros H; inversion H; subst; exact Hw.
  - unfold start.
    destruct (loop_head (op_url op) (op_responseType op) "get" _ w) as [p w1] eqn:Hl.
    destruct (start_all ops w1) as [ts1 w2] eqn:Hs.
    intros H; inversion H; subst.
    apply (IH w1 ts1 w'); [|exact Hs].
    exact (reach_request w _ _ _ _ p w1 Hw Hl).
Qed.

Lemma run_schedule_reachable (up : Upstream) (sched : list nat) :
  forall ts w ts' w', reachable w -> run_schedule up sched ts w = (ts', w') -> reachable w'.
Proof.
  induction sched as [|i sched IH]; intros ts w ts' w' Hw; simpl.
  - intros H; inversion H; subst; exact Hw.
  - destruct (deliver up i ts w) as [ts1 w1] eqn:Hd.
    apply IH. unfold deliver in Hd.
    destruct (nth_error ts i) as [t|]; [|inversion Hd; subst; exact Hw].
    destruct (progress t) as [c | r]; [|inversion Hd; subst; exact Hw].
    destruct (resume c (answer up c) w) as [p' w2] eqn:Hres.
    inversion Hd; subst. exact (reach_answer w c _ p' w1 Hw Hres).
Qed.

Lemma getRelavantSessionData_reachable (sched : list nat) (up : Upstream) (w w' : World)
  (sessionId version : string) (r : completion SessionData) :
  reachable w -> getRelavantSessionData sched up w sessionId version = Some (r, w') ->
  reachable w'.
Proof.
  intros Hw. unfold getRelavantSessionData.
  destruct (start_all (session_calls sessionId version) w) as [ts w1] eqn:Hs.
  destruct (run_schedule up sched ts w1) as [ts' w2] eqn:Hr.
  destruct (Promise_allSettled ts'); [|discriminate].
  intros H; inversion H; subst.
  apply (run_schedule_reachable up sched ts w1 ts' w'); [|exact Hr].
  exact (start_all_reachable _ w ts w1 Hw Hs).
Qed.

(** C6. For a pool of size N >= 1 (a cursor in range of it), one rotation
    succeeds and moves the cursor to [(i + 1) mod N]: to [i + 1] below the
    last index and from the last index back to 0; two rotations move it two
    positions; N rotations bring it back to where it was. *)
Theorem rotation_is_cyclic (this : VeriffAPI) :
  in_range this ->
  let N := Z.of_nat (List.length (apiKeyPairs this)) in
  let i := currentIndex this in
  N >= 1 /\
  fst (switchToNextKeyPair this) = Normal tt /\
  currentIndex (snd (switchToNextKeyPair this)) = (i + 1) mod N /\
  (i + 1 < N -> currentIndex (snd (switchToNextKeyPair this)) = i + 1) /\
  (i + 1 = N -> currentIndex (snd (switchToNextKeyPair this)) = 0) /\
  currentIndex (rotate 2 this) = (i + 2) mod N /\
  currentIndex (rotate (Z.to_nat N) this) = i.
Proof.
  intros Hr N i.
  assert (HN : N >= 1) by (unfold in_range in Hr; fold N in Hr; lia).
  destruct (switchToNextKeyPair_spec this Hr) as [a [Ha [_ [_ [_ Hi]]]]].
  fold N in Hi. fold i in Hi. rewrite Ha. simpl.
  split; [exact HN|]. split; [reflexivity|]. split; [exact Hi|].
  split; [|split; [|split]].
  - intros Hlt. rewrite Hi. apply Z.mod_small. unfold in_range in Hr. fold i in Hr. lia.
  - intros Heq. rewrite Hi, Heq. apply Z_mod_same_full.
  - destruct (rotate_spec 2 this Hr) as [_ [_ [_ H2]]]. exact H2.
  - destruct (rotate_spec (Z.to_nat N) this Hr) as [_ [_ [_ HNr]]].
    rewrite HNr. fold N. fold i. rewrite Z2Nat.id by lia.
    rewrite <- (Z.mul_1_l N) at 1. rewrite Z_mod_plus_full.
    apply Z.mod_small. exact Hr.
Qed.

Lemma rotation_is_cyclic_witness :
  currentIndex (rotate 3 (client [kp1; kp2; kp3])) = 0.
Proof.
  apply (rotation_is_cyclic (client [kp1; kp2; kp3])).
  unfold in_range. simpl. lia.
Defined.

(** C7. On a pool of size N >= 1 the constructor succeeds and leaves the
    cursor at 0; and in every state the client can then be in (after every
    rotation and every step of every request, whatever the upstream
    answers) the cursor lies in [0, N) and [getCurrentKeyPair], which
    changes nothing, finds a pair of the pool. *)
Theorem active_index_always_valid :
  (forall kp pairs url,
      exists a, constructor (kp :: pairs) url = (Normal tt, a) /\
                currentIndex a = 0 /\ reachable {| api := a; log := [] |}) /\
  (forall w,
      reachable w ->
      0 <= currentIndex (api w) < Z.of_nat (List.length (apiKeyPairs (api w))) /\
      exists kp, getCurrentKeyPair (api w) = Some kp /\ In kp (apiKeyPairs (api w))).
Proof.
  split.
  - intros kp pairs url.
    destruct (constructor_nonempty kp pairs url) as [a [Hc [_ [Hi _]]]].
    exists a. split; [exact Hc|]. split; [exact Hi|].
    exact (reach_new (kp :: pairs) url a Hc).
  - intros w Hw. destruct (reachable_wf w Hw) as [Hr [kp [Hkp _]]].
    split; [exact Hr|]. exists kp. split; [exact Hkp|].
    unfold getCurrentKeyPair in Hkp.
    destruct (currentIndex (api w) <? 0); [discriminate|].
    exact (nth_error_In _ _ Hkp).
Qed.

Lemma active_index_always_valid_witness :
  0 <= currentIndex (api (set_api (world [kp1; kp2]) (rotate 3 (client [kp1; kp2])))) < 2 /\
  exists kp, getCurrentKeyPair (api (set_api (world [kp1; kp2]) (rotate 3 (client [kp1; kp2]))))
             = Some kp /\ In kp [kp1; kp2].
Proof.
  apply (proj2 active_index_always_valid
           (set_api (world [kp1; kp2]) (rotate 3 (client [kp1; kp2])))).
  apply (reach_rotate (set_api (world [kp1; kp2]) (rotate 2 (client [kp1; kp2]))) (Normal tt));
    [|reflexivity].
  apply (reach_rotate (set_api (world [kp1; kp2]) (rotate 1 (client [kp1; kp2]))) (Normal tt));
    [|reflexivity].
  apply (reach_rotate (world [kp1; kp2]) (Normal tt)); [|reflexivity].
  apply (reach_new [kp1; kp2] "https://stationapi.veriff.com/v1"). reflexivity.
Defined.

(** ** Rotation on failure *)

Lemma attempted_attempt_events (i N : Z) (reqs : list AxiosRequest) :
  forall k0,
    attempted (attempt_events i N k0 reqs)
    = map (fun k => (i + Z.of_nat k) mod N) (seq k0 (List.length reqs)) /\
    rotations (attempt_events i N k0 reqs) = List.length reqs.
Proof.
  induction reqs as [|req reqs IH]; intros k0; simpl; [split; reflexivity|].
  destruct (IH (S k0)) as [Ha Hr]. rewrite Ha, Hr. split; reflexivity.
Qed.


Lemma prepare_request_wf (this : VeriffAPI) (url responseType method : string) :
  wf this ->
  exists kp req,
    getCurrentKeyPair this = Some kp /\
    prepare_request this url responseType method = Normal req /\
    lookup "X-AUTH-CLIENT" (req_headers req) = Some (apiKey kp) /\
    req_url req = url.
Proof.
  intros [_ [kp [Hkp Hinst]]]. exists kp.
  unfold prepare_request, interceptor, generateSignature. rewrite Hinst, Hkp. simpl.
  eexists. split; [reflexivity|]. split; [reflexivity|]. split; reflexivity.
Qed.

Lemma rotate_wf (n : nat) : forall this, wf this -> wf (rotate n this).
Proof.
  induction n as [|n IH]; intros this Hwf; [exact Hwf|].
  rewrite rotate_S.
  destruct (switchToNextKeyPair_spec this (proj1 Hwf)) as [a [Ha [Hwfa _]]].
  rewrite Ha. simpl. now apply IH.
Qed.

(** A full turn of the pool gives back the very same client state. *)
Lemma rotate_full_turn (this : VeriffAPI) :
  wf this -> rotate (List.length (apiKeyPairs this)) this = this.
Proof.
  intros Hwf.
  pose proof (rotate_wf (List.length (apiKeyPairs this)) this Hwf) as Hwf'.
  destruct (rotate_spec (List.length (apiKeyPairs this)) this (proj1 Hwf)) as [Hp [Hb [_ Hi]]].
  assert (Hidx : currentIndex (rotate (List.length (apiKeyPairs this)) this) = currentIndex this).
  { rewrite Hi. rewrite <- (Z.mul_1_l (Z.of_nat (List.length (apiKeyPairs this)))) at 1.
    rewrite Z_mod_plus_full. apply Z.mod_small. exact (proj1 Hwf). }
  destruct Hwf as [_ [kp [Hkp Hinst]]]. destruct Hwf' as [_ [kp' [Hkp' Hinst']]].
  assert (kp' = kp).
  { unfold getCurrentKeyPair in Hkp, Hkp'. rewrite Hidx, Hp in Hkp'. congruence. }
  subst kp'. unfold instance_for in Hinst, Hinst'. rewrite Hb in Hinst'.
  destruct (rotate (List.length (apiKeyPairs this)) this); destruct this; simpl in *.
  congruence.
Qed.

Lemma run_alone_step (fuel : nat) (up : Upstream) (c : Call) (w : World) :
  run_alone (S fuel) up (Awaiting c) w
  = let (p', w') := resume c (answer up c) w in run_alone fuel up p' w'.
Proof. reflexivity. Qed.

Lemma run_alone_returned (fuel : nat) (up : Upstream) (r : completion value) (w : World) :
  run_alone fuel up (Returned r) w = Some (r, w).
Proof. destruct fuel; reflexivity. Qed.

(** On a well-formed client with attempts left, the loop sends a request
    signed for the pair under the cursor. *)
Lemma loop_head_wf (url responseType method : string) (n : Z) (w : World) :
  wf (api w) -> 0 < n ->
  exists kp req,
    getCurrentKeyPair (api w) = Some kp /\
    lookup "X-AUTH-CLIENT" (req_headers req) = Some (apiKey kp) /\
    req_url req = url /\
    loop_head url responseType method n w
    = (Awaiting {| call_url := url; call_responseType := responseType;
                   call_method := method; attemptsLeft := n;
                   awaited := InFlight (List.length (log w)) req |},
       emit w (Requested (currentIndex (api w)) req)).
Proof.
  intros Hwf Hn.
  destruct (prepare_request_wf (api w) url responseType method Hwf)
    as [kp [req [Hkp [Hreq [Hh Hu]]]]].
  exists kp, req. split; [exact Hkp|]. split; [exact Hh|]. split; [exact Hu|].
  unfold loop_head. rewrite Hreq.
  replace (n >? 0) with true by (symmetry; apply Z.gtb_lt; lia). reflexivity.
Qed.

(** What the two tests of the [catch] block have in common. *)
Lemma caught_http_error_data (responseType : string) (e : JSError) :
  String.eqb responseType "stream" = false ->
  caught_http_error responseType e = isHttpErrorResponse e.
Proof. intros H. unfold caught_http_error. now rewrite H. Qed.

Lemma isHttpErrorResponse_caught (responseType : string) (e : JSError) :
  isHttpErrorResponse e = true -> caught_http_error responseType e = true.
Proof.
  destruct e as [msg | [response|] | msg]; simpl; try discriminate.
  destruct (truthy (data response)); [|now rewrite andb_false_r].
  now rewrite orb_true_r.
Qed.

Lemma stringify_error_body_data (responseType : string) (e : JSError) :
  String.eqb responseType "stream" = false ->
  exists text, stringify_error_body responseType e = Normal text.
Proof.
  intros H. unfold stringify_error_body. rewrite H.
  destruct e as [msg | [response|] | msg]; eexists; reflexivity.
Qed.

(** The [catch] block on an HTTP error response to a call that expects
    data: one rotation, one attempt less, then [null] or the next turn of
    the loop. *)
Lemma resume_http_error (c : Call) (e : JSError) (w : World) :
  in_range (api w) -> String.eqb (call_responseType c) "stream" = false ->
  isHttpErrorResponse e = true ->
  exists a,
    switchToNextKeyPair (api w) = (Normal tt, a) /\
    resume c (Rejected e) w
    = if attemptsLeft c - 1 =? 0
      then (Returned (Normal VNull), emit (set_api w a) (Rotated (currentIndex a)))
      else loop_head (call_url c) (call_responseType c) (call_method c) (attemptsLeft c - 1)
             (emit (set_api w a) (Rotated (currentIndex a))).
Proof.
  intros Hr Hd He. destruct (switchToNextKeyPair_spec (api w) Hr) as [a [Ha _]].
  exists a. split; [exact Ha|]. unfold resume.
  rewrite (isHttpErrorResponse_caught _ e He), Ha.
  destruct (stringify_error_body_data _ e Hd) as [text Ht]. rewrite Ht. reflexivity.
Qed.

(** The [catch] block on an HTTP error response to a call that expects a
    stream: one rotation, and the call ends there with the TypeError of
    the message that could not be built. *)
Lemma resume_http_error_stream (c : Call) (e : JSError) (w : World) :
  in_range (api w) -> call_responseType c = "stream" ->
  caught_http_error "stream" e = true ->
  exists a,
    switchToNextKeyPair (api w) = (Normal tt, a) /\
    resume c (Rejected e) w
    = (Returned (Throw (TypeError "Converting circular structure to JSON")),
       emit (set_api w a) (Rotated (currentIndex a))).
Proof.
  intros Hr Hs He. destruct (switchToNextKeyPair_spec (api w) Hr) as [a [Ha _]].
  exists a. split; [exact Ha|]. unfold resume, stringify_error_body.
  rewrite Hs, He, Ha. reflexivity.
Qed.

(** The [catch] block on any other failure: nothing changes and the loop
    goes round again with the same number of attempts left. *)
Lemma resume_other_error (c : Call) (e : JSError) (w : World) :
  caught_http_error (call_responseType c) e = false ->
  resume c (Rejected e) w
  = loop_head (call_url c) (call_responseType c) (call_method c) (attemptsLeft c) w.
Proof. intros He. unfold resume. now rewrite He. Qed.

Section Exhaustion.

Variable up : Upstream.
Hypothesis up_fails : answers_http_error up.
Variables url responseType method : string.
Hypothesis expects_data : String.eqb responseType "stream" = false.

(** [S k] attempts left, every answer an HTTP error response: exactly
    [S k] requests go out, each followed by a rotation, and the call
    returns [null]. *)
Lemma exhaust (k : nat) :
  forall fuel w i k0,
    wf (api w) ->
    currentIndex (api w)
    = (i + Z.of_nat k0) mod Z.of_nat (List.length (apiKeyPairs (api w))) ->
    (k < fuel)%nat ->
    exists reqs w',
      (let (p, w1) := loop_head url responseType method (Z.of_nat (S k)) w in
       run_alone fuel up p w1) = Some (Normal VNull, w') /\
      List.length reqs = S k /\
      log w' = log w ++ attempt_events i (Z.of_nat (List.length (apiKeyPairs (api w)))) k0 reqs /\
      api w' = rotate (S k) (api w).
Proof.
  induction k as [|k IH]; intros fuel w i k0 Hwf Hidx Hfuel;
    (destruct fuel as [|fuel]; [lia|]);
    match goal with
    | |- context [loop_head _ _ _ ?n w] =>
        destruct (loop_head_wf url responseType method n w Hwf ltac:(lia))
          as [kp [req [_ [_ [_ Hl]]]]]
    end;
    rewrite Hl, run_alone_step; unfold answer; cbn [awaited];
    destruct (up_fails (List.length (log w)) req) as [e [Hup He]]; rewrite Hup;
    match goal with
    | |- context [resume ?c _ ?w1] =>
        destruct (resume_http_error c e w1 (proj1 Hwf) expects_data He) as [a [Ha Hres]]
    end;
    rewrite Hres; cbn [attemptsLeft call_url call_responseType call_method];
    cbn [api emit set_api] in Ha;
    destruct (switchToNextKeyPair_spec (api w) (proj1 Hwf)) as [a' [Ha' [Hwfa [Hp [_ Hi]]]]];
    rewrite Ha in Ha'; inversion Ha'; subst a'; clear Ha'.
  - replace (Z.of_nat 1 - 1 =? 0) with true by reflexivity.
    rewrite run_alone_returned.
    exists [req]. eexists. split; [reflexivity|]. split; [reflexivity|].
    split; [|unfold rotate; simpl; now rewrite Ha].
    simpl. rewrite <- app_assoc. simpl. rewrite Hidx, Hi, Hidx.
    rewrite Zplus_mod_idemp_l. do 4 f_equal. f_equal; lia.
  - replace (Z.of_nat (S (S k)) - 1) with (Z.of_nat (S k)) by lia.
    replace (Z.of_nat (S k) =? 0) with false by (symmetry; apply Z.eqb_neq; lia).
    set (w2 := emit (set_api (emit w (Requested (currentIndex (api w)) req)) a)
                    (Rotated (currentIndex a))).
    destruct (IH fuel w2 i (S k0)) as [reqs [w' [Hrun [Hlen [Hlog Hapi]]]]].
    + exact Hwfa.
    + unfold w2. simpl. rewrite Hp, Hi, Hidx. rewrite Zplus_mod_idemp_l. f_equal. lia.
    + lia.
    + exists (req :: reqs), w'.
      split; [exact Hrun|]. split; [simpl; now rewrite Hlen|]. split.
      * rewrite Hlog. unfold w2. simpl. rewrite <- !app_assoc. simpl.
        rewrite Hp, Hi, Hidx. rewrite Zplus_mod_idemp_l.
        do 3 f_equal. f_equal. f_equal; lia.
      * rewrite Hapi. unfold w2. cbn [api emit set_api].
        rewrite (rotate_S (S k) (api w)), Ha. reflexivity.
Qed.

(** The whole call on a well-formed client. *)
Lemma performRequest_exhausted (fuel : nat) (w : World) :
  wf (api w) ->
  (List.length (apiKeyPairs (api w)) <= fuel)%nat ->
  exists reqs w',
    performRequest fuel up url responseType method w = Some (Normal VNull, w') /\
    List.length reqs = List.length (apiKeyPairs (api w)) /\
    log w' = log w ++ attempt_events (currentIndex (api w))
                        (Z.of_nat (List.length (apiKeyPairs (api w)))) 0 reqs /\
    api w' = api w.
Proof.
  intros Hwf Hfuel. unfold performRequest.
  pose proof (proj1 Hwf) as Hr. unfold in_range in Hr.
  destruct (List.length (apiKeyPairs (api w))) as [|k] eqn:Hlen; [simpl in Hr; lia|].
  destruct (exhaust k fuel w (currentIndex (api w)) 0%nat) as [reqs [w' [Hrun [Hl' [Hlog Hapi]]]]].
  - exact Hwf.
  - rewrite Hlen. rewrite Z.add_0_r. symmetry. apply Z.mod_small. exact Hr.
  - lia.
  - exists reqs, w'. rewrite Hlen in Hlog.
    split; [exact Hrun|]. split; [exact Hl'|]. split; [exact Hlog|].
    rewrite Hapi, <- Hlen. now apply rotate_full_turn.
Qed.

End Exhaustion.


Lemma always_http_error_answers (code : Z) :
  code <> 0 -> answers_http_error (always_http_error code).
Proof.
  intros Hc n req. eexists. split; [reflexivity|]. simpl.
  destruct (code =? 0) eqn:E; [apply Z.eqb_eq in E; contradiction | reflexivity].
Qed.

Lemma world_wf (kp : KeyPair) (pairs : list KeyPair) : wf (api (world (kp :: pairs))).
Proof.
  split.
  - unfold in_range. simpl. lia.
  - exists kp. split; reflexivity.
Qed.



(** C10 (as amended). After a call of [performRequest] that expects data
    (any response type but a stream) and runs with no other call of the
    client in flight, in which every credential was refused with an HTTP
    error response, the client is exactly as it was before the call: the N
    rotations took the cursor once around the pool, and the pool, the base
    URL and the request defaults are those of before. *)
Theorem exhausted_call_leaves_pool_unchanged
  (fuel : nat) (up : Upstream) (url responseType method : string) (w : World) :
  wf (api w) ->
  String.eqb responseType "stream" = false ->
  answers_http_error up ->
  (List.length (apiKeyPairs (api w)) <= fuel)%nat ->
  exists evs w',
    performRequest fuel up url responseType method w = Some (Normal VNull, w') /\
    log w' = log w ++ evs /\
    rotations evs = List.length (apiKeyPairs (api w)) /\
    currentIndex (api w') = currentIndex (api w) /\
    api w' = api w.
Proof.
  intros Hwf Hdata Hup Hfuel.
  destruct (performRequest_exhausted up Hup url responseType method Hdata fuel w Hwf Hfuel)
    as [reqs [w' [Hrun [Hlen [Hlog Hapi]]]]].
  eexists. exists w'. split; [exact Hrun|]. split; [exact Hlog|].
  split; [|split; [now rewrite Hapi | exact Hapi]].
  destruct (attempted_attempt_events (currentIndex (api w))
              (Z.of_nat (List.length (apiKeyPairs (api w)))) reqs 0%nat) as [_ Hrot].
  now rewrite Hrot.
Qed.

Lemma exhausted_call_leaves_pool_unchanged_witness :
  exists evs w',
    performRequest 2 (always_http_error 500) "/sessions/abc/media" "json" "get"
      (set_api (world [kp1; kp2]) (rotate 1 (client [kp1; kp2]))) = Some (Normal VNull, w') /\
    log w' = [] ++ evs /\
    rotations evs = 2%nat /\
    currentIndex (api w') = 1 /\
    api w' = rotate 1 (client [kp1; kp2]).
Proof.
  apply (exhausted_call_leaves_pool_unchanged 2 (always_http_error 500)
           "/sessions/abc/media" "json" "get"
           (set_api (world [kp1; kp2]) (rotate 1 (client [kp1; kp2])))).
  - apply (rotate_wf 1 (client [kp1; kp2])). apply (world_wf kp1 [kp2]).
  - reflexivity.
  - apply always_http_error_answers. lia.
  - simpl. lia.
Defined.

(** ** Failover, end to end *)

(** The claim C10 fails in two ways. In an aggregation the cursor is moved
    by the other calls too: on a pool of two, when the decision call
    returns [null] after its two refusals, one refusal of the person call
    has come in between and the cursor is on the other pair. And a call
    that expects a stream stops after its first rotation, the cursor one
    position on. *)
Lemma refused_call_can_move_the_cursor :
  (let (ts, w1) := start_all (session_calls "abc" "1.0.0") (world [kp1; kp2]) in
   let (ts', w) := run_schedule (always_http_error 401) [0; 1; 0]%nat ts w1 in
   option_map progress (nth_error ts' 0) = Some (Returned (Normal VNull)) /\
   requests_for "/sessions/abc/decision" (log w) = [0; 1] /\
   currentIndex (api w1) = 0 /\ currentIndex (api w) = 1) /\
  currentIndex (api (world [kp1; kp2])) = 0 /\
  option_map (fun r => (throws_TypeError (fst r), rotations (log (snd r)),
                        currentIndex (api (snd r))))
    (performRequest 2 (always_http_error 401) "/media/m1" "stream" "get" (world [kp1; kp2]))
  = Some (true, 1%nat, 1).
Proof.
  split; [|split; [reflexivity | vm_compute; reflexivity]].
  vm_compute. repeat split.
Qed.



(** ** Failures without an HTTP error response *)

Lemma rotations_app (l1 l2 : list Event) :
  rotations (l1 ++ l2) = (rotations l1 + rotations l2)%nat.
Proof.
  induction l1 as [|[i r | i] l1 IH]; simpl; [reflexivity | exact IH | now rewrite IH].
Qed.

Lemma attempted_app (l1 l2 : list Event) :
  attempted (l1 ++ l2) = attempted l1 ++ attempted l2.
Proof.
  induction l1 as [|[i r | i] l1 IH]; simpl; [reflexivity | now rewrite IH | exact IH].
Qed.

(** Such a failure neither rotates the pool nor uses up an attempt. *)
Lemma other_error_keeps_pool (c : Call) (e : JSError) (w w' : World) (p : Progress) :
  caught_http_error (call_responseType c) e = false ->
  resume c (Rejected e) w = (p, w') ->
  api w' = api w /\ rotations (log w') = rotations (log w) /\
  match p with
  | Awaiting c' => attemptsLeft c' = attemptsLeft c
  | Returned _ => attemptsLeft c <= 0
  end.
Proof.
  intros He. rewrite (resume_other_error c e w He). unfold loop_head.
  destruct (attemptsLeft c >? 0) eqn:Hn.
  - destruct (prepare_request (api w) (call_url c) (call_responseType c) (call_method c));
      intros H; inversion H; subst; cbn [api log emit attemptsLeft];
      repeat split; try reflexivity.
    rewrite rotations_app. simpl. lia.
  - intros H; inversion H; subst. repeat split; try reflexivity.
    destruct (Z.gtb_spec (attemptsLeft c) 0); [discriminate | assumption].
Qed.

(** With attempts left and an upstream that never answers, the loop never
    ends: whatever the fuel, the call is still awaiting. *)
Lemma no_response_never_returns (up : Upstream) (url responseType method : string) (n : Z) :
  answers_no_response up -> 0 < n ->
  forall fuel w,
    wf (api w) ->
    (let (p, w1) := loop_head url responseType method n w in run_alone fuel up p w1) = None.
Proof.
  intros Hup Hn. induction fuel as [|fuel IH]; intros w Hwf;
    destruct (loop_head_wf url responseType method n w Hwf Hn) as [kp [req [_ [_ [_ Hl]]]]];
    rewrite Hl; [reflexivity|].
  rewrite run_alone_step. unfold answer. cbn [awaited].
  destruct (Hup (List.length (log w)) req) as [e [He1 He2]]. rewrite He1.
  rewrite (resume_other_error _ e _ (He2 _)).
  cbn [attemptsLeft call_url call_responseType call_method].
  apply IH. exact Hwf.
Qed.

Lemma performRequest_never_returns (up : Upstream) (url responseType method : string)
  (fuel : nat) (w : World) :
  answers_no_response up -> wf (api w) ->
  performRequest fuel up url responseType method w = None.
Proof.
  intros Hup Hwf. unfold performRequest.
  apply no_response_never_returns; [exact Hup | | exact Hwf].
  pose proof (proj1 Hwf) as Hr. unfold in_range in Hr. lia.
Qed.

(** What the [catch] block takes for an HTTP error response: an axios
    error whose response has a status and a body. For a call that expects
    data, an error response with an empty body, an axios error without a
    response and any other error all go to the [else] branch; for a call
    that expects a stream the body is a stream, whatever it carries. *)
Example catch_block_cases :
  caught_http_error "json"
    (AxiosError (Some {| status := 401; data := error_body; headers := [] |})) = true /\
  caught_http_error "json"
    (AxiosError (Some {| status := 401; data := VString ""; headers := [] |})) = false /\
  caught_http_error "stream"
    (AxiosError (Some {| status := 401; data := VString ""; headers := [] |})) = true /\
  (forall responseType,
      caught_http_error responseType (AxiosError None) = false /\
      caught_http_error responseType (TypeError "x") = false).
Proof. repeat split. Qed.

(** C1 (the code departs from the claim). After a transport-level fault the
    call is not over: the pool is not rotated, but the request is sent
    again under the same credential. With one fault followed by an answer,
    [getSessionDecision] sends two requests under index 0 and is fulfilled
    with the answer; with an upstream that never responds it never
    returns, whatever the fuel. *)
Theorem transport_fault_is_retried :
  option_map fst (call 2 fault_then_decision (getSessionDecision "abc") (world [kp1; kp2]))
  = Some (Normal decision) /\
  option_map (fun r => attempted (log (snd r)))
    (call 2 fault_then_decision (getSessionDecision "abc") (world [kp1; kp2]))
  = Some [0; 0] /\
  option_map (fun r => rotations (log (snd r)))
    (call 2 fault_then_decision (getSessionDecision "abc") (world [kp1; kp2]))
  = Some 0%nat /\
  call 1 fault_then_decision (getSessionDecision "abc") (world [kp1; kp2]) = None /\
  forall fuel, call fuel never_responds (getSessionDecision "abc") (world [kp1; kp2]) = None.
Proof.
  split; [vm_compute; reflexivity|].
  split; [vm_compute; reflexivity|].
  split; [vm_compute; reflexivity|].
  split; [vm_compute; reflexivity|].
  intros fuel. unfold call.
  rewrite performRequest_never_returns; [reflexivity | | apply world_wf].
  intros n req. eexists. split; reflexivity.
Qed.

(** ** Refusal seen from the public operations *)

(** When every credential is refused, an operation that expects data ends
    with what its code after the [await] makes of [null]. *)
Lemma call_exhausted (fuel : nat) (up : Upstream) (op : Operation) (w : World) :
  wf (api w) ->
  String.eqb (op_responseType op) "stream" = false ->
  answers_http_error up ->
  (List.length (apiKeyPairs (api w)) <= fuel)%nat ->
  exists w', call fuel up op w = Some (op_after op VNull, w') /\ api w' = api w.
Proof.
  intros Hwf Hdata Hup Hfuel.
  destruct (performRequest_exhausted up Hup (op_url op) (op_responseType op) "get" Hdata
              fuel w Hwf Hfuel)
    as [reqs [w' [Hrun [_ [_ Hapi]]]]].
  exists w'. unfold call. rewrite Hrun. split; [reflexivity | exact Hapi].
Qed.

(** A call that expects a stream ends at the first HTTP error response:
    one request, one rotation, and the TypeError of the message that could
    not be built; no other credential is tried. *)
Lemma performRequest_stream_refused (fuel : nat) (up : Upstream) (url method : string)
  (w : World) :
  wf (api w) ->
  (forall n req, exists e, up n req = Rejected e /\ caught_http_error "stream" e = true) ->
  exists req w',
    performRequest (S fuel) up url "stream" method w
    = Some (Throw (TypeError "Converting circular structure to JSON"), w') /\
    log w' = log w ++ [Requested (currentIndex (api w)) req;
                       Rotated (currentIndex (rotate 1 (api w)))] /\
    api w' = rotate 1 (api w).
Proof.
  intros Hwf Hup. unfold performRequest.
  pose proof (proj1 Hwf) as Hr. unfold in_range in Hr.
  destruct (loop_head_wf url "stream" method
              (Z.of_nat (List.length (apiKeyPairs (api w)))) w Hwf ltac:(lia))
    as [kp [req [_ [_ [_ Hl]]]]].
  rewrite Hl, run_alone_step. unfold answer. cbn [awaited].
  destruct (Hup (List.length (log w)) req) as [e [Hup1 He]]. rewrite Hup1.
  match goal with
  | |- context [resume ?c _ ?w1] =>
      destruct (resume_http_error_stream c e w1 (proj1 Hwf) eq_refl He) as [a [Ha Hres]]
  end.
  rewrite Hres, run_alone_returned. cbn [api emit set_api] in Ha.
  assert (Hrot : rotate 1 (api w) = a) by (unfold rotate; simpl; now rewrite Ha).
  exists req. eexists. split; [reflexivity|].
  cbn [log api emit set_api]. rewrite <- app_assoc, Hrot. split; reflexivity.
Qed.

(** The operations that expect data and pass the answer on end normally,
    with [null]. *)
Lemma exhausted_operations_without_throw (sessionId version : string) :
  Forall (fun op => String.eqb (op_responseType op) "stream" = false /\
                    op_after op VNull = Normal VNull)
    [ getSessionDecision sessionId; getMediaForSession sessionId;
      getWatchlistScreeningForSession sessionId; getMediaForAttempt sessionId;
      getINEDataForSession sessionId version; getCurpRegistryData sessionId version;
      getAddressMedia sessionId ].
Proof. repeat constructor. Qed.

(** The two operations that read a property of the answer throw. *)
Lemma person_and_attempts_after_null (sessionId : string) :
  op_after (getPersonForSession sessionId) VNull
  = Throw (TypeError "Cannot read properties of null (reading 'person')") /\
  op_after (getAttemptsForSession sessionId) VNull
  = Throw (TypeError "Cannot read properties of null (reading 'verifications')").
Proof. split; reflexivity. Qed.

(** C4 (the code departs from the claim). With every credential refused by
    an HTTP 404 error response, four of the eleven operations throw.
    [getPersonForSession] and [getAttemptsForSession]: [performRequest]
    returns [null] after the two attempts and reading [.person] or
    [.verifications] of it throws a TypeError. [getMediaById] and
    [getAddressMediaById]: the body of the error response is a stream, the
    message that is logged after the first rotation cannot be built, and
    the call ends there with a TypeError, one request sent and one rotation
    made. [getSessionDecision], on the same upstream, ends with [null]. *)
Theorem operations_throw_when_refused :
  option_map fst (call 2 (always_http_error 404) (getPersonForSession "abc") (world [kp1; kp2]))
  = Some (Throw (TypeError "Cannot read properties of null (reading 'person')")) /\
  option_map fst (call 2 (always_http_error 404) (getAttemptsForSession "abc") (world [kp1; kp2]))
  = Some (Throw (TypeError "Cannot read properties of null (reading 'verifications')")) /\
  (exists msg,
      option_map fst (call 2 (always_http_error 404) (getMediaById "m1") (world [kp1; kp2]))
      = Some (Throw (TypeError msg))) /\
  (exists msg,
      option_map fst
        (call 2 (always_http_error 404) (getAddressMediaById "m1") (world [kp1; kp2]))
      = Some (Throw (TypeError msg))) /\
  option_map (fun r => (attempted (log (snd r)), rotations (log (snd r))))
    (call 2 (always_http_error 404) (getMediaById "m1") (world [kp1; kp2]))
  = Some ([0], 1%nat) /\
  option_map fst (call 2 (always_http_error 404) (getSessionDecision "abc") (world [kp1; kp2]))
  = Some (Normal VNull).
Proof.
  split; [vm_compute; reflexivity|].
  split; [vm_compute; reflexivity|].
  split; [eexists; vm_compute; reflexivity|].
  split; [eexists; vm_compute; reflexivity|].
  split; vm_compute; reflexivity.
Qed.

(** ** Webhook signature verification *)

(** The loop accepts exactly the digests under the secrets of the pool. *)
Lemma any_digest_matches_iff (pairs : list KeyPair) (payload : list byte) (signature : string) :
  any_digest_matches pairs payload signature = true <->
  exists kp, In kp pairs /\ createHmac_sha256_hex (sharedSecretKey kp) payload = signature.
Proof.
  induction pairs as [|kp pairs IH]; simpl.
  - split; [discriminate | intros [kp [[] _]]].
  - destruct (String.eqb_spec (createHmac_sha256_hex (sharedSecretKey kp) payload) signature)
      as [Heq | Hne].
    + split; [|reflexivity]. intros _. exists kp. split; [now left | exact Heq].
    + rewrite IH. split.
      * intros [kp' [Hin Hd]]. exists kp'. split; [now right | exact Hd].
      * intros [kp' [[Hin | Hin] Hd]]; [subst kp'; contradiction|].
        exists kp'. split; assumption.
Qed.

(** The result never depends on the cursor, only on the pool. *)
Lemma isSignatureValid_ignores_cursor (this other : VeriffAPI) (signature : string)
  (payload : value) :
  apiKeyPairs other = apiKeyPairs this ->
  isSignatureValid other signature payload = isSignatureValid this signature payload.
Proof. intros Hp. unfold isSignatureValid. now rewrite Hp. Qed.

(** A structured payload is verified as its compact stringification is. *)
Lemma isSignatureValid_structured (this : VeriffAPI) (signature : string) (payload : value) :
  typeof payload = "object" ->
  isSignatureValid this signature payload
  = isSignatureValid this signature (JSON_stringify_value payload).
Proof.
  intros Ht. unfold isSignatureValid. rewrite Ht. simpl.
  unfold JSON_stringify_value.
  destruct payload; try discriminate; simpl; try reflexivity.
Qed.

(** For structured payloads and strings the code does what the
    specification describes. *)
Lemma isSignatureValid_structured_or_string (this : VeriffAPI) (signature : string)
  (payload : value) :
  isBuffer payload = false ->
  (typeof payload = "object" \/ typeof payload = "string") ->
  exists b, isSignatureValid this signature payload = Normal b /\
            (b = true <-> signature_matches_some_pair (apiKeyPairs this) signature payload).
Proof.
  intros Hb Ht. unfold isSignatureValid, signature_matches_some_pair.
  destruct payload as [| | b | n | s | l | ps | bs]; simpl in *;
    try discriminate; try (destruct Ht; discriminate);
    (eexists; split; [reflexivity|]);
    rewrite any_digest_matches_iff;
    (split;
     [ intros [kp [Hin Hd]]; exists kp; eexists; split; [exact Hin|]; split; [reflexivity | exact Hd]
     | intros [kp [bs' [Hin [Hc Hd]]]]; inversion Hc; subst bs'; exists kp; split; assumption ]).
Qed.

(** A Buffer is verified as the JSON text of its [toJSON] object is, not
    as its bytes are. *)
Lemma isSignatureValid_buffer (this : VeriffAPI) (signature : string) (bs : list byte) :
  isSignatureValid this signature (VBuffer bs)
  = isSignatureValid this signature (Buffer_toJSON bs).
Proof.
  unfold isSignatureValid, JSON_stringify_value.
  replace (JSON_stringify (Buffer_toJSON bs)) with (JSON_stringify (VBuffer bs));
    [reflexivity|].
  simpl. rewrite map_map. reflexivity.
Qed.

Example address_event_json_bytes :
  map byte_to_Z (bytes_of_string address_event_json)
  = [123; 34; 105; 100; 34; 58; 34; 97; 100; 100; 114; 45; 49; 50; 51; 34; 125].
Proof. vm_compute. reflexivity. Qed.

(** The scenario of the specification: signed with the second secret,
    verified while the first pair is active. *)
Example webhook_signed_with_second_secret :
  currentIndex (client [kp1; kp2]) = 0 /\
  isSignatureValid (client [kp1; kp2])
    (createHmac_sha256_hex "s2" (bytes_of_string address_event_json)) address_event
  = Normal true /\
  isSignatureValid (client [kp1; kp2])
    (createHmac_sha256_hex "s3" (bytes_of_string address_event_json)) address_event
  = Normal false.
Proof. repeat split; vm_compute; reflexivity. Qed.

(** C2 (the code departs from the claim for raw bytes). The signature is
    the HMAC-SHA256 hex digest, under the second secret of the pool, of the
    bytes of the webhook body. Passed as a string the body is accepted;
    passed as raw bytes (a Buffer) it is refused, because the digest is
    then taken over the JSON text of the Buffer object; it is that text's
    digest that is accepted. Rotating the pool changes none of it. *)
Theorem raw_bytes_verified_as_buffer_json :
  let body := bytes_of_string address_event_json in
  let signature := createHmac_sha256_hex "s2" body in
  signature = "5620c7836121aea78c3a6fa4132624ef74d1c6523584230fdaecf6e6d486bc02" /\
  isSignatureValid (client [kp1; kp2]) signature (VString address_event_json) = Normal true /\
  isSignatureValid (client [kp1; kp2]) signature (VBuffer body) = Normal false /\
  isSignatureValid (rotate 1 (client [kp1; kp2])) signature (VBuffer body) = Normal false /\
  isSignatureValid (client [kp1; kp2])
    "4e427cedf34c3f63298304f6cc2a5e9d301a26a1f3e0be37414b5578a90b71a0" (VBuffer body)
  = Normal true.
Proof. repeat split; vm_compute; reflexivity. Qed.

(** C8 (the code departs from the claim). The structured payload
    [{ id: 'addr-123' }] and the UTF-8 bytes of its compact stringification
    are not verified alike: under the signature of those bytes the object
    is accepted and the bytes, passed as a Buffer, are refused. *)
Theorem structured_and_raw_bytes_differ :
  let body := bytes_of_string address_event_json in
  let signature := createHmac_sha256_hex "s1" body in
  JSON_stringify address_event = Some address_event_json /\
  isSignatureValid (client [kp1; kp2]) signature address_event = Normal true /\
  isSignatureValid (client [kp1; kp2]) signature (VBuffer body) = Normal false.
Proof. repeat split; vm_compute; reflexivity. Qed.

(** ** The aggregator *)

Lemma replace_nth_length {A : Type} (i : nat) (x : A) (l : list A) :
  List.length (replace_nth i x l) = List.length l.
Proof.
  revert i. induction l as [|y l IH]; intros [|i]; simpl; try reflexivity.
  now rewrite IH.
Qed.

Lemma nth_error_replace_nth {A : Type} (i j : nat) (x y : A) (l : list A) :
  nth_error (replace_nth i x l) j = Some y ->
  (j = i /\ y = x /\ exists z, nth_error l j = Some z) \/ (j <> i /\ nth_error l j = Some y).
Proof.
  revert i j. induction l as [|z l IH]; intros [|i] [|j]; simpl; try discriminate.
  - intros H; inversion H; subst. left. split; [reflexivity|]. split; [reflexivity|].
    now exists z.
  - intros H. right. split; [discriminate | exact H].
  - intros H. right. split; [discriminate | exact H].
  - intros H. destruct (IH i j H) as [[Hj [Hy Hz]] | [Hj Hn]].
    + left. split; [now f_equal|]. split; assumption.
    + right. split; [congruence | exact Hn].
Qed.

Section Aggregation.

Variable up : Upstream.
Hypothesis up_answers : answers_every_request up.

(** The answer to a request in flight either ends the call or leaves it
    in flight with one attempt less. *)
Lemma resume_progress (c : Call) (w w' : World) (p : Progress) :
  wf (api w) ->
  1 <= attemptsLeft c ->
  (exists n req, awaited c = InFlight n req) ->
  resume c (answer up c) w = (p, w') ->
  wf (api w') /\
  match p with
  | Returned _ => True
  | Awaiting c' =>
      attemptsLeft c' = attemptsLeft c - 1 /\ 1 <= attemptsLeft c' /\
      exists n req, awaited c' = InFlight n req
  end.
Proof.
  intros Hwf Hn [n [req Haw]] Hres.
  split; [exact (resume_wf c _ w w' p Hwf Hres)|].
  unfold answer in Hres. rewrite Haw in Hres.
  pose proof (up_answers n req) as Hans.
  destruct (up n req) as [response | e].
  - unfold resume in Hres.
    destruct (String.eqb (call_responseType c) "stream"); inversion Hres; exact I.
  - destruct (String.eqb_spec (call_responseType c) "stream") as [Hs | Hs].
    { destruct (resume_http_error_stream c e w (proj1 Hwf) Hs
                  (isHttpErrorResponse_caught _ e Hans)) as [a [_ Hr]].
      rewrite Hr in Hres. inversion Hres; exact I. }
    apply String.eqb_neq in Hs.
    destruct (resume_http_error c e w (proj1 Hwf) Hs Hans) as [a [Ha Hr]].
    rewrite Hr in Hres.
    destruct (Z.eqb_spec (attemptsLeft c - 1) 0) as [Hz | Hz]; [inversion Hres; exact I|].
    destruct (switchToNextKeyPair_spec (api w) (proj1 Hwf)) as [a' [Ha' [Hwfa _]]].
    rewrite Ha in Ha'. inversion Ha'; subst a'.
    destruct (loop_head_wf (call_url c) (call_responseType c) (call_method c)
                (attemptsLeft c - 1) (emit (set_api w a) (Rotated (currentIndex a))))
      as [kp [req' [_ [_ [_ Hl]]]]]; [exact Hwfa | lia |].
    rewrite Hl in Hres. inversion Hres; subst. cbn [attemptsLeft awaited].
    split; [reflexivity|]. split; [lia|]. eexists. eexists. reflexivity.
Qed.

(** One delivery: only the task it is for moves, by at least one step. *)
Lemma deliver_spec (i : nat) (ts ts' : list Task) (w w' : World) :
  wf (api w) ->
  (forall j t, nth_error ts j = Some t -> in_flight t) ->
  deliver up i ts w = (ts', w') ->
  wf (api w') /\
  forall j t', nth_error ts' j = Some t' ->
    in_flight t' /\
    exists t, nth_error ts j = Some t /\
              (j <> i -> t' = t) /\
              (j = i -> (remaining t' <= remaining t - 1)%nat).
Proof.
  intros Hwf Hfl. unfold deliver.
  destruct (nth_error ts i) as [t|] eqn:Hi.
  - pose proof (Hfl i t Hi) as Hti. unfold in_flight in Hti.
    destruct (progress t) as [c | r] eqn:Hp.
    + destruct (resume c (answer up c) w) as [p1 w1] eqn:Hres.
      intros H; inversion H; subst; clear H.
      destruct Hti as [Hn Haw].
      destruct (resume_progress c w w' p1 Hwf Hn Haw Hres) as [Hwf' Hp1].
      split; [exact Hwf'|]. intros j t' Hj.
      destruct (nth_error_replace_nth i j _ t' ts Hj) as [[Hji [Ht' [z Hz]]] | [Hji Hn']].
      * subst j t'. split.
        -- unfold in_flight. cbn [progress].
           destruct p1 as [c' | r']; [|exact I]. destruct Hp1 as [_ [H1 H2]]. now split.
        -- exists t. split; [exact Hi|]. split; [intros Hc; now elim Hc|]. intros _.
           unfold remaining. cbn [progress]. rewrite Hp.
           destruct p1 as [c' | r']; [|lia]. destruct Hp1 as [He _]. rewrite He. lia.
      * split; [exact (Hfl j t' Hn')|]. exists t'. split; [exact Hn'|].
        split; [reflexivity | intros Hc; contradiction].
    + intros H; inversion H; subst; clear H. split; [exact Hwf|]. intros j t' Hj.
      split; [exact (Hfl j t' Hj)|]. exists t'. split; [exact Hj|].
      split; [reflexivity|]. intros Hji. subst j. rewrite Hi in Hj. inversion Hj; subst t'.
      unfold remaining. rewrite Hp. lia.
  - intros H; inversion H; subst; clear H. split; [exact Hwf|]. intros j t' Hj.
    split; [exact (Hfl j t' Hj)|]. exists t'. split; [exact Hj|].
    split; [reflexivity|]. intros Hji. subst j. congruence.
Qed.

(** A schedule that gives every task as many answers as it can still
    need settles them all. *)
Lemma run_schedule_settles (sched : list nat) :
  forall ts w ts' w',
    wf (api w) ->
    (forall j t, nth_error ts j = Some t ->
                 in_flight t /\ (remaining t <= count_occ Nat.eq_dec sched j)%nat) ->
    run_schedule up sched ts w = (ts', w') ->
    forall j t', nth_error ts' j = Some t' -> exists r, progress t' = Returned r.
Proof.
  induction sched as [|i sched IH]; intros ts w ts' w' Hwf Hts; simpl.
  - intros H; inversion H; subst; clear H. intros j t' Hj.
    destruct (Hts j t' Hj) as [Hfl Hrem]. unfold in_flight in Hfl. unfold remaining in Hrem.
    destruct (progress t') as [c | r]; [|now exists r].
    simpl in Hrem. lia.
  - destruct (deliver up i ts w) as [ts1 w1] eqn:Hd.
    destruct (deliver_spec i ts ts1 w w1 Hwf (fun j t H => proj1 (Hts j t H)) Hd)
      as [Hwf1 Hts1].
    apply (IH ts1 w1 ts' w' Hwf1).
    intros j t1 Hj. destruct (Hts1 j t1 Hj) as [Hfl [t [Ht [Hne Heq]]]].
    split; [exact Hfl|]. destruct (Hts j t Ht) as [_ Hrem].
    destruct (Nat.eq_dec i j) as [Hij | Hij].
    + subst j. rewrite count_occ_cons_eq in Hrem by reflexivity.
      specialize (Heq eq_refl). lia.
    + rewrite count_occ_cons_neq in Hrem by exact Hij.
      rewrite (Hne (fun H => Hij (eq_sym H))). exact Hrem.
Qed.

(** The calls as they are started: each in flight with the whole pool to
    try. *)
Lemma start_all_spec (ops : list Operation) :
  forall w ts w',
    wf (api w) ->
    start_all ops w = (ts, w') ->
    api w' = api w /\
    forall j t, nth_error ts j = Some t ->
      in_flight t /\ (remaining t <= List.length (apiKeyPairs (api w)))%nat.
Proof.
  induction ops as [|op ops IH]; intros w ts w' Hwf; simpl.
  - intros H; inversion H; subst. split; [reflexivity|]. intros [|j] t; discriminate.
  - unfold start.
    pose proof (proj1 Hwf) as Hr. unfold in_range in Hr.
    destruct (loop_head_wf (op_url op) (op_responseType op) "get"
                (Z.of_nat (List.length (apiKeyPairs (api w)))) w Hwf ltac:(lia))
      as [kp [req [_ [_ [_ Hl]]]]].
    rewrite Hl.
    destruct (start_all ops (emit w (Requested (currentIndex (api w)) req)))
      as [ts1 w2] eqn:Hs.
    intros H; inversion H; subst; clear H.
    destruct (IH (emit w (Requested (currentIndex (api w)) req)) ts1 w' Hwf Hs)
      as [Hapi Hts1].
    split; [exact Hapi|]. intros [|j] t Hj.
    + inversion Hj; subst. unfold in_flight, remaining. cbn [progress attemptsLeft awaited].
      split; [|lia]. split; [lia|]. eexists. eexists. reflexivity.
    + exact (Hts1 j t Hj).
Qed.

End Aggregation.

Lemma start_all_length (ops : list Operation) :
  forall w, List.length (fst (start_all ops w)) = List.length ops.
Proof.
  induction ops as [|op ops IH]; intros w; simpl; [reflexivity|].
  destruct (start op w) as [t w1]. specialize (IH w1).
  destruct (start_all ops w1) as [ts w2]. simpl in *. now rewrite IH.
Qed.

Lemma run_schedule_length (up : Upstream) (sched : list nat) :
  forall ts w, List.length (fst (run_schedule up sched ts w)) = List.length ts.
Proof.
  induction sched as [|i sched IH]; intros ts w; simpl; [reflexivity|].
  destruct (deliver up i ts w) as [ts1 w1] eqn:Hd. rewrite IH.
  unfold deliver in Hd. destruct (nth_error ts i) as [t|]; [|now inversion Hd].
  destruct (progress t); [|now inversion Hd].
  destruct (resume c (answer up c) w). inversion Hd. apply replace_nth_length.
Qed.

Lemma Promise_allSettled_length (ts : list Task) :
  forall data, Promise_allSettled ts = Some data -> List.length data = List.length ts.
Proof.
  induction ts as [|t ts IH]; simpl; intros data.
  - intros H; inversion H; reflexivity.
  - destruct (settle t); [|discriminate].
    destruct (Promise_allSettled ts) as [rs|]; [|discriminate].
    intros H; inversion H; subst. simpl. now rewrite (IH rs eq_refl).
Qed.

Lemma Promise_allSettled_returned (ts : list Task) :
  (forall j t, nth_error ts j = Some t -> exists r, progress t = Returned r) ->
  exists data, Promise_allSettled ts = Some data.
Proof.
  induction ts as [|t ts IH]; intros Hall; simpl; [now exists []|].
  destruct (Hall 0%nat t eq_refl) as [r Hr]. unfold settle. rewrite Hr.
  destruct IH as [rs Hrs]; [intros j t' Hj; exact (Hall (S j) t' Hj)|].
  rewrite Hrs. eexists. reflexivity.
Qed.

(** What the record holds once the seven calls have settled: in each
    field the value its call was fulfilled with, [null] for a call that was
    rejected. Nothing is thrown and no field is lost. *)
Lemma aggregation_reports_what_settled
  (sched : list nat) (up : Upstream) (w w' : World) (sessionId version : string)
  (r : completion SessionData) :
  getRelavantSessionData sched up w sessionId version = Some (r, w') ->
  exists d p m s i c a,
    Promise_allSettled (tasks_after sched up w sessionId version)
    = Some [d; p; m; s; i; c; a] /\
    let field x := match x with Fulfilled v => v | RejectedWith _ => VNull end in
    r = Normal {| sessionDecision := field d;
                  personInfo := field p;
                  mediaList := field m;
                  watchlistScreening := field s;
                  ineData := field i;
                  curpData := field c;
                  attempts := field a |}.
Proof.
  unfold getRelavantSessionData, tasks_after.
  pose proof (start_all_length (session_calls sessionId version) w) as Hlen0.
  destruct (start_all (session_calls sessionId version) w) as [ts w1] eqn:Hs.
  pose proof (run_schedule_length up sched ts w1) as Hlen1.
  destruct (run_schedule up sched ts w1) as [ts' w2] eqn:Hrun.
  simpl in Hlen0, Hlen1. cbn [fst].
  destruct (Promise_allSettled ts') as [data|] eqn:Hall; [|discriminate].
  intros H; inversion H; subst; clear H.
  pose proof (Promise_allSettled_length ts' data Hall) as Hlen.
  rewrite Hlen1, Hlen0 in Hlen.
  destruct data as [|d [|p [|m [|s [|i [|c [|a [|x data]]]]]]]]; try discriminate.
  exists d, p, m, s, i, c, a. split; [reflexivity|].
  destruct d, p, m, s, i, c, a; reflexivity.
Qed.

(** The calls do settle, and the record is returned, when every request
    gets an HTTP answer (a response or an HTTP error response) and the
    answers keep arriving (each call gets as many as the pool has
    pairs). *)
Lemma aggregation_returns_when_answered
  (sched : list nat) (up : Upstream) (w : World) (sessionId version : string) :
  wf (api w) ->
  answers_every_request up ->
  (forall j, (j < 7)%nat ->
             (List.length (apiKeyPairs (api w)) <= count_occ Nat.eq_dec sched j)%nat) ->
  exists record w',
    getRelavantSessionData sched up w sessionId version = Some (Normal record, w').
Proof.
  unfold getRelavantSessionData.
  pose proof (start_all_length (session_calls sessionId version) w) as Hlen0.
  destruct (start_all (session_calls sessionId version) w) as [ts w1] eqn:Hs.
  destruct (run_schedule up sched ts w1) as [ts' w2] eqn:Hrun.
  simpl in Hlen0.
  intros Hwf Hup Hfair.
  destruct (start_all_spec (session_calls sessionId version) w ts w1 Hwf Hs) as [Hapi Hts].
  assert (Hret : forall j t', nth_error ts' j = Some t' -> exists r, progress t' = Returned r).
  { apply (run_schedule_settles up Hup sched ts w1 ts' w2); [now rewrite Hapi | | exact Hrun].
    intros j t Hj. destruct (Hts j t Hj) as [Hfl Hrem]. split; [exact Hfl|].
    assert (j < 7)%nat by (rewrite <- Hlen0; apply nth_error_Some; congruence).
    specialize (Hfair j H). lia. }
  destruct (Promise_allSettled_returned ts' Hret) as [data Hdata].
  rewrite Hdata. unfold collect. eexists. eexists. reflexivity.
Qed.

(** ** An aggregation with a call that meets a transport-level fault *)

Lemma nth_error_replace_nth_eq {A : Type} (i : nat) (x y : A) (l : list A) :
  nth_error l i = Some y -> nth_error (replace_nth i x l) i = Some x.
Proof.
  revert i. induction l as [|z l IH]; intros [|i]; simpl; try discriminate; auto.
Qed.

Lemma nth_error_replace_nth_neq {A : Type} (i j : nat) (x : A) (l : list A) :
  i <> j -> nth_error (replace_nth i x l) j = nth_error l j.
Proof.
  revert i j. induction l as [|z l IH]; intros [|i] [|j] Hij; simpl; try reflexivity.
  - now elim Hij.
  - apply IH. lia.
Qed.

Lemma Promise_allSettled_pending (ts : list Task) (j : nat) (t : Task) (c : Call) :
  nth_error ts j = Some t -> progress t = Awaiting c -> Promise_allSettled ts = None.
Proof.
  revert j. induction ts as [|u ts IH]; intros [|j] Hj Hp; simpl in *; try discriminate.
  - inversion Hj; subst u. unfold settle. now rewrite Hp.
  - rewrite (IH j Hj Hp). now destruct (settle u).
Qed.

(** The calls as they are started, each waiting for the answer to its
    own request. *)
Lemma start_all_waits (ops : list Operation) :
  forall w j op,
    wf (api w) ->
    nth_error ops j = Some op ->
    exists t, nth_error (fst (start_all ops w)) j = Some t /\ waits_for (op_url op) t.
Proof.
  induction ops as [|o ops IH]; intros w j op Hwf Hj; [destruct j; discriminate|].
  cbn [start_all]. unfold start.
  pose proof (proj1 Hwf) as Hr. unfold in_range in Hr.
  destruct (loop_head_wf (op_url o) (op_responseType o) "get"
              (Z.of_nat (List.length (apiKeyPairs (api w)))) w Hwf ltac:(lia))
    as [kp [req [_ [_ [Hu Hl]]]]].
  rewrite Hl.
  specialize (IH (emit w (Requested (currentIndex (api w)) req))).
  destruct (start_all ops (emit w (Requested (currentIndex (api w)) req))) as [ts w2].
  destruct j as [|j]; cbn [fst nth_error] in *.
  - inversion Hj; subst o. eexists. split; [reflexivity|].
    eexists. eexists. exists req. cbn [progress call_url attemptsLeft awaited].
    split; [reflexivity|]. split; [reflexivity|].
    split; [cbn [attemptsLeft]; lia|].
    split; [reflexivity | exact Hu].
  - exact (IH j op Hwf Hj).
Qed.

Section TransportFault.

Variable up : Upstream.
Variable url : string.
Hypothesis up_faults :
  forall n req,
    req_url req = url ->
    exists e, up n req = Rejected e /\
              forall responseType, caught_http_error responseType e = false.

(** Whatever is delivered, and to whichever call, the call that meets the
    fault is still waiting afterwards: its request has been sent again. *)
Lemma deliver_keeps_waiting (i j : nat) (ts ts' : list Task) (w w' : World) (t : Task) :
  wf (api w) ->
  nth_error ts j = Some t -> waits_for url t ->
  deliver up i ts w = (ts', w') ->
  wf (api w') /\ exists t', nth_error ts' j = Some t' /\ waits_for url t'.
Proof.
  intros Hwf Hj Hwait. unfold deliver.
  destruct (nth_error ts i) as [ti|] eqn:Hi;
    [|intros H; inversion H; subst; split; [exact Hwf | now exists t]].
  destruct (progress ti) as [c | r] eqn:Hp;
    [|intros H; inversion H; subst; split; [exact Hwf | now exists t]].
  destruct (resume c (answer up c) w) as [p1 w1] eqn:Hres.
  intros H; inversion H; subst ts' w'; clear H.
  split; [exact (resume_wf _ _ _ _ _ Hwf Hres)|].
  destruct (Nat.eq_dec i j) as [Hij | Hij].
  - subst j. rewrite Hi in Hj. inversion Hj; subst ti; clear Hj.
    destruct Hwait as [c0 [n [req [Hp0 [Hu [Hn [Haw Hreq]]]]]]].
    rewrite Hp in Hp0. inversion Hp0; subst c0; clear Hp0.
    unfold answer in Hres. rewrite Haw in Hres.
    destruct (up_faults n req Hreq) as [e [Hup He]]. rewrite Hup in Hres.
    rewrite (resume_other_error c e w (He _)) in Hres.
    destruct (loop_head_wf (call_url c) (call_responseType c) (call_method c)
                (attemptsLeft c) w Hwf ltac:(lia)) as [kp [req' [_ [_ [Hu' Hl]]]]].
    rewrite Hl in Hres. inversion Hres; subst p1 w1; clear Hres.
    eexists. split; [exact (nth_error_replace_nth_eq i _ t ts Hi)|].
    eexists. eexists. exists req'. cbn [progress call_url attemptsLeft awaited].
    split; [reflexivity|]. split; [exact Hu|]. split; [exact Hn|].
    split; [reflexivity | cbn [call_url] in Hu'; now rewrite Hu'].
  - exists t. split; [|exact Hwait].
    rewrite (nth_error_replace_nth_neq i j _ ts Hij). exact Hj.
Qed.

Lemma run_schedule_keeps_waiting (sched : list nat) :
  forall (j : nat) (ts ts' : list Task) (w w' : World) (t : Task),
    wf (api w) ->
    nth_error ts j = Some t -> waits_for url t ->
    run_schedule up sched ts w = (ts', w') ->
    Promise_allSettled ts' = None.
Proof.
  induction sched as [|i sched IH]; intros j ts ts' w w' t Hwf Hj Hwait; simpl.
  - intros H; inversion H; subst.
    destruct Hwait as [c [n [req [Hp _]]]].
    exact (Promise_allSettled_pending ts' j t c Hj Hp).
  - destruct (deliver up i ts w) as [ts1 w1] eqn:Hd.
    destruct (deliver_keeps_waiting i j ts ts1 w w1 t Hwf Hj Hwait Hd)
      as [Hwf1 [t1 [Hj1 Hwait1]]].
    exact (IH j ts1 ts' w1 w' t1 Hwf1 Hj1 Hwait1).
Qed.

(** An aggregation one of whose calls meets the fault never returns,
    however long the answers keep arriving and in whichever order. *)
Lemma aggregation_never_returns (sched : list nat) (w : World) (sessionId version : string)
  (j : nat) (op : Operation) :
  wf (api w) ->
  nth_error (session_calls sessionId version) j = Some op ->
  op_url op = url ->
  getRelavantSessionData sched up w sessionId version = None.
Proof.
  intros Hwf Hj Hurl. unfold getRelavantSessionData.
  destruct (start_all_waits (session_calls sessionId version) w j op Hwf Hj) as [t [Ht Hwait]].
  pose proof (start_all_spec (session_calls sessionId version) w) as Hspec.
  destruct (start_all (session_calls sessionId version) w) as [ts w1] eqn:Hs.
  destruct (Hspec ts w1 Hwf eq_refl) as [Hapi _].
  destruct (run_schedule up sched ts w1) as [ts' w2] eqn:Hrun.
  cbn [fst] in Ht. rewrite Hurl in Hwait.
  rewrite (run_schedule_keeps_waiting sched j ts ts' w1 w2 t); [reflexivity | | | | ];
    try assumption.
  now rewrite Hapi.
Qed.

End TransportFault.

(** C5 (the code departs from the claim). When one of the seven calls
    meets a transport-level fault each time it is tried, the aggregator
    does not return at all: that call sends its request again and again,
    [Promise.allSettled] never settles, and whatever the order and the
    number of the answers, no record is returned. The results of the six
    other calls, which have all been fulfilled, are never reported. *)
Theorem aggregation_pends_on_a_transport_fault :
  (forall sched,
      getRelavantSessionData sched person_unreachable (world [kp1; kp2]) "abc" "1.0.0"
      = None) /\
  map (fun t => match settle t with
                | Some (Fulfilled _) => "fulfilled"
                | Some (RejectedWith _) => "rejected"
                | None => "pending"
                end)
    (tasks_after round_robin person_unreachable (world [kp1; kp2]) "abc" "1.0.0")
  = [ "fulfilled"; "pending"; "fulfilled"; "fulfilled"; "fulfilled"; "fulfilled"; "fulfilled" ] /\
  requests_for "/sessions/abc/person"
    (log (snd (let (ts, w1) := start_all (session_calls "abc" "1.0.0") (world [kp1; kp2]) in
               run_schedule person_unreachable round_robin ts w1)))
  = [0; 0; 0].
Proof.
  split; [|split; vm_compute; reflexivity].
  intros sched.
  apply (aggregation_never_returns person_unreachable "/sessions/abc/person")
    with (j := 1%nat) (op := getPersonForSession "abc").
  - intros n req Hreq. unfold person_unreachable. rewrite Hreq.
    eexists. split; [reflexivity|]. intros responseType. reflexivity.
  - apply world_wf.
  - reflexivity.
  - reflexivity.
Qed.

(** The record of that run: the person field is [null], the six others
    carry what the upstream answered; the two rotations of the person call
    leave the cursor where it was. *)
Example one_failed_call_among_seven :
  option_map fst
    (getRelavantSessionData round_robin person_unavailable (world [kp1; kp2]) "abc" "1.0.0")
  = Some (Normal
      {| sessionDecision :=
           VObject [("resource", VString "/sessions/abc/decision");
                    ("verifications", VArray [VObject [("id", VString "att-1")]])];
         personInfo := VNull;
         mediaList :=
           VObject [("resource", VString "/sessions/abc/media");
                    ("verifications", VArray [VObject [("id", VString "att-1")]])];
         watchlistScreening :=
           VObject [("resource", VString "/sessions/abc/watchlist-screening");
                    ("verifications", VArray [VObject [("id", VString "att-1")]])];
         ineData :=
           VObject [("resource", VString "/sessions/abc/decision/ine-registry?version=1.0.0");
                    ("verifications", VArray [VObject [("id", VString "att-1")]])];
         curpData :=
           VObject [("resource", VString "/sessions/abc/decision/curp-registry?version=1.0.0");
                    ("verifications", VArray [VObject [("id", VString "att-1")]])];
         attempts := VArray [VObject [("id", VString "att-1")]] |}) /\
  option_map (fun r => currentIndex (api (snd r)))
    (getRelavantSessionData round_robin person_unavailable (world [kp1; kp2]) "abc" "1.0.0")
  = Some 0.
Proof. split; vm_compute; reflexivity. Qed.

(** Every call refused: all seven fields are [null]. *)
Example all_calls_failed :
  option_map fst
    (getRelavantSessionData round_robin (always_http_error 503) (world [kp1; kp2]) "abc" "1.0.0")
  = Some (Normal
      {| sessionDecision := VNull; personInfo := VNull; mediaList := VNull;
         watchlistScreening := VNull; ineData := VNull; curpData := VNull;
         attempts := VNull |}).
Proof. vm_compute. reflexivity. Qed.

(** ** Calls in flight together

    The results on rotation above are about a call that runs with no other
    call of the client in flight. The calls of one aggregation share the
    cursor: each still makes as many attempts as the pool has pairs and
    rotates after each, but a rotation made by one call moves the cursor
    for the others, so a call can go twice through the same pair. *)

Example interleaved_calls_share_the_cursor :
  let (ts, w1) := start_all (session_calls "abc" "1.0.0") (world [kp1; kp2]) in
  let w := snd (run_schedule (always_http_error 401) round_robin ts w1) in
  requests_for "/sessions/abc/decision" (log w) = [0; 1] /\
  requests_for "/sessions/abc/person" (log w) = [0; 0] /\
  rotations (log w) = 14%nat /\
  currentIndex (api w) = 0.
Proof. repeat split; vm_compute; reflexivity. Qed.

(* ===================================================================== *)

(** * Further properties of the client *)

(** ** Construction and request signing *)

(** X1. [new VeriffAPI(pairs, url)] throws a TypeError on an empty pool
    (the destructuring of the missing first pair in [init]), and on any
    other pool it leaves the cursor on the first pair, with the request
    defaults built for that pair. *)
Theorem constructor_needs_a_pair :
  (forall url, exists msg a, constructor [] url = (Throw (TypeError msg), a)) /\
  (forall kp rest url,
      exists a,
        constructor (kp :: rest) url = (Normal tt, a) /\
        apiKeyPairs a = kp :: rest /\ baseUrl a = url /\ currentIndex a = 0 /\
        getCurrentKeyPair a = Some kp /\
        veriffAPI a = Some {| baseURL := url;
                              default_headers := [("Content-Type", "application/json");
                                                  ("X-AUTH-CLIENT", apiKey kp)] |}).
Proof.
  split.
  - intros url. eexists. eexists. reflexivity.
  - intros kp rest url. eexists. split; [reflexivity|]. repeat split.
Qed.

(** X2. In every state the client can be in, a request leaves with the
    three headers [Content-Type], [X-AUTH-CLIENT] and [X-HMAC-SIGNATURE],
    the key and the signature being those of the pair under the cursor: the
    signature is the HMAC-SHA256 hex digest, under that pair's secret, of
    the identifier found in the URL. Rotation never separates the two. *)
Theorem request_is_signed_for_current_pair
  (w : World) (url responseType method : string) :
  reachable w ->
  exists kp,
    getCurrentKeyPair (api w) = Some kp /\
    prepare_request (api w) url responseType method
    = Normal (signed_request (api w) kp url responseType method).
Proof.
  intros Hw. destruct (reachable_wf w Hw) as [_ [kp [Hkp Hinst]]].
  exists kp. split; [exact Hkp|].
  unfold prepare_request, interceptor, generateSignature, signed_request.
  rewrite Hinst, Hkp. cbn [bind baseURL default_headers instance_for req_url req_baseURL
                             req_responseType req_method req_headers truthy app].
  destruct (String.eqb_spec url "") as [He | Hne]; cbn [negb]; [subst url|]; reflexivity.
Qed.

Lemma request_is_signed_for_current_pair_witness :
  exists kp,
    getCurrentKeyPair (api (set_api (world [kp1; kp2]) (rotate 1 (client [kp1; kp2])))) = Some kp /\
    prepare_request (api (set_api (world [kp1; kp2]) (rotate 1 (client [kp1; kp2]))))
      "/sessions/abc/person" "json" "get"
    = Normal (signed_request (api (set_api (world [kp1; kp2]) (rotate 1 (client [kp1; kp2]))))
                kp "/sessions/abc/person" "json" "get").
Proof.
  apply (request_is_signed_for_current_pair
           (set_api (world [kp1; kp2]) (rotate 1 (client [kp1; kp2])))).
  apply (reach_rotate (world [kp1; kp2]) (Normal tt)); [|reflexivity].
  apply (reach_new [kp1; kp2] "https://stationapi.veriff.com/v1"). reflexivity.
Defined.

(** ** The identifier that is signed *)

Lemma segment_no_slash (id rest : string) :
  ~ In "/"%char (list_ascii_of_string id) ->
  segment (id ++ String "/"%char rest) = id /\ segment id = id.
Proof.
  induction id as [|c id IH]; simpl; intros Hn.
  - split; reflexivity.
  - destruct (Ascii.eqb_spec c "/"%char) as [He | Hne].
    + exfalso. apply Hn. left. now symmetry.
    + destruct IH as [IH1 IH2]; [intros Hin; apply Hn; now right|].
      now rewrite IH1, IH2.
Qed.

Lemma append_empty_r (s : string) : (s ++ "")%string = s.
Proof. induction s as [|c s IH]; simpl; [reflexivity | now rewrite IH]. Qed.

(** X3. Behind any of the six resource prefixes, at the start of the URL,
    the identifier [extractIdFromUrl] finds is what stands between the
    prefix and the next slash, whenever that is not empty: an identifier
    with a slash in it is cut at the slash, and what follows it (further
    path, query string) plays no part. *)
Theorem extractIdFromUrl_after_prefix (prefix tail : string) :
  In prefix resource_prefixes ->
  segment tail <> "" ->
  extractIdFromUrl ("/" ++ prefix ++ "/" ++ tail) = segment tail.
Proof.
  intros Hp Hseg.
  assert (He : String.eqb (segment tail) "" = false) by now apply String.eqb_neq.
  unfold resource_prefixes in Hp. simpl in Hp.
  unfold extractIdFromUrl.
  destruct Hp as [Hp | [Hp | [Hp | [Hp | [Hp | [Hp | []]]]]]]; subst prefix;
    cbn [append regex_match match_here resource_prefixes strip_prefix Ascii.eqb Bool.eqb];
    rewrite He; reflexivity.
Qed.

Lemma extractIdFromUrl_after_prefix_witness :
  extractIdFromUrl ("/" ++ "address-media" ++ "/" ++ "m1/raw?x=1") = segment "m1/raw?x=1".
Proof.
  apply (extractIdFromUrl_after_prefix "address-media" "m1/raw?x=1").
  - simpl. tauto.
  - simpl. discriminate.
Defined.

(** X4. Each of the eleven public operations, called with an identifier
    that is not empty and has no slash, signs exactly that identifier,
    whatever the version string of the two registry checks. *)
Theorem operations_sign_their_identifier (id version : string) :
  path_segment id ->
  Forall (fun op => extractIdFromUrl (op_url op) = id) (all_operations id version).
Proof.
  intros [Hne Hns].
  assert (Hrest : forall rest, segment (id ++ String "/"%char rest) = id)
    by (intros rest; exact (proj1 (segment_no_slash id rest Hns))).
  assert (Hid : segment id = id) by exact (proj2 (segment_no_slash id "" Hns)).
  assert (Hpre : forall prefix tail, In prefix resource_prefixes -> segment tail = id ->
                   extractIdFromUrl ("/" ++ prefix ++ "/" ++ tail) = id).
  { intros prefix tail Hin Ht. rewrite <- Ht. apply extractIdFromUrl_after_prefix; [exact Hin|].
    now rewrite Ht. }
  unfold all_operations.
  repeat constructor; cbn [op_url getAttemptsForSession getSessionDecision getPersonForSession
                            getMediaForSession getWatchlistScreeningForSession getMediaForAttempt
                            getMediaById getINEDataForSession getCurpRegistryData getAddressMedia
                            getAddressMediaById].
  - apply (Hpre "sessions" (id ++ "/attempts")%string); [simpl; tauto | apply Hrest].
  - apply (Hpre "sessions" (id ++ "/decision")%string); [simpl; tauto | apply Hrest].
  - apply (Hpre "sessions" (id ++ "/person")%string); [simpl; tauto | apply Hrest].
  - apply (Hpre "sessions" (id ++ "/media")%string); [simpl; tauto | apply Hrest].
  - apply (Hpre "sessions" (id ++ "/watchlist-screening")%string); [simpl; tauto | apply Hrest].
  - apply (Hpre "attempts" (id ++ "/media")%string); [simpl; tauto | apply Hrest].
  - apply (Hpre "media" id); [simpl; tauto | exact Hid].
  - apply (Hpre "sessions"
             (id ++ "/decision/ine-registry?version=" ++ encodeURIComponent version)%string);
      [simpl; tauto | apply Hrest].
  - apply (Hpre "sessions"
             (id ++ "/decision/curp-registry?version=" ++ encodeURIComponent version)%string);
      [simpl; tauto | apply Hrest].
  - apply (Hpre "address" (id ++ "/media")%string); [simpl; tauto | apply Hrest].
  - apply (Hpre "address-media" id); [simpl; tauto | exact Hid].
Qed.

Lemma operations_sign_their_identifier_witness :
  Forall (fun op => extractIdFromUrl (op_url op) = "abc-1") (all_operations "abc-1" "1.0.0 beta").
Proof.
  apply (operations_sign_their_identifier "abc-1" "1.0.0 beta").
  split; [discriminate|]. simpl. intros H.
  repeat (destruct H as [H | H]; [discriminate|]). exact H.
Defined.

(** ** Calls that are answered *)

(** X5. A call whose first request is answered returns at once: the body
    of the response (the whole response for a stream), after one request
    under the pair under the cursor, without rotation and with the client
    left as it was. *)
Theorem answered_call_has_no_side_effect
  (fuel : nat) (up : Upstream) (url responseType method : string) (w : World)
  (response : AxiosResponse) :
  wf (api w) ->
  (forall req, up (List.length (log w)) req = Resolved response) ->
  exists kp,
    getCurrentKeyPair (api w) = Some kp /\
    performRequest (S fuel) up url responseType method w
    = Some (Normal (if String.eqb responseType "stream"
                    then value_of_response response else data response),
            {| api := api w;
               log := log w ++ [Requested (currentIndex (api w))
                                  (signed_request (api w) kp url responseType method)] |}).
Proof.
  intros Hwf Hup.
  pose proof (proj1 Hwf) as Hr. unfold in_range in Hr.
  destruct Hwf as [_ [kp [Hkp Hinst]]]. exists kp. split; [exact Hkp|].
  assert (Hreq : prepare_request (api w) url responseType method
                 = Normal (signed_request (api w) kp url responseType method)).
  { unfold prepare_request, interceptor, generateSignature, signed_request.
    rewrite Hinst, Hkp. cbn [bind baseURL default_headers instance_for req_url req_baseURL
                               req_responseType req_method req_headers truthy app].
    destruct (String.eqb_spec url "") as [He | Hne]; cbn [negb]; [subst url|]; reflexivity. }
  unfold performRequest, loop_head. rewrite Hreq.
  replace (Z.of_nat (List.length (apiKeyPairs (api w))) >? 0) with true
    by (symmetry; apply Z.gtb_lt; lia).
  rewrite run_alone_step. unfold answer. cbn [awaited]. rewrite Hup.
  unfold resume. cbn [call_responseType].
  destruct (String.eqb responseType "stream"); rewrite run_alone_returned; reflexivity.
Qed.

Lemma answered_call_has_no_side_effect_witness :
  exists kp,
    getCurrentKeyPair (api (world [kp1; kp2])) = Some kp /\
    performRequest 1 (fun _ _ => Resolved {| status := 200; data := decision; headers := [] |})
      "/sessions/abc/decision" "json" "get" (world [kp1; kp2])
    = Some (Normal decision,
            {| api := api (world [kp1; kp2]);
               log := [] ++ [Requested 0 (signed_request (api (world [kp1; kp2])) kp
                                            "/sessions/abc/decision" "json" "get")] |}).
Proof.
  apply (answered_call_has_no_side_effect 0
           (fun _ _ => Resolved {| status := 200; data := decision; headers := [] |})
           "/sessions/abc/decision" "json" "get" (world [kp1; kp2])
           {| status := 200; data := decision; headers := [] |}).
  - apply world_wf.
  - intros req. reflexivity.
Defined.

Lemma loop_head_sound (url responseType method : string) (n : Z) (w w' : World) (p : Progress) :
  loop_head url responseType method n w = (p, w') -> sound_progress responseType p.
Proof.
  unfold loop_head. destruct (n >? 0).
  - destruct (prepare_request (api w) url responseType method);
      intros H; inversion H; subst; reflexivity.
  - intros H; inversion H; subst. simpl. right. now left.
Qed.

Lemma resume_sound (c : Call) (o : outcome) (w w' : World) (p : Progress) :
  wf (api w) -> resume c o w = (p, w') -> sound_progress (call_responseType c) p.
Proof.
  intros Hwf. unfold resume. destruct o as [response | e].
  - destruct (String.eqb (call_responseType c) "stream") eqn:Hs;
      intros H; inversion H; subst; simpl; right; right; exists response; now rewrite Hs.
  - destruct (caught_http_error (call_responseType c) e).
    + destruct (switchToNextKeyPair_spec (api w) (proj1 Hwf)) as [a [Ha _]]. rewrite Ha.
      unfold stringify_error_body.
      destruct (String.eqb_spec (call_responseType c) "stream") as [Hs | Hs].
      * intros H; inversion H; subst. simpl. split; [exact Hs | eexists; reflexivity].
      * assert (Hn : exists text,
                   match e with
                   | AxiosError (Some response) => Normal (JSON_stringify_value (data response))
                   | _ => Normal VUndefined
                   end = Normal text)
          by (destruct e as [msg | [response|] | msg]; eexists; reflexivity).
        destruct Hn as [text Hn]. rewrite Hn.
        destruct (attemptsLeft c - 1 =? 0).
        -- intros H; inversion H; subst. simpl. now left.
        -- apply loop_head_sound.
    + apply loop_head_sound.
Qed.

Lemma run_alone_sound (fuel : nat) (up : Upstream) (responseType : string) :
  forall p w r w',
    wf (api w) -> sound_progress responseType p ->
    run_alone fuel up p w = Some (r, w') ->
    sound_progress responseType (Returned r).
Proof.
  induction fuel as [|fuel IH]; intros p w r w' Hwf Hp; destruct p as [c | r0]; simpl;
    try discriminate; try (intros H; inversion H; subst; exact Hp).
  destruct (resume c (answer up c) w) as [p1 w1] eqn:Hres.
  simpl in Hp. subst responseType.
  apply (IH p1 w1 r w'); [exact (resume_wf _ _ _ _ _ Hwf Hres) |].
  exact (resume_sound _ _ _ _ _ Hwf Hres).
Qed.

(** X6. On a client in a state it can reach, whatever the upstream
    answers, a public operation is rejected only with a TypeError, and
    only four of the eleven can be rejected: [getAttemptsForSession] and
    [getPersonForSession], which read a property of the answer without
    testing it, and [getMediaById] and [getAddressMediaById], which expect
    a stream. The seven others always end with a value. *)
Theorem operations_reject_only_with_a_TypeError
  (fuel : nat) (up : Upstream) (w w' : World) (id version : string)
  (op : Operation) (e : JSError) :
  reachable w ->
  In op (all_operations id version) ->
  call fuel up op w = Some (Throw e, w') ->
  (exists msg, e = TypeError msg) /\ In op (fallible_operations id).
Proof.
  intros Hw Hin. unfold call, performRequest.
  destruct (loop_head (op_url op) (op_responseType op) "get" _ w) as [p w1] eqn:Hl.
  destruct (run_alone fuel up p w1) as [[r0 w2]|] eqn:Hrun; [|discriminate].
  intros H; inversion H; subst; clear H.
  pose proof (reachable_wf w Hw) as Hwf.
  assert (Hs : sound_progress (op_responseType op) (Returned r0)).
  { apply (run_alone_sound fuel up (op_responseType op) p w1 r0 w').
    - rewrite (loop_head_api _ _ _ _ _ _ _ Hl). exact Hwf.
    - exact (loop_head_sound _ _ _ _ _ _ _ Hl).
    - exact Hrun. }
  rename H1 into Hr.
  assert (Hprop : forall v k e', get_prop v k = Throw e' -> exists msg, e' = TypeError msg).
  { intros v k e'. destruct v; simpl; intros H; inversion H; eexists; reflexivity. }
  unfold all_operations, fallible_operations in *. simpl in Hin.
  destruct r0 as [v | e0]; cbn [bind sound_progress] in *.
  - assert (Hmedia : op_responseType op = "stream" ->
                     exists v', media_with_contentType v = Normal v').
    { intros Hst. rewrite Hst in Hs. destruct Hs as [Hv | [Hv | [resp Hv]]]; subst v;
        eexists; reflexivity. }
    repeat (destruct Hin as [Hin | Hin];
            [ subst op; cbn [op_after op_responseType getAttemptsForSession getSessionDecision
                               getPersonForSession getMediaForSession
                               getWatchlistScreeningForSession getMediaForAttempt getMediaById
                               getINEDataForSession getCurpRegistryData getAddressMedia
                               getAddressMediaById] in * | ]);
      try contradiction; try discriminate;
      try (destruct (Hmedia eq_refl) as [v' Hv']; rewrite Hv' in Hr; discriminate).
    + split; [exact (Hprop _ _ _ Hr) | simpl; tauto].
    + split; [exact (Hprop _ _ _ Hr) | simpl; tauto].
  - inversion Hr; subst e0; clear Hr. destruct Hs as [Hst Hmsg].
    split; [exact Hmsg|].
    repeat (destruct Hin as [Hin | Hin];
            [ subst op; cbn [op_responseType getAttemptsForSession getSessionDecision
                               getPersonForSession getMediaForSession
                               getWatchlistScreeningForSession getMediaForAttempt getMediaById
                               getINEDataForSession getCurpRegistryData getAddressMedia
                               getAddressMediaById] in Hst | ]);
      try contradiction; try discriminate; simpl; tauto.
Qed.

Lemma operations_reject_only_with_a_TypeError_witness :
  (exists msg, TypeError "Converting circular structure to JSON" = TypeError msg) /\
  In (getMediaById "m1") (fallible_operations "m1").
Proof.
  eapply (operations_reject_only_with_a_TypeError 2 (always_http_error 404)
            (world [kp1; kp2]) _ "m1" "1.0.0" (getMediaById "m1")).
  - apply (reach_new [kp1; kp2] "https://stationapi.veriff.com/v1"). reflexivity.
  - simpl. tauto.
  - vm_compute. reflexivity.
Defined.



(** * Further properties of the signature verification *)

Lemma init_keeps_pool (this : VeriffAPI) : apiKeyPairs (snd (init this)) = apiKeyPairs this.
Proof. unfold init. destruct (getCurrentKeyPair this); reflexivity. Qed.

Lemma rotate_keeps_pool (n : nat) : forall this, apiKeyPairs (rotate n this) = apiKeyPairs this.
Proof.
  induction n as [|n IH]; intros this; [reflexivity|].
  rewrite rotate_S, IH. unfold switchToNextKeyPair. now rewrite init_keeps_pool.
Qed.

Lemma isSignatureValid_cases (this : VeriffAPI) (signature : string) (payload : value) :
  match digested_text payload with
  | None => exists msg, isSignatureValid this signature payload = Throw (TypeError msg)
  | Some text =>
      exists b,
        isSignatureValid this signature payload = Normal b /\
        (b = true <->
         exists kp, In kp (apiKeyPairs this) /\
                    createHmac_sha256_hex (sharedSecretKey kp) (bytes_of_string text) = signature)
  end.
Proof.
  unfold isSignatureValid, JSON_stringify_value, digested_text.
  destruct payload as [| | b | n | s | l | ps | bs];
    cbn [typeof String.eqb Ascii.eqb Bool.eqb];
    try (eexists; reflexivity);
    try (cbn [JSON_stringify Buffer_from bind]; eexists; split;
         [reflexivity | apply any_digest_matches_iff]).
Qed.

(** X8. What [isSignatureValid] does on every kind of payload. On
    [undefined], a boolean or a number it throws a TypeError. On a string,
    or on a value whose [typeof] is ["object"], it returns a boolean, which
    is [true] exactly when the signature is the HMAC-SHA256 hex digest of
    the bytes of the text (the string, or the compact JSON text of the
    value) under the secret of some pair of the pool. The result is the
    same after any number of rotations. *)
Theorem isSignatureValid_characterised (this : VeriffAPI) (signature : string) (payload : value) :
  match digested_text payload with
  | None => exists msg, isSignatureValid this signature payload = Throw (TypeError msg)
  | Some text =>
      exists b,
        isSignatureValid this signature payload = Normal b /\
        (b = true <->
         exists kp, In kp (apiKeyPairs this) /\
                    createHmac_sha256_hex (sharedSecretKey kp) (bytes_of_string text) = signature)
  end /\
  forall n, isSignatureValid (rotate n this) signature payload
            = isSignatureValid this signature payload.
Proof.
  split; [apply isSignatureValid_cases|].
  intros n. apply isSignatureValid_ignores_cursor. apply rotate_keeps_pool.
Qed.

(** ** The shape of an accepted signature *)

Lemma round_length (s : list Z) (kw : Z * Z) :
  List.length s = 8%nat -> List.length (SHA256.round s kw) = 8%nat.
Proof.
  intros H. destruct s as [|a [|b [|c [|d [|e [|f [|g [|h [|x s]]]]]]]]]; try discriminate.
  reflexivity.
Qed.

Lemma fold_round_length (l : list (Z * Z)) :
  forall s, List.length s = 8%nat -> List.length (fold_left SHA256.round l s) = 8%nat.
Proof.
  induction l as [|kw l IH]; intros s Hs; simpl; [exact Hs|].
  apply IH. now apply round_length.
Qed.

Lemma compress_length (h block : list Z) :
  List.length h = 8%nat -> List.length (SHA256.compress h block) = 8%nat.
Proof.
  intros Hh. unfold SHA256.compress.
  rewrite length_map, length_combine, fold_round_length by exact Hh. rewrite Hh. reflexivity.
Qed.

Lemma fold_compress_length (blocks : list (list Z)) :
  forall h, List.length h = 8%nat -> List.length (fold_left SHA256.compress blocks h) = 8%nat.
Proof.
  induction blocks as [|b blocks IH]; intros h Hh; simpl; [exact Hh|].
  apply IH. now apply compress_length.
Qed.

Lemma be_bytes_bytes (n : nat) (x : Z) :
  List.length (SHA256.be_bytes n x) = n /\
  Forall (fun b => 0 <= b < 256) (SHA256.be_bytes n x).
Proof.
  unfold SHA256.be_bytes. split; [now rewrite length_map, length_seq|].
  apply Forall_map. apply Forall_forall. intros i _.
  change 255 with (Z.ones 8). rewrite Z.land_ones by lia.
  apply Z.mod_pos_bound. reflexivity.
Qed.

(** A SHA-256 digest, and so an HMAC, is 32 bytes. *)
Lemma digest_bytes (msg : list Z) :
  List.length (SHA256.digest msg) = 32%nat /\
  Forall (fun b => 0 <= b < 256) (SHA256.digest msg).
Proof.
  unfold SHA256.digest.
  set (p := SHA256.pad msg).
  pose proof (fold_compress_length (SHA256.chunks (List.length p) 64 p) SHA256.H0 eq_refl) as Hl.
  destruct (fold_left SHA256.compress (SHA256.chunks (List.length p) 64 p) SHA256.H0)
    as [|a [|b [|c [|d [|e [|f [|g [|h [|x s]]]]]]]]]; try discriminate.
  split.
  - cbn [flat_map]. rewrite !length_app.
    repeat rewrite (proj1 (be_bytes_bytes 4 _)). reflexivity.
  - cbn [flat_map]. repeat (apply Forall_app; split); try apply be_bytes_bytes. constructor.
Qed.

Lemma hex_digit_lower (d : Z) : 0 <= d < 16 -> lower_hex_digit (hex_digit d) = true.
Proof.
  intros Hd.
  assert (H : d = 0 \/ d = 1 \/ d = 2 \/ d = 3 \/ d = 4 \/ d = 5 \/ d = 6 \/ d = 7 \/
              d = 8 \/ d = 9 \/ d = 10 \/ d = 11 \/ d = 12 \/ d = 13 \/ d = 14 \/ d = 15) by lia.
  repeat (destruct H as [H | H]; [subst d; reflexivity|]). subst d. reflexivity.
Qed.

Lemma hex_of_bytes_shape (bs : list Z) :
  Forall (fun b => 0 <= b < 256) bs ->
  String.length (hex_of_bytes bs) = (2 * List.length bs)%nat /\
  all_chars lower_hex_digit (hex_of_bytes bs) = true.
Proof.
  induction 1 as [|b bs Hb _ [IH1 IH2]]; [split; reflexivity|].
  cbn [hex_of_bytes fold_right]. change (fold_right _ "" bs) with (hex_of_bytes bs).
  unfold hex_byte. cbn [append String.length all_chars List.length]. rewrite IH1, IH2.
  split; [lia|].
  rewrite !hex_digit_lower; [reflexivity | |].
  - change 15 with (Z.ones 4). rewrite Z.land_ones by lia. apply Z.mod_pos_bound. reflexivity.
  - rewrite Z.shiftr_div_pow2 by lia. change (2 ^ 4) with 16.
    split; [apply Z.div_pos; lia | apply Z.div_lt_upper_bound; lia].
Qed.

Lemma createHmac_shape (key : string) (msg : list byte) :
  String.length (createHmac_sha256_hex key msg) = 64%nat /\
  all_chars lower_hex_digit (createHmac_sha256_hex key msg) = true.
Proof.
  unfold createHmac_sha256_hex, SHA256.hmac.
  match goal with
  | |- context [hex_of_bytes (SHA256.digest ?m)] =>
      destruct (digest_bytes m) as [Hl Hb];
      destruct (hex_of_bytes_shape (SHA256.digest m) Hb) as [H1 H2]
  end.
  rewrite H1, Hl, H2. split; reflexivity.
Qed.

(** X9. A signature that [isSignatureValid] accepts is made of 64
    lower-case hexadecimal digits. The comparison is exact, so a signature
    of another length or with an upper-case digit is never accepted,
    whatever the payload and the pool. *)
Theorem accepted_signature_is_lower_hex (this : VeriffAPI) (signature : string) (payload : value) :
  isSignatureValid this signature payload = Normal true ->
  String.length signature = 64%nat /\ all_chars lower_hex_digit signature = true.
Proof.
  intros Hv.
  pose proof (isSignatureValid_cases this signature payload) as Hc.
  destruct (digested_text payload) as [text|].
  - destruct Hc as [b [Hb Hiff]]. rewrite Hv in Hb. inversion Hb; subst b.
    destruct (proj1 Hiff eq_refl) as [kp [_ Hd]]. subst signature.
    apply createHmac_shape.
  - destruct Hc as [msg Hc]. rewrite Hv in Hc. discriminate.
Qed.

Lemma accepted_signature_is_lower_hex_witness :
  String.length (createHmac_sha256_hex "s2" (bytes_of_string address_event_json)) = 64%nat /\
  all_chars lower_hex_digit (createHmac_sha256_hex "s2" (bytes_of_string address_event_json))
  = true.
Proof.
  apply (accepted_signature_is_lower_hex (client [kp1; kp2])
           (createHmac_sha256_hex "s2" (bytes_of_string address_event_json)) address_event).
  vm_compute. reflexivity.
Defined.

(* ===================================================================== *)

(** * Further properties of the aggregator *)

Lemma prepare_request_signed (this : VeriffAPI) (url responseType method : string) :
  wf this ->
  exists kp,
    getCurrentKeyPair this = Some kp /\
    prepare_request this url responseType method
    = Normal (signed_request this kp url responseType method).
Proof.
  intros [_ [kp [Hkp Hinst]]]. exists kp. split; [exact Hkp|].
  unfold prepare_request, interceptor, generateSignature, signed_request.
  rewrite Hinst, Hkp. cbn [bind baseURL default_headers instance_for req_url req_baseURL
                             req_responseType req_method req_headers truthy app].
  destruct (String.eqb_spec url "") as [He | Hne]; cbn [negb]; [subst url|]; reflexivity.
Qed.

Lemma start_all_log (ops : list Operation) :
  forall w kp,
    wf (api w) -> getCurrentKeyPair (api w) = Some kp ->
    api (snd (start_all ops w)) = api w /\
    log (snd (start_all ops w))
    = log w ++ map (fun op => Requested (currentIndex (api w))
                                (signed_request (api w) kp (op_url op) (op_responseType op) "get"))
                   ops /\
    List.length (fst (start_all ops w)) = List.length ops /\
    Forall (fun t => exists c, progress t = Awaiting c) (fst (start_all ops w)).
Proof.
  induction ops as [|op ops IH]; intros w kp Hwf Hkp.
  - simpl. rewrite app_nil_r. repeat split. constructor.
  - cbn [start_all]. unfold start, loop_head.
    pose proof (proj1 Hwf) as Hr. unfold in_range in Hr.
    replace (Z.of_nat (List.length (apiKeyPairs (api w))) >? 0) with true
      by (symmetry; apply Z.gtb_lt; lia).
    destruct (prepare_request_signed (api w) (op_url op) (op_responseType op) "get" Hwf)
      as [kp' [Hkp' Hreq]].
    rewrite Hkp in Hkp'. inversion Hkp'; subst kp'. rewrite Hreq.
    set (w1 := emit w (Requested (currentIndex (api w))
                         (signed_request (api w) kp (op_url op) (op_responseType op) "get"))).
    destruct (IH w1 kp Hwf Hkp) as [Ha [Hl [Hn Hf]]].
    destruct (start_all ops w1) as [ts w2]. cbn [fst snd] in *.
    split; [exact Ha|]. split; [|split].
    + rewrite Hl. unfold w1. cbn [log emit api map]. rewrite <- app_assoc. reflexivity.
    + simpl. now rewrite Hn.
    + constructor; [eexists; reflexivity | exact Hf].
Qed.

(** X10. [getRelavantSessionData] first sends its seven requests, in the
    order decision, person, media list, watchlist, INE registry, CURP
    registry, attempts, before any answer is handled: all seven leave under
    the pair that is under the cursor when the aggregation starts, each
    with that pair's key and signature, and all seven calls are then
    awaiting. The client itself is not touched. *)
Theorem aggregation_sends_seven_requests_first (w : World) (sessionId version : string) :
  wf (api w) ->
  exists kp,
    getCurrentKeyPair (api w) = Some kp /\
    api (snd (start_all (session_calls sessionId version) w)) = api w /\
    log (snd (start_all (session_calls sessionId version) w))
    = log w ++ map (fun url => Requested (currentIndex (api w))
                                 (signed_request (api w) kp url "json" "get"))
                   [ "/sessions/" ++ sessionId ++ "/decision";
                     "/sessions/" ++ sessionId ++ "/person";
                     "/sessions/" ++ sessionId ++ "/media";
                     "/sessions/" ++ sessionId ++ "/watchlist-screening";
                     "/sessions/" ++ sessionId ++ "/decision/ine-registry?version="
                       ++ encodeURIComponent version;
                     "/sessions/" ++ sessionId ++ "/decision/curp-registry?version="
                       ++ encodeURIComponent version;
                     "/sessions/" ++ sessionId ++ "/attempts" ]%string /\
    List.length (fst (start_all (session_calls sessionId version) w)) = 7%nat /\
    Forall (fun t => exists c, progress t = Awaiting c)
      (fst (start_all (session_calls sessionId version) w)).
Proof.
  intros Hwf. destruct (getCurrentKeyPair_in_range (api w) (proj1 Hwf)) as [kp Hkp].
  exists kp. split; [exact Hkp|].
  destruct (start_all_log (session_calls sessionId version) w kp Hwf Hkp) as [Ha [Hl [Hn Hf]]].
  split; [exact Ha|]. split; [exact Hl|]. split; [exact Hn | exact Hf].
Qed.

Lemma aggregation_sends_seven_requests_first_witness :
  exists kp,
    getCurrentKeyPair (api (world [kp1; kp2])) = Some kp /\
    api (snd (start_all (session_calls "abc" "1.0.0") (world [kp1; kp2]))) = api (world [kp1; kp2]) /\
    log (snd (start_all (session_calls "abc" "1.0.0") (world [kp1; kp2])))
    = [] ++ map (fun url => Requested 0 (signed_request (api (world [kp1; kp2])) kp url "json" "get"))
              [ "/sessions/abc/decision"; "/sessions/abc/person"; "/sessions/abc/media";
                "/sessions/abc/watchlist-screening";
                "/sessions/abc/decision/ine-registry?version=1.0.0";
                "/sessions/abc/decision/curp-registry?version=1.0.0";
                "/sessions/abc/attempts" ] /\
    List.length (fst (start_all (session_calls "abc" "1.0.0") (world [kp1; kp2]))) = 7%nat /\
    Forall (fun t => exists c, progress t = Awaiting c)
      (fst (start_all (session_calls "abc" "1.0.0") (world [kp1; kp2]))).
Proof.
  apply (aggregation_sends_seven_requests_first (world [kp1; kp2]) "abc" "1.0.0").
  apply world_wf.
Defined.

(** ** An aggregation in which every request is refused *)

Lemma replace_nth_Forall {A : Type} (P : A -> Prop) (i : nat) (x : A) (l : list A) :
  Forall P l -> P x -> Forall P (replace_nth i x l).
Proof.
  intros Hl Hx. revert i. induction Hl as [|y l Hy Hl IH]; intros [|i]; simpl;
    constructor; auto.
Qed.

Lemma replace_nth_sum (f : Task -> nat) (i : nat) (t t' : Task) (ts : list Task) :
  nth_error ts i = Some t ->
  (fold_right (fun u n => f u + n) 0 (replace_nth i t' ts) + f t
   = fold_right (fun u n => f u + n) 0 ts + f t')%nat.
Proof.
  revert i. induction ts as [|u ts IH]; intros [|i]; simpl; try discriminate.
  - intros H; inversion H; subst. lia.
  - intros H. specialize (IH i H). lia.
Qed.

Lemma wf_ext (a b : VeriffAPI) :
  wf a -> wf b ->
  apiKeyPairs b = apiKeyPairs a -> baseUrl b = baseUrl a -> currentIndex b = currentIndex a ->
  b = a.
Proof.
  intros [_ [kp [Hkp Hi]]] [_ [kp' [Hkp' Hi']]] Hp Hb Hc.
  assert (kp' = kp) by (unfold getCurrentKeyPair in *; rewrite Hc, Hp in Hkp'; congruence).
  subst kp'. unfold instance_for in *. rewrite Hb in Hi'.
  destruct a, b; simpl in *. congruence.
Qed.

Section RefusedAggregation.

Variable up : Upstream.
Hypothesis up_refuses : answers_http_error up.

(** One delivery in such a batch: nothing happens to a task that has
    returned; a task in flight rotates the pool once and either returns
    [null] or sends its next request. *)
Lemma deliver_refused (i : nat) (ts ts' : list Task) (w w' : World) :
  wf (api w) ->
  Forall refused_task ts ->
  deliver up i ts w = (ts', w') ->
  wf (api w') /\
  apiKeyPairs (api w') = apiKeyPairs (api w) /\ baseUrl (api w') = baseUrl (api w) /\
  Forall refused_task ts' /\
  (rotations (log w') + total_remaining ts' = rotations (log w) + total_remaining ts)%nat /\
  (List.length (attempted (log w')) + rotations (log w) + pending ts
   = List.length (attempted (log w)) + rotations (log w') + pending ts')%nat /\
  exists d, rotations (log w') = (rotations (log w) + d)%nat /\
            currentIndex (api w')
            = (currentIndex (api w) + Z.of_nat d)
              mod Z.of_nat (List.length (apiKeyPairs (api w))).
Proof.
  intros Hwf Hts. unfold deliver.
  assert (Hstay : wf (api w) /\
                  apiKeyPairs (api w) = apiKeyPairs (api w) /\ baseUrl (api w) = baseUrl (api w) /\
                  Forall refused_task ts /\
                  (rotations (log w) + total_remaining ts
                   = rotations (log w) + total_remaining ts)%nat /\
                  (List.length (attempted (log w)) + rotations (log w) + pending ts
                   = List.length (attempted (log w)) + rotations (log w) + pending ts)%nat /\
                  exists d, rotations (log w) = (rotations (log w) + d)%nat /\
                            currentIndex (api w)
                            = (currentIndex (api w) + Z.of_nat d)
                              mod Z.of_nat (List.length (apiKeyPairs (api w)))).
  { split; [exact Hwf|]. split; [reflexivity|]. split; [reflexivity|]. split; [exact Hts|].
    split; [reflexivity|]. split; [reflexivity|]. exists 0%nat. split; [lia|].
    rewrite Z.add_0_r. symmetry. apply Z.mod_small. exact (proj1 Hwf). }
  destruct (nth_error ts i) as [t|] eqn:Hi; [|intros H; inversion H; subst; exact Hstay].
  destruct (progress t) as [c | r] eqn:Hp; [|intros H; inversion H; subst; exact Hstay].
  clear Hstay.
  pose proof (proj1 (Forall_forall _ _) Hts t (nth_error_In _ _ Hi)) as [Hfl [Hdata [_ Hq]]].
  specialize (Hdata c Hp).
  unfold in_flight in Hfl. rewrite Hp in Hfl. destruct Hfl as [Hn [n [req Haw]]].
  unfold answer. rewrite Haw.
  destruct (up_refuses n req) as [e [Hup He]]. rewrite Hup.
  destruct (resume_http_error c e w (proj1 Hwf) Hdata He) as [a [Ha Hres]]. rewrite Hres.
  destruct (switchToNextKeyPair_spec (api w) (proj1 Hwf)) as [a' [Ha' [Hwfa [Hpa [Hba Hia]]]]].
  rewrite Ha in Ha'. inversion Ha'; subst a'; clear Ha'.
  set (w1 := emit (set_api w a) (Rotated (currentIndex a))).
  assert (Hrot1 : rotations (log w1) = (rotations (log w) + 1)%nat).
  { unfold w1. cbn [log emit set_api]. rewrite rotations_app. reflexivity. }
  assert (Hatt1 : attempted (log w1) = attempted (log w)).
  { unfold w1. cbn [log emit set_api]. rewrite attempted_app. simpl. apply app_nil_r. }
  destruct (Z.eqb_spec (attemptsLeft c - 1) 0) as [Hz | Hz].
  - intros H; inversion H; subst ts' w'; clear H.
    set (t' := {| progress := Returned (Normal VNull); after := after t |}).
    pose proof (replace_nth_sum remaining i t t' ts Hi) as Hsum.
    pose proof (replace_nth_sum
                  (fun u => match progress u with Awaiting _ => 1%nat | Returned _ => 0%nat end)
                  i t t' ts Hi) as Hpend.
    assert (Hrt : remaining t = Z.to_nat (attemptsLeft c)) by (unfold remaining; now rewrite Hp).
    assert (Hrt' : remaining t' = 0%nat) by reflexivity.
    rewrite Hrt, Hrt' in Hsum. cbn [progress t'] in Hpend. rewrite Hp in Hpend.
    split; [exact Hwfa|]. split; [exact Hpa|]. split; [exact Hba|]. split.
    { apply replace_nth_Forall; [exact Hts|]. unfold refused_task, in_flight. cbn [progress after t'].
      split; [exact I|]. split; [intros c' Hc'; discriminate|].
      split; [intros r Hr; now inversion Hr | exact Hq]. }
    split; [unfold total_remaining; rewrite Hrot1; lia|].
    split; [unfold pending; rewrite Hrot1, Hatt1; lia|].
    exists 1%nat. split; [exact Hrot1 | exact Hia].
  - destruct (loop_head_wf (call_url c) (call_responseType c) (call_method c)
                (attemptsLeft c - 1) w1 Hwfa ltac:(lia)) as [kp [req' [_ [_ [_ Hl]]]]].
    rewrite Hl. intros H; inversion H; subst ts' w'; clear H.
    match goal with
    | |- context [replace_nth i ?x ts] => set (t' := x)
    end.
    pose proof (replace_nth_sum remaining i t t' ts Hi) as Hsum.
    pose proof (replace_nth_sum
                  (fun u => match progress u with Awaiting _ => 1%nat | Returned _ => 0%nat end)
                  i t t' ts Hi) as Hpend.
    assert (Hrt : remaining t = Z.to_nat (attemptsLeft c)) by (unfold remaining; now rewrite Hp).
    assert (Hrt' : remaining t' = Z.to_nat (attemptsLeft c - 1)) by reflexivity.
    rewrite Hrt, Hrt' in Hsum. cbn [progress t'] in Hpend. rewrite Hp in Hpend.
    cbn [api log emit]. fold w1.
    split; [exact Hwfa|]. split; [exact Hpa|]. split; [exact Hba|]. split.
    { apply replace_nth_Forall; [exact Hts|]. unfold refused_task, in_flight.
      cbn [progress after t' attemptsLeft awaited].
      split; [split; [lia | eexists; eexists; reflexivity]|].
      split; [intros c' Hc'; inversion Hc'; subst c'; exact Hdata|].
      split; [intros r Hr; discriminate | exact Hq]. }
    rewrite rotations_app, attempted_app, length_app. cbn [rotations attempted List.length].
    rewrite Hrot1, Hatt1.
    split; [unfold total_remaining; lia|].
    split; [unfold pending; lia|].
    exists 1%nat. split; [lia | exact Hia].
Qed.

Lemma run_schedule_refused (sched : list nat) :
  forall ts w ts' w',
    wf (api w) ->
    Forall refused_task ts ->
    run_schedule up sched ts w = (ts', w') ->
    wf (api w') /\
    apiKeyPairs (api w') = apiKeyPairs (api w) /\ baseUrl (api w') = baseUrl (api w) /\
    Forall refused_task ts' /\
    (rotations (log w') + total_remaining ts' = rotations (log w) + total_remaining ts)%nat /\
    (List.length (attempted (log w')) + rotations (log w) + pending ts
     = List.length (attempted (log w)) + rotations (log w') + pending ts')%nat /\
    exists d, rotations (log w') = (rotations (log w) + d)%nat /\
              currentIndex (api w')
              = (currentIndex (api w) + Z.of_nat d)
                mod Z.of_nat (List.length (apiKeyPairs (api w))).
Proof.
  induction sched as [|i sched IH]; intros ts w ts' w' Hwf Hts; simpl.
  - intros H; inversion H; subst.
    split; [exact Hwf|]. split; [reflexivity|]. split; [reflexivity|]. split; [exact Hts|].
    split; [reflexivity|]. split; [reflexivity|].
    exists 0%nat. split; [lia|]. rewrite Z.add_0_r. symmetry. apply Z.mod_small.
    exact (proj1 Hwf).
  - destruct (deliver up i ts w) as [ts1 w1] eqn:Hd.
    destruct (deliver_refused i ts ts1 w w1 Hwf Hts Hd)
      as [Hwf1 [Hp1 [Hb1 [Hts1 [Hr1 [Ha1 [d1 [Hd1 Hi1]]]]]]]].
    intros Hrun.
    destruct (IH ts1 w1 ts' w' Hwf1 Hts1 Hrun)
      as [Hwf2 [Hp2 [Hb2 [Hts2 [Hr2 [Ha2 [d2 [Hd2 Hi2]]]]]]]].
    split; [exact Hwf2|]. split; [congruence|]. split; [congruence|]. split; [exact Hts2|].
    split; [lia|]. split; [lia|].
    exists (d1 + d2)%nat. split; [lia|].
    rewrite Hi2, Hp1, Hi1, Zplus_mod_idemp_l. f_equal. lia.
Qed.

End RefusedAggregation.

Lemma answers_http_error_every_request (up : Upstream) :
  answers_http_error up -> answers_every_request up.
Proof. intros H n req. destruct (H n req) as [e [Hup He]]. now rewrite Hup. Qed.

Lemma start_all_refused (ops : list Operation) :
  Forall (fun op => String.eqb (op_responseType op) "stream" = false /\
                    (op_after op VNull = Normal VNull \/
                     exists e, op_after op VNull = Throw e)) ops ->
  forall w,
    wf (api w) ->
    Forall refused_task (fst (start_all ops w)) /\
    total_remaining (fst (start_all ops w))
    = (List.length ops * List.length (apiKeyPairs (api w)))%nat /\
    pending (fst (start_all ops w)) = List.length ops.
Proof.
  induction 1 as [|op ops [Hdata Hq] _ IH]; intros w Hwf.
  - simpl. split; [constructor | split; reflexivity].
  - cbn [start_all]. unfold start.
    pose proof (proj1 Hwf) as Hr. unfold in_range in Hr.
    destruct (loop_head_wf (op_url op) (op_responseType op) "get"
                (Z.of_nat (List.length (apiKeyPairs (api w)))) w Hwf ltac:(lia))
      as [kp [req [_ [_ [_ Hl]]]]].
    rewrite Hl.
    destruct (IH (emit w (Requested (currentIndex (api w)) req)) Hwf) as [Hf [Ht Hp]].
    destruct (start_all ops (emit w (Requested (currentIndex (api w)) req))) as [ts w2].
    cbn [fst api emit] in *. split; [|split].
    + constructor; [|exact Hf]. unfold refused_task, in_flight.
      cbn [progress after attemptsLeft awaited].
      split; [split; [lia | eexists; eexists; reflexivity]|].
      split; [intros c' Hc'; inversion Hc'; subst c'; exact Hdata|].
      split; [intros r Hr'; discriminate | exact Hq].
    + unfold total_remaining in *. cbn [fold_right List.length]. rewrite Ht.
      unfold remaining. cbn [progress attemptsLeft]. rewrite Nat2Z.id. lia.
    + unfold pending in *. cbn [fold_right List.length progress]. rewrite Hp. reflexivity.
Qed.

Lemma returned_tasks (ts : list Task) :
  (forall j t, nth_error ts j = Some t -> exists r, progress t = Returned r) ->
  total_remaining ts = 0%nat /\ pending ts = 0%nat.
Proof.
  induction ts as [|t ts IH]; intros Hall; [split; reflexivity|].
  destruct (Hall 0%nat t eq_refl) as [r Hr].
  destruct IH as [H1 H2]; [intros j u Hj; exact (Hall (S j) u Hj)|].
  unfold total_remaining, pending in *. cbn [fold_right]. rewrite H1, H2.
  unfold remaining. rewrite Hr. split; reflexivity.
Qed.

Lemma refused_tasks_settle_null (ts : list Task) :
  Forall refused_task ts ->
  (forall j t, nth_error ts j = Some t -> exists r, progress t = Returned r) ->
  exists data, Promise_allSettled ts = Some data /\
               map extractValue data = repeat VNull (List.length ts).
Proof.
  induction 1 as [|t ts [_ [_ [Hnull Hq]]] _ IH]; intros Hall; [exists []; split; reflexivity|].
  destruct (Hall 0%nat t eq_refl) as [r Hr].
  destruct IH as [data [Hd Hm]]; [intros j u Hj; exact (Hall (S j) u Hj)|].
  cbn [Promise_allSettled]. unfold settle. rewrite Hr, Hd.
  rewrite (Hnull r Hr). cbn [bind].
  eexists. split; [reflexivity|]. cbn [map repeat List.length]. rewrite Hm. f_equal.
  destruct Hq as [Hq | [e Hq]]; rewrite Hq; reflexivity.
Qed.

Lemma session_calls_after_null (sessionId version : string) :
  Forall (fun op => String.eqb (op_responseType op) "stream" = false /\
                    (op_after op VNull = Normal VNull \/
                     exists e, op_after op VNull = Throw e))
    (session_calls sessionId version).
Proof.
  unfold session_calls.
  apply Forall_cons; [split; [reflexivity | left; reflexivity]|].
  apply Forall_cons; [split; [reflexivity | right; eexists; reflexivity]|].
  apply Forall_cons; [split; [reflexivity | left; reflexivity]|].
  apply Forall_cons; [split; [reflexivity | left; reflexivity]|].
  apply Forall_cons; [split; [reflexivity | left; reflexivity]|].
  apply Forall_cons; [split; [reflexivity | left; reflexivity]|].
  apply Forall_cons; [split; [reflexivity | right; eexists; reflexivity]|].
  apply Forall_nil.
Qed.

Lemma refused_aggregation
  (sched : list nat) (up : Upstream) (w : World) (sessionId version : string) :
  wf (api w) ->
  answers_http_error up ->
  (forall j, (j < 7)%nat ->
             (List.length (apiKeyPairs (api w)) <= count_occ Nat.eq_dec sched j)%nat) ->
  exists w',
    getRelavantSessionData sched up w sessionId version = Some (Normal no_data, w') /\
    rotations (log w') = (rotations (log w) + 7 * List.length (apiKeyPairs (api w)))%nat /\
    List.length (attempted (log w'))
    = (List.length (attempted (log w)) + 7 * List.length (apiKeyPairs (api w)))%nat /\
    api w' = api w.
Proof.
  intros Hwf Hup Hfair. unfold getRelavantSessionData.
  destruct (getCurrentKeyPair_in_range (api w) (proj1 Hwf)) as [kp Hkp].
  destruct (start_all_log (session_calls sessionId version) w kp Hwf Hkp)
    as [Hapi0 [Hlog0 [Hlen0 _]]].
  destruct (start_all_refused (session_calls sessionId version)
              (session_calls_after_null sessionId version) w Hwf)
    as [Href0 [Htot0 Hpen0]].
  pose proof (start_all_spec (session_calls sessionId version) w) as Hspec.
  destruct (start_all (session_calls sessionId version) w) as [ts w1] eqn:Hs.
  cbn [fst snd] in *.
  destruct (Hspec ts w1 Hwf eq_refl) as [_ Hts].
  change (List.length (session_calls sessionId version)) with 7%nat in *.
  assert (Hwf1 : wf (api w1)) by now rewrite Hapi0.
  destruct (run_schedule up sched ts w1) as [ts' w2] eqn:Hrun.
  destruct (run_schedule_refused up Hup sched ts w1 ts' w2 Hwf1 Href0 Hrun)
    as [Hwf2 [Hp2 [Hb2 [Href2 [Hr2 [Ha2 [d [Hd Hi2]]]]]]]].
  assert (Hret : forall j t', nth_error ts' j = Some t' -> exists r, progress t' = Returned r).
  { apply (run_schedule_settles up (answers_http_error_every_request up Hup) sched ts w1 ts' w2);
      [exact Hwf1 | | exact Hrun].
    intros j t Hj. destruct (Hts j t Hj) as [Hfl Hrem]. split; [exact Hfl|].
    assert (j < 7)%nat by (rewrite <- Hlen0; apply nth_error_Some; congruence).
    specialize (Hfair j H). lia. }
  destruct (returned_tasks ts' Hret) as [Htot2 Hpen2].
  destruct (refused_tasks_settle_null ts' Href2 Hret) as [data [Hdata Hmap]].
  pose proof (Promise_allSettled_length ts' data Hdata) as Hlen2.
  pose proof (run_schedule_length up sched ts w1) as Hlen1. rewrite Hrun in Hlen1.
  cbn [fst] in Hlen1. rewrite Hlen1, Hlen0 in Hlen2.
  rewrite Hlen1, Hlen0 in Hmap.
  assert (Hrot1 : rotations (log w1) = rotations (log w)).
  { rewrite Hlog0, rotations_app. simpl. lia. }
  assert (Hatt1 : List.length (attempted (log w1)) = (List.length (attempted (log w)) + 7)%nat).
  { rewrite Hlog0, attempted_app, length_app. reflexivity. }
  rewrite Hapi0 in *. rewrite Htot0, Htot2 in Hr2. rewrite Hpen0, Hpen2 in Ha2.
  cbn [List.length session_calls] in Hr2, Ha2.
  exists w2. rewrite Hdata.
  split; [|split; [lia | split; [lia|]]].
  - unfold collect. rewrite Hmap. reflexivity.
  - apply wf_ext; try assumption.
    rewrite Hi2.
    assert (Hdn : d = (7 * List.length (apiKeyPairs (api w)))%nat) by lia.
    rewrite Hdn, Nat2Z.inj_mul, Z_mod_plus_full. apply Z.mod_small. exact (proj1 Hwf).
Qed.

(** X11. An aggregation in which every request is refused with an HTTP
    error response, whatever the order in which the answers arrive (each
    call getting as many as the pool has pairs): the record is returned
    with all seven fields [null]; the seven calls together have sent
    exactly 7 N requests and rotated the pool 7 N times; and the client is
    left exactly as it was, the cursor on the pair it started from. *)
Theorem refused_aggregation_under_any_schedule
  (sched : list nat) (up : Upstream) (w : World) (sessionId version : string) :
  wf (api w) ->
  answers_http_error up ->
  (forall j, (j < 7)%nat ->
             (List.length (apiKeyPairs (api w)) <= count_occ Nat.eq_dec sched j)%nat) ->
  exists w',
    getRelavantSessionData sched up w sessionId version = Some (Normal no_data, w') /\
    rotations (log w') = (rotations (log w) + 7 * List.length (apiKeyPairs (api w)))%nat /\
    List.length (attempted (log w'))
    = (List.length (attempted (log w)) + 7 * List.length (apiKeyPairs (api w)))%nat /\
    api w' = api w.
Proof. apply refused_aggregation. Qed.

Lemma refused_aggregation_under_any_schedule_witness :
  exists w',
    getRelavantSessionData [6; 6; 5; 0; 1; 2; 3; 4; 5; 0; 1; 2; 3; 4]%nat (always_http_error 429)
      (world [kp1; kp2]) "abc" "1.0.0" = Some (Normal no_data, w') /\
    rotations (log w') = (0 + 7 * 2)%nat /\
    List.length (attempted (log w')) = (0 + 7 * 2)%nat /\
    api w' = api (world [kp1; kp2]).
Proof.
  apply (refused_aggregation_under_any_schedule [6; 6; 5; 0; 1; 2; 3; 4; 5; 0; 1; 2; 3; 4]%nat
           (always_http_error 429) (world [kp1; kp2]) "abc" "1.0.0").
  - apply world_wf.
  - apply always_http_error_answers. lia.
  - intros j Hj. destruct j as [|[|[|[|[|[|[|j]]]]]]]; simpl; lia.
Defined.

(* ===================================================================== *)

(** * Properties of the SharePoint client *)

Example ToString_values :
  ToString (VArray [VNumber 1; VNull; VString "a"; VArray [VBool true; VUndefined]]) = "1,,a,true,"
  /\ ToString (VObject [("a", VNumber 1)]) = "[object Object]".
Proof. split; reflexivity. Qed.

Example querystring_stringify_form :
  querystring_stringify [("grant_type", Some "client_credentials");
                         ("client_id", Some "app@tenant"); ("client_secret", None)]
  = "grant_type=client_credentials&client_id=app%40tenant&client_secret=".
Proof. vm_compute. reflexivity. Qed.

(** [handleAxiosError] never returns: the [catch] blocks always end in a
    throw. *)
Lemma handleAxiosError_throws (error : JSError) (operation : string) :
  exists e, handleAxiosError error operation = Throw e.
Proof.
  unfold handleAxiosError. destruct error as [msg | [response|] | msg]; try (eexists; reflexivity).
  destruct (truthy (data response)); [|eexists; reflexivity].
  destruct (get_prop (data response) "error") as [err | e]; cbn [bind]; [|eexists; reflexivity].
  destruct (truthy err); [|eexists; reflexivity].
  destruct (get_prop err "message") as [m | e]; cbn [bind]; [|eexists; reflexivity].
  destruct (get_prop m "value") as [v | e]; cbn [bind]; eexists; reflexivity.
Qed.

Lemma caught_throws (error : JSError) (operation : string) :
  exists e, caught error operation = Throw e /\ handleAxiosError error operation = Throw e.
Proof.
  unfold caught. destruct (handleAxiosError_throws error operation) as [e He].
  exists e. rewrite He. split; reflexivity.
Qed.

(** An error that is not an axios error goes through [handleAxiosError]
    unchanged. *)
Lemma caught_other (msg operation : string) :
  caught (OtherError msg) operation = Throw (OtherError msg).
Proof. reflexivity. Qed.

Lemma get_prop_truthy (v : value) (k : string) :
  truthy v = true -> exists x, get_prop v k = Normal x.
Proof. destruct v; simpl; try discriminate; intros _; eexists; reflexivity. Qed.

Lemma getAccessToken_cases
  (env : Env) (sp : SharePoint) (sent : list HttpRequest) :
  snd (getAccessToken env sp sent) = sent ++ [token_request env] /\
  match fst (getAccessToken env sp sent), sp (List.length sent) (token_request env) with
  | Normal v, Resolved response =>
      truthy v = true /\ status response = 200 /\
      get_prop (data response) "access_token" = Normal v
  | Normal _, Rejected _ => False
  | Throw e, Resolved _ => e = OtherError "Failed to fetch access token from SharePoint."
  | Throw e, Rejected error => handleAxiosError error "fetching access token" = Throw e
  end.
Proof.
  unfold getAccessToken, axios_send.
  destruct (sp (List.length sent) (token_request env)) as [response | error].
  - destruct (Z.eqb_spec (status response) 200) as [Hs | Hs]; cbn [andb];
      [|split; reflexivity].
    destruct (truthy (data response)) eqn:Hd; [|split; reflexivity].
    destruct (get_prop_truthy (data response) "access_token" Hd) as [tok Ht].
    rewrite Ht. cbn [bind].
    destruct (truthy tok) eqn:Htok; cbn [fst snd]; split; try reflexivity.
    split; [exact Htok | split; [exact Hs | reflexivity]].
  - destruct (caught_throws error "fetching access token") as [e [He1 He2]].
    rewrite He1. cbn [fst snd]. split; [reflexivity | exact He2].
Qed.

(** X12. [getAccessToken] sends one request and never resolves without a
    token: it returns a value only when the answer has status 200 and a
    body with a truthy [access_token], and then returns that token. A 2xx
    answer of another status, or without a token, ends in the error
    "Failed to fetch access token from SharePoint."; a failed request ends
    in what [handleAxiosError] throws for it. *)
Theorem getAccessToken_returns_a_token_or_throws
  (env : Env) (sp : SharePoint) (sent : list HttpRequest) :
  snd (getAccessToken env sp sent) = sent ++ [token_request env] /\
  match fst (getAccessToken env sp sent), sp (List.length sent) (token_request env) with
  | Normal v, Resolved response =>
      truthy v = true /\ status response = 200 /\
      get_prop (data response) "access_token" = Normal v
  | Normal _, Rejected _ => False
  | Throw e, Resolved _ => e = OtherError "Failed to fetch access token from SharePoint."
  | Throw e, Rejected error => handleAxiosError error "fetching access token" = Throw e
  end.
Proof. apply getAccessToken_cases. Qed.

Lemma before_spec (sep : ascii) (s : string) :
  ~ In sep (list_ascii_of_string (before sep s)) /\
  (s = before sep s \/ exists rest, s = (before sep s ++ String sep rest)%string).
Proof.
  induction s as [|c s [IH1 IH2]]; simpl.
  - split; [tauto | now left].
  - destruct (Ascii.eqb_spec c sep) as [He | Hne].
    + subst c. simpl. split; [tauto|]. right. now exists s.
    + simpl. split.
      * intros [H | H]; [now apply Hne | now apply IH1].
      * destruct IH2 as [IH2 | [rest IH2]].
        -- left. now rewrite <- IH2.
        -- right. exists rest. now rewrite <- IH2.
Qed.

Lemma getFormDigestValue_cases
  (env : Env) (sp : SharePoint) (accessToken : string) (sent : list HttpRequest) :
  snd (getFormDigestValue env sp accessToken sent) = sent ++ [digest_request env accessToken] /\
  match fst (getFormDigestValue env sp accessToken sent),
        sp (List.length sent) (digest_request env accessToken) with
  | Normal v, Resolved response =>
      status response = 200 /\
      exists full,
        get_prop (data response) "FormDigestValue" = Normal (VString full) /\
        full <> "" /\
        v = VString (before ","%char full) /\
        ~ In ","%char (list_ascii_of_string (before ","%char full)) /\
        (full = before ","%char full \/
         exists rest, full = (before ","%char full ++ String ","%char rest)%string)
  | Normal _, Rejected _ => False
  | Throw e, Resolved response =>
      e = OtherError "Failed to fetch Form Digest Value from SharePoint." \/
      e = TypeError "response.data.FormDigestValue.split is not a function"
  | Throw e, Rejected error => handleAxiosError error "fetching form digest value" = Throw e
  end.
Proof.
  unfold getFormDigestValue, axios_send.
  destruct (sp (List.length sent) (digest_request env accessToken)) as [response | error].
  - destruct (Z.eqb_spec (status response) 200) as [Hs | Hs]; cbn [andb];
      [|split; [reflexivity | now left]].
    destruct (truthy (data response)) eqn:Hd; [|split; [reflexivity | now left]].
    destruct (get_prop_truthy (data response) "FormDigestValue" Hd) as [dig Ht].
    rewrite Ht. cbn [bind].
    destruct (truthy dig) eqn:Hdig; [|split; [reflexivity | now left]].
    destruct dig as [| | b | n | full | l | ps | bs]; try discriminate;
      cbn [first_of_split caught handleAxiosError bind fst snd];
      try (split; [reflexivity | now right]).
    split; [reflexivity|]. split; [exact Hs|].
    exists full. split; [reflexivity|].
    split; [intros He; subst full; discriminate|].
    split; [reflexivity|]. apply before_spec.
  - destruct (caught_throws error "fetching form digest value") as [e [He1 He2]].
    rewrite He1. cbn [fst snd]. split; [reflexivity | exact He2].
Qed.

(** X13. What [getFormDigestValue] returns is the part of the answer's
    [FormDigestValue] that stands before its first comma: a string without
    a comma, equal to the whole value or followed in it by a comma. It is
    returned only from an answer of status 200; a truthy
    [FormDigestValue] that is not a string makes the function throw. *)
Theorem getFormDigestValue_is_first_field
  (env : Env) (sp : SharePoint) (accessToken : string) (sent : list HttpRequest) :
  snd (getFormDigestValue env sp accessToken sent) = sent ++ [digest_request env accessToken] /\
  match fst (getFormDigestValue env sp accessToken sent),
        sp (List.length sent) (digest_request env accessToken) with
  | Normal v, Resolved response =>
      status response = 200 /\
      exists full,
        get_prop (data response) "FormDigestValue" = Normal (VString full) /\
        full <> "" /\
        v = VString (before ","%char full) /\
        ~ In ","%char (list_ascii_of_string (before ","%char full)) /\
        (full = before ","%char full \/
         exists rest, full = (before ","%char full ++ String ","%char rest)%string)
  | Normal _, Rejected _ => False
  | Throw e, Resolved response =>
      e = OtherError "Failed to fetch Form Digest Value from SharePoint." \/
      e = TypeError "response.data.FormDigestValue.split is not a function"
  | Throw e, Rejected error => handleAxiosError error "fetching form digest value" = Throw e
  end.
Proof. apply getFormDigestValue_cases. Qed.

(** X14. [createFolderIfNotExistInSharepoint] first asks whether the
    folder exists. The request that creates the folder is sent exactly
    when that question is answered with a falsy [value]; then the function
    returns if the creation is answered and throws what [handleAxiosError]
    makes of its failure. When the folder is reported present nothing more
    is sent. When the question fails, or its answer has no body, the
    function throws and nothing is created. *)
Theorem folder_is_created_only_when_reported_missing
  (env : Env) (sp : SharePoint) (path accessToken formDigestValue : string)
  (sent : list HttpRequest) :
  let check := exists_request env path accessToken formDigestValue in
  let add := add_folder_request env path accessToken formDigestValue in
  let r := createFolderIfNotExistInSharepoint env sp path accessToken formDigestValue sent in
  match sp (List.length sent) check with
  | Resolved response =>
      match get_prop (data response) "value" with
      | Normal found =>
          if truthy found then r = (Normal VUndefined, sent ++ [check])
          else
            snd r = sent ++ [check; add] /\
            match sp (S (List.length sent)) add with
            | Resolved _ => fst r = Normal VUndefined
            | Rejected error =>
                exists e, fst r = Throw e /\ handleAxiosError error "creating folder" = Throw e
            end
      | Throw e => r = (Throw e, sent ++ [check])
      end
  | Rejected error =>
      snd r = sent ++ [check] /\
      exists e, fst r = Throw e /\
                handleAxiosError error "checking folder existence" = Throw e
  end.
Proof.
  intros check add r. subst r.
  unfold createFolderIfNotExistInSharepoint, checkFolderExistsInSharepoint, axios_send.
  fold check.
  destruct (sp (List.length sent) check) as [response | error].
  - destruct (get_prop (data response) "value") as [found | e] eqn:Hv.
    + destruct (truthy found); cbn [negb]; [reflexivity|].
      unfold createFolderInSharepoint, axios_send. fold add.
      rewrite length_app, Nat.add_1_r. cbn [List.length].
      rewrite <- app_assoc. cbn [app].
      destruct (sp (S (List.length sent)) add) as [response' | error]; cbn [fst snd].
      * split; reflexivity.
      * destruct (caught_throws error "creating folder") as [e [He1 He2]].
        rewrite He1. cbn [fst snd]. split; [reflexivity|]. exists e. split; [reflexivity | exact He2].
    + unfold get_prop in Hv.
      destruct (data response); try discriminate; inversion Hv; subst; reflexivity.
  - destruct (caught_throws error "checking folder existence") as [e [He1 He2]].
    rewrite He1. cbn [fst snd]. split; [reflexivity|]. exists e. split; [reflexivity | exact He2].
Qed.

Lemma truthy_has_text (v : value) : truthy v = true -> exists text, JSON_stringify v = Some text.
Proof.
  destruct v as [| | [|] | n | s | l | ps | bs]; intros H; try discriminate; eexists; reflexivity.
Qed.

(** X15. [uploadObjectAsJSON] on missing data ([null], [undefined], or any
    other falsy value) sends nothing and returns without an error. On any
    other data it sends one request, whose body is the compact JSON text of
    the data; it returns when the request is answered and throws what
    [handleAxiosError] makes of its failure. *)
Theorem uploadObjectAsJSON_skips_missing_data
  (env : Env) (sp : SharePoint) (accessToken formDigestValue fileName : string)
  (data : value) (folderPath : string) (sent : list HttpRequest) :
  let r := uploadObjectAsJSON env sp accessToken formDigestValue fileName data folderPath sent in
  if truthy data then
    exists req text,
      snd r = sent ++ [req] /\
      http_method req = "post" /\
      JSON_stringify data = Some text /\ http_body req = VString text /\
      match sp (List.length sent) req with
      | Resolved _ => fst r = Normal VUndefined
      | Rejected error =>
          exists e, fst r = Throw e /\ handleAxiosError error "uploading JSON file" = Throw e
      end
  else r = (Normal VUndefined, sent).
Proof.
  intros r. subst r. unfold uploadObjectAsJSON, axios_send.
  destruct (truthy data) eqn:Hd; cbn [negb]; [|reflexivity].
  destruct (truthy_has_text data Hd) as [text Ht].
  exists (add_file_request env accessToken formDigestValue fileName data folderPath), text.
  destruct (sp (List.length sent)
              (add_file_request env accessToken formDigestValue fileName data folderPath))
    as [response | error]; cbn [fst snd].
  - repeat split; try reflexivity; try exact Ht.
    unfold add_file_request, JSON_stringify_value. cbn [http_body]. now rewrite Ht.
  - destruct (caught_throws error "uploading JSON file") as [e [He1 He2]].
    rewrite He1. cbn [fst snd].
    split; [reflexivity|]. split; [reflexivity|]. split; [exact Ht|].
    split; [unfold add_file_request, JSON_stringify_value; cbn [http_body]; now rewrite Ht|].
    exists e. split; [reflexivity | exact He2].
Qed.

(** X16. A handler is made only with a token and a form digest: when
    [BaseWebhookHandler.new()] returns, two requests have been sent, the
    second carrying the token that the first was answered with, both were
    answered with status 200, the token is truthy and the digest is the
    first field of the [FormDigestValue] received. When it throws, either
    the token request alone has been sent, or both have. *)
Theorem handler_is_made_with_token_and_digest
  (env : Env) (sp : SharePoint) (sent : list HttpRequest) :
  let r := BaseWebhookHandler_new env sp sent in
  match fst r with
  | Normal this =>
      truthy (accessToken this) = true /\
      snd r = sent ++ [token_request env;
                       digest_request env (ToString (accessToken this))] /\
      (exists response,
          sp (List.length sent) (token_request env) = Resolved response /\
          status response = 200 /\
          get_prop (data response) "access_token" = Normal (accessToken this)) /\
      (exists response full,
          sp (S (List.length sent)) (digest_request env (ToString (accessToken this)))
          = Resolved response /\
          status response = 200 /\
          get_prop (data response) "FormDigestValue" = Normal (VString full) /\
          formDigestValue this = VString (before ","%char full))
  | Throw e =>
      (snd r = sent ++ [token_request env] /\
       forall response, sp (List.length sent) (token_request env) = Resolved response ->
                        e = OtherError "Failed to fetch access token from SharePoint.") \/
      (exists token,
          snd r = sent ++ [token_request env; digest_request env (ToString token)])
  end.
Proof.
  intros r. subst r. unfold BaseWebhookHandler_new.
  pose proof (getAccessToken_cases env sp sent) as [Hs1 Hc1].
  destruct (getAccessToken env sp sent) as [[token | e] sent1]; cbn [fst snd] in *.
  2:{ left. split; [exact Hs1|]. intros response Hr. rewrite Hr in Hc1. exact Hc1. }
  destruct (sp (List.length sent) (token_request env)) as [response1 | error1] eqn:Hsp1;
    [|contradiction].
  destruct Hc1 as [Htok [Hst1 Hget1]].
  pose proof (getFormDigestValue_cases env sp (ToString token) sent1) as [Hs2 Hc2].
  assert (Hlen : List.length sent1 = S (List.length sent)).
  { rewrite Hs1, length_app, Nat.add_1_r. reflexivity. }
  rewrite Hlen in Hc2.
  assert (Hsent2 : snd (getFormDigestValue env sp (ToString token) sent1)
                   = sent ++ [token_request env; digest_request env (ToString token)]).
  { rewrite Hs2, Hs1, <- app_assoc. reflexivity. }
  destruct (getFormDigestValue env sp (ToString token) sent1) as [[digest | e] sent2];
    cbn [fst snd] in *.
  2:{ right. exists token. exact Hsent2. }
  destruct (sp (S (List.length sent)) (digest_request env (ToString token)))
    as [response2 | error2] eqn:Hsp2; [|contradiction].
  destruct Hc2 as [Hst2 [full [Hget2 [_ [Hdig _]]]]].
  split; [exact Htok|]. split; [exact Hsent2|]. split.
  - exists response1. repeat split; assumption.
  - exists response2, full. repeat split; assumption.
Qed.

(* ===================================================================== *)

(** * Properties of the webhook handlers and of the routes *)

Lemma first_name_truthy (personInfo firstName : value) :
  first_name personInfo = Normal firstName ->
  truthy firstName = true ->
  exists person lastName,
    get_prop personInfo "value" = Normal person /\
    get_prop person "firstName" = Normal firstName /\
    get_prop person "lastName" = Normal lastName.
Proof.
  unfold first_name, optional_prop. intros H Ht.
  destruct (nullish personInfo) eqn:Hn.
  - cbn in H. inversion H; subst. discriminate.
  - destruct (get_prop personInfo "value") as [person | e] eqn:Hp; [|discriminate].
    cbn [bind] in H.
    destruct (nullish person) eqn:Hn'.
    + inversion H; subst. discriminate.
    + exists person.
      destruct person; try discriminate; cbn in H |- *; eexists; repeat split; try exact H;
        reflexivity.
Qed.

Lemma person_name_spec (personInfo : value) (name : string) :
  person_name personInfo = Normal name -> named_under_value personInfo name.
Proof.
  unfold person_name, named_under_value. intros H.
  destruct (get_prop personInfo "value") as [person | e]; [|discriminate].
  cbn [bind] in H.
  destruct (get_prop person "firstName") as [firstName | e] eqn:Hf; [|discriminate].
  cbn [bind] in H.
  destruct (get_prop person "lastName") as [lastName | e] eqn:Hl; [|discriminate].
  cbn [bind] in H. inversion H.
  exists person, firstName, lastName. repeat split; assumption.
Qed.

(** X17. No handler gets as far as creating a folder unless the person of
    the session data holds its name under a [value] property: the three
    handlers read [personInfo.value.firstName], although [extractValue] has
    already taken the values out of the settled results. When a handler
    does get there, the session identifier is the one of the event and the
    name is the one found under [value]. Otherwise the decision handler
    answers 404 or 500, the verification handler answers 500 or ends
    without an answer, and the proof-of-address handler answers 500. *)
Theorem handlers_upload_only_for_a_person_under_value
  (fetch : string -> SessionData) (payload : value) :
  match DecisionEvents_handleWebhook fetch payload with
  | Uploading name folders =>
      exists id,
        (verification <- get_prop payload "verification" ;; get_prop verification "id")
        = Normal id /\
        named_under_value (personInfo (fetch (ToString id))) name
  | Replied r => reply_status r = 404 \/ r = internal_server_error
  | Ended => False
  end /\
  match VerificationEvents_handleWebhook fetch payload with
  | Uploading name folders =>
      exists id,
        (verification <- get_prop payload "verification" ;; get_prop verification "id")
        = Normal id /\
        named_under_value (personInfo (fetch (ToString id))) name
  | Replied r => r = internal_server_error
  | Ended => True
  end /\
  match ProofOfAddress_handleWebhook fetch payload with
  | Uploading name folders =>
      exists id,
        get_prop payload "id" = Normal id /\
        named_under_value (personInfo (fetch (ToString id))) name
  | Replied r => r = internal_server_error
  | Ended => False
  end.
Proof.
  split; [|split].
  - unfold DecisionEvents_handleWebhook.
    destruct (get_prop payload "verification") as [verification | e]; [|now right].
    cbn [bind].
    destruct (get_prop verification "id") as [id | e]; [|now right].
    cbn [bind].
    destruct (every_without_value (Object_values (fetch (ToString id)))) as [[|] | e];
      cbn [bind or_internal_server_error]; [now left | | now right].
    destruct (first_name (personInfo (fetch (ToString id)))) as [firstName | e];
      cbn [bind or_internal_server_error]; [|now right].
    destruct (truthy firstName); [|now left].
    destruct (person_name (personInfo (fetch (ToString id)))) as [name | e] eqn:Hname;
      cbn [bind or_internal_server_error]; [|now right].
    destruct (optional_prop (sessionDecision (fetch (ToString id))) "value") as [v | e];
      cbn [bind or_internal_server_error]; [|now right].
    destruct (optional_prop v "verification") as [v' | e];
      cbn [bind or_internal_server_error]; [|now right].
    destruct (optional_prop v' "code") as [code | e];
      cbn [bind or_internal_server_error]; [|now right].
    exists id. split; [reflexivity | now apply person_name_spec].
  - unfold VerificationEvents_handleWebhook.
    destruct (get_prop payload "verification") as [verification | e]; [|reflexivity].
    cbn [bind].
    destruct (get_prop verification "id") as [id | e]; [|reflexivity].
    cbn [bind].
    destruct (get_prop verification "code") as [code | e]; [|reflexivity].
    cbn [bind].
    destruct (first_name (personInfo (fetch (ToString id)))) as [firstName | e];
      cbn [bind or_internal_server_error]; [|reflexivity].
    destruct (truthy firstName); [|exact I].
    destruct (person_name (personInfo (fetch (ToString id)))) as [name | e] eqn:Hname;
      cbn [bind or_internal_server_error]; [|reflexivity].
    exists id. split; [reflexivity | now apply person_name_spec].
  - unfold ProofOfAddress_handleWebhook.
    destruct (get_prop payload "id") as [id | e]; [|reflexivity].
    cbn [bind].
    destruct (get_prop payload "addressId") as [addressId | e]; [|reflexivity].
    cbn [bind].
    destruct (person_name (personInfo (fetch (ToString id)))) as [name | e] eqn:Hname;
      cbn [bind or_internal_server_error]; [|reflexivity].
    exists id. split; [reflexivity | now apply person_name_spec].
Qed.

Lemma handlers_upload_only_for_a_person_under_value_witness :
  (exists id,
      (verification <- get_prop session_event "verification" ;; get_prop verification "id")
      = Normal id /\
      named_under_value (personInfo (with_person wrapped_person)) "Ada Lovelace") /\
  (exists id,
      (verification <- get_prop session_event "verification" ;; get_prop verification "id")
      = Normal id /\
      named_under_value (personInfo (with_person wrapped_person)) "Ada Lovelace") /\
  (exists id,
      get_prop session_event "id" = Normal id /\
      named_under_value (personInfo (with_person wrapped_person)) "Ada Lovelace").
Proof.
  exact (handlers_upload_only_for_a_person_under_value
           (fun _ => with_person wrapped_person) session_event).
Defined.

(** The handlers do go on for a person that is held under [value]. *)
Example handlers_upload_for_a_wrapped_person :
  DecisionEvents_handleWebhook (fun _ => with_person wrapped_person) session_event
  = Uploading "Ada Lovelace" ["KYC Details/Unsuccessful";
                              "KYC Details/Unsuccessful/Ada Lovelace_abc"] /\
  VerificationEvents_handleWebhook (fun _ => with_person wrapped_person) session_event
  = Uploading "Ada Lovelace" ["KYC Details/Submitted";
                              "KYC Details/Submitted/Ada Lovelace_abc"] /\
  ProofOfAddress_handleWebhook (fun _ => with_person wrapped_person)
    (VObject [("id", VString "abc"); ("addressId", VString "addr-123")])
  = Uploading "Ada Lovelace" ["KYC Details/Ada Lovelace_abc"].
Proof. repeat split; reflexivity. Qed.

Lemma decision_without_decision (fetch : string -> SessionData)
  (payload verification sessionId : value) :
  get_prop payload "verification" = Normal verification ->
  get_prop verification "id" = Normal sessionId ->
  sessionDecision (fetch (ToString sessionId)) = VNull ->
  DecisionEvents_handleWebhook fetch payload = Replied internal_server_error.
Proof.
  intros Hv Hid Hd. unfold DecisionEvents_handleWebhook.
  rewrite Hv. cbn [bind]. rewrite Hid. cbn [bind].
  unfold Object_values. rewrite Hd. reflexivity.
Qed.

Lemma verification_without_person (fetch : string -> SessionData)
  (payload verification sessionId : value) :
  get_prop payload "verification" = Normal verification ->
  get_prop verification "id" = Normal sessionId ->
  nullish (personInfo (fetch (ToString sessionId))) = true ->
  VerificationEvents_handleWebhook fetch payload = Ended.
Proof.
  intros Hv Hid Hp. unfold VerificationEvents_handleWebhook.
  rewrite Hv. cbn [bind]. rewrite Hid. cbn [bind].
  assert (Hc : exists code, get_prop verification "code" = Normal code).
  { destruct verification; try discriminate; eexists; reflexivity. }
  destruct Hc as [code Hc]. rewrite Hc. cbn [bind].
  unfold first_name, optional_prop. rewrite Hp. reflexivity.
Qed.

(** X18. What the decision handler answers on the data the client
    delivers. When the call for the session decision has failed (its field
    is [null]), the answer is 500 "Internal server error", whatever the
    other six calls have brought. When every call has brought something
    that has no [value] property of its own, the answer is 404 "Data not
    found". *)
Theorem decision_handler_on_delivered_data
  (fetch : string -> SessionData) (payload verification sessionId : value) :
  get_prop payload "verification" = Normal verification ->
  get_prop verification "id" = Normal sessionId ->
  sessionDecision (fetch (ToString sessionId)) = VNull \/
  Forall (fun field => get_prop field "value" = Normal VUndefined)
         (Object_values (fetch (ToString sessionId))) ->
  DecisionEvents_handleWebhook fetch payload
  = Replied (if nullish (sessionDecision (fetch (ToString sessionId)))
             then internal_server_error
             else {| reply_status := 404;
                     reply_json := VObject [("error", VString "Data not found")] |}).
Proof.
  intros Hv Hid [Hnull | Hall].
  - rewrite Hnull. cbn [nullish].
    now apply decision_without_decision with (verification := verification) (sessionId := sessionId).
  - assert (Hn : nullish (sessionDecision (fetch (ToString sessionId))) = false).
    { unfold Object_values in Hall. inversion Hall as [|x l Hd _]; subst.
      destruct (sessionDecision (fetch (ToString sessionId))); try reflexivity; discriminate. }
    rewrite Hn. unfold DecisionEvents_handleWebhook.
    rewrite Hv. cbn [bind]. rewrite Hid. cbn [bind].
    assert (He : every_without_value (Object_values (fetch (ToString sessionId))) = Normal true).
    { induction Hall as [|field rest Hf _ IH]; [reflexivity|].
      cbn [every_without_value]. rewrite Hf. cbn [bind nullish]. exact IH. }
    rewrite He. reflexivity.
Qed.

Lemma decision_handler_on_delivered_data_witness :
  DecisionEvents_handleWebhook (fun _ => delivered_data) session_event
  = Replied {| reply_status := 404;
               reply_json := VObject [("error", VString "Data not found")] |}.
Proof.
  apply (decision_handler_on_delivered_data (fun _ => delivered_data) session_event
           (VObject [("id", VString "abc"); ("code", VNumber 7002)]) (VString "abc")).
  - reflexivity.
  - reflexivity.
  - right. repeat constructor.
Defined.

(** X19. A session for which the upstream refuses every credential, seen
    from the webhooks: the aggregation brings a record of [null]s, on which
    the decision handler answers 500 "Internal server error" (and not 404
    "Data not found") and the verification handler ends without an answer;
    neither gets as far as creating a folder, and the client is left as it
    was. *)
Theorem refused_session_seen_from_the_webhooks
  (sched : list nat) (up : Upstream) (w : World) (version : string)
  (payload verification sessionId : value) :
  wf (api w) ->
  answers_http_error up ->
  (forall j, (j < 7)%nat ->
             (List.length (apiKeyPairs (api w)) <= count_occ Nat.eq_dec sched j)%nat) ->
  get_prop payload "verification" = Normal verification ->
  get_prop verification "id" = Normal sessionId ->
  exists result w',
    getRelavantSessionData sched up w (ToString sessionId) version
    = Some (Normal result, w') /\
    api w' = api w /\
    DecisionEvents_handleWebhook (fun _ => result) payload = Replied internal_server_error /\
    VerificationEvents_handleWebhook (fun _ => result) payload = Ended.
Proof.
  intros Hwf Hup Hfair Hv Hid.
  destruct (refused_aggregation sched up w (ToString sessionId) version Hwf Hup Hfair)
    as [w' [Hrun [_ [_ Hapi]]]].
  exists no_data, w'. split; [exact Hrun|]. split; [exact Hapi|]. split.
  - now apply decision_without_decision with (verification := verification) (sessionId := sessionId).
  - now apply verification_without_person with (verification := verification) (sessionId := sessionId).
Qed.

Lemma refused_session_seen_from_the_webhooks_witness :
  exists result w',
    getRelavantSessionData [6; 6; 5; 0; 1; 2; 3; 4; 5; 0; 1; 2; 3; 4]%nat (always_http_error 429)
      (world [kp1; kp2]) (ToString (VString "abc")) "1.0.0" = Some (Normal result, w') /\
    api w' = api (world [kp1; kp2]) /\
    DecisionEvents_handleWebhook (fun _ => result) session_event
    = Replied internal_server_error /\
    VerificationEvents_handleWebhook (fun _ => result) session_event = Ended.
Proof.
  apply (refused_session_seen_from_the_webhooks
           [6; 6; 5; 0; 1; 2; 3; 4; 5; 0; 1; 2; 3; 4]%nat (always_http_error 429)
           (world [kp1; kp2]) "1.0.0" session_event
           (VObject [("id", VString "abc"); ("code", VNumber 7002)]) (VString "abc")).
  - apply world_wf.
  - apply always_http_error_answers. lia.
  - intros j Hj. destruct j as [|[|[|[|[|[|[|j]]]]]]]; simpl; lia.
  - reflexivity.
  - reflexivity.
Defined.

(** X20. The routes let a webhook through to its handler exactly when the
    signature header is present and not empty and is the HMAC-SHA256 hex
    digest, under the secret of some pair of the pool, of the text of the
    body. A missing or empty header is answered 401 before the body is
    looked at, and a signature that matches no pair is answered 401. *)
Theorem route_lets_through_only_signed_webhooks
  (r : Route) (veriffAPI : VeriffAPI) (signature : option string) (payload : value) :
  (route r veriffAPI signature payload = Normal None <->
   exists s text kp,
     signature = Some s /\ s <> "" /\
     digested_text payload = Some text /\
     In kp (apiKeyPairs veriffAPI) /\
     createHmac_sha256_hex (sharedSecretKey kp) (bytes_of_string text) = s) /\
  (signature = None \/ signature = Some "" ->
   route r veriffAPI signature payload = Normal (Some unauthorized)) /\
  (forall reply, route r veriffAPI signature payload = Normal (Some reply) ->
                 reply_status reply = 401).
Proof.
  unfold route.
  destruct signature as [s|].
  2:{ split; [|split].
      - split; [discriminate | intros [s [text [kp [H _]]]]; discriminate].
      - reflexivity.
      - intros reply H. inversion H. reflexivity. }
  destruct s as [|c s].
  { split; [|split].
    - split; [discriminate | intros [s [text [kp [H [Hne _]]]]]; inversion H; subst; now elim Hne].
    - reflexivity.
    - intros reply H. inversion H. reflexivity. }
  cbn [truthy String.eqb negb].
  pose proof (isSignatureValid_cases veriffAPI (String c s) payload) as Hc.
  destruct (digested_text payload) as [text|].
  - destruct Hc as [b [Hb Hiff]]. rewrite Hb. cbn [bind].
    split; [|split].
    + split.
      * destruct b; cbn [negb]; [intros _ | discriminate].
        destruct (proj1 Hiff eq_refl) as [kp [Hin Hd]].
        exists (String c s), text, kp. repeat split; try assumption; discriminate.
      * intros [s' [text' [kp [Hs [_ [Ht [Hin Hd]]]]]]].
        injection Hs as Hs. injection Ht as Ht. subst s' text'.
        assert (Hb' : b = true) by (apply Hiff; exists kp; split; assumption).
        subst b. reflexivity.
    + intros [H | H]; discriminate.
    + intros reply H. destruct b; cbn [negb] in H; inversion H. destruct r; reflexivity.
  - destruct Hc as [msg Hm]. rewrite Hm. cbn [bind].
    split; [|split].
    + split; [discriminate | intros [s' [text' [kp [_ [_ [Ht _]]]]]]; discriminate].
    + intros [H | H]; discriminate.
    + intros reply H. discriminate.
Qed.

Lemma route_lets_through_only_signed_webhooks_witness :
  route proof_of_address_route (client [kp1; kp2])
    (Some (createHmac_sha256_hex "s2" (bytes_of_string address_event_json))) address_event
  = Normal None.
Proof.
  apply (proj1 (route_lets_through_only_signed_webhooks proof_of_address_route
                  (client [kp1; kp2])
                  (Some (createHmac_sha256_hex "s2" (bytes_of_string address_event_json)))
                  address_event)).
  exists (createHmac_sha256_hex "s2" (bytes_of_string address_event_json)),
    address_event_json, kp2.
  split; [reflexivity|]. split; [vm_compute; discriminate|].
  split; [reflexivity|]. split; [simpl; auto | reflexivity].
Defined.
